(** * The PTY prompt bridge of [codex-run] (src/commands/codex-run.pty.ts)

    A shallow embedding of the prompt classifier, the auto-answer policy and
    the session bridge, together with the properties of the specification
    that are stated about them; and of the helpers of the command that calls
    the bridge (src/commands/codex-run.ts), with properties of theirs. *)

From Stdlib Require Import String Ascii List NArith ZArith Bool Lia Arith.
From Stdlib Require Import DecimalString.
Import ListNotations.

Set Implicit Arguments.

(** ** JavaScript strings

    A JavaScript string is a sequence of UTF-16 code units; [length],
    [slice], [split] and the regular expressions of the source (none has the
    [u] flag) all work on code units. *)

Module Js.

Definition jsstring := list N.

(** A literal of the source, written as a Rocq string of ASCII characters. *)
Definition lit (s : string) : jsstring :=
  map N_of_ascii (list_ascii_of_string s).

Definition eqb (a b : jsstring) : bool :=
  if list_eq_dec N.eq_dec a b then true else false.

(** [\s] of a regular expression and the characters removed by [trim]:
    WhiteSpace and LineTerminator of ECMA-262. *)
Definition isWhiteSpace (c : N) : bool :=
  ((9 <=? c) && (c <=? 13) || (c =? 32) || (c =? 160) || (c =? 5760)
   || (8192 <=? c) && (c <=? 8202) || (c =? 8232) || (c =? 8233)
   || (c =? 8239) || (c =? 8287) || (c =? 12288) || (c =? 65279))%N.

(** LineTerminator: what [.] does not match. *)
Definition isLineTerminator (c : N) : bool :=
  ((c =? 10) || (c =? 13) || (c =? 8232) || (c =? 8233))%N.

(** [\w], used by [\b]: [A-Za-z0-9_]. *)
Definition isWordChar (c : N) : bool :=
  ((48 <=? c) && (c <=? 57) || (65 <=? c) && (c <=? 90) || (c =? 95)
   || (97 <=? c) && (c <=? 122))%N.

(** Canonicalize of ECMA-262 for the [i] flag without the [u] flag: a code
    unit is mapped to its upper case, unless that would take a code unit
    above 127 into ASCII.  Every pattern character of the source is ASCII,
    and then a code unit matches it exactly when their ASCII upper cases are
    equal, which is what this function decides. *)
Definition Canonicalize (c : N) : N :=
  if ((97 <=? c) && (c <=? 122))%N then (c - 32)%N else c.

Definition eqIgnoreCase (a b : jsstring) : Prop :=
  map Canonicalize a = map Canonicalize b.

(** *** String methods *)

Fixpoint dropWhile (p : N -> bool) (s : jsstring) : jsstring :=
  match s with
  | [] => []
  | a :: s' => if p a then dropWhile p s' else s
  end.

Definition trimStart (s : jsstring) : jsstring := dropWhile isWhiteSpace s.
Definition trimEnd (s : jsstring) : jsstring :=
  rev (dropWhile isWhiteSpace (rev s)).
Definition trim (s : jsstring) : jsstring := trimEnd (trimStart s).

(** [s.split(sep)] for a separator of one code unit. *)
Fixpoint split (sep : N) (s : jsstring) : list jsstring :=
  match s with
  | [] => [[]]
  | a :: s' =>
      if (a =? sep)%N then [] :: split sep s'
      else match split sep s' with
           | l :: ls => (a :: l) :: ls
           | [] => [[a]]
           end
  end.

(** [xs.join(sep)] *)
Fixpoint join (sep : jsstring) (xs : list jsstring) : jsstring :=
  match xs with
  | [] => []
  | [x] => x
  | x :: xs' => x ++ sep ++ join sep xs'
  end.

(** [xs.slice(-n)]: the last [n] elements, all of them when there are
    fewer.  The start index is [max (length - n) 0]. *)
Definition sliceLast {A} (n : N) (xs : list A) : list A :=
  skipn (N.to_nat (N.of_nat (length xs) - n)) xs.

(** [s.replace(/\r/g, "\n")] *)
Definition replaceCR (s : jsstring) : jsstring :=
  map (fun c => if (c =? 13)%N then 10%N else c) s.

(** [s.replace(/\s+/g, " ")]: every maximal run of white space becomes one
    space. *)
Fixpoint collapseFrom (inRun : bool) (s : jsstring) : jsstring :=
  match s with
  | [] => []
  | a :: s' =>
      if isWhiteSpace a
      then (if inRun then collapseFrom true s' else 32%N :: collapseFrom true s')
      else a :: collapseFrom false s'
  end.
Definition collapseWhiteSpace (s : jsstring) : jsstring := collapseFrom false s.

(** [s.endsWith("\n")] *)
Definition endsWithNewline (s : jsstring) : bool :=
  match rev s with
  | c :: _ => (c =? 10)%N
  | [] => false
  end.

(** ** Regular expressions

    The patterns of the source use literals, character classes, grouping,
    alternation, [?] on a group or on a class, [*], [+] and [{0,120}] on a
    class, [\b] and [$]; all of them carry the [i] flag and none carries [m],
    [s], [g] or [y]. *)

Inductive regex : Type :=
| Lit (w : jsstring)                 (* a run of pattern characters *)
| Cls (p : N -> bool)                (* a class atom: \s . [...] *)
| Cat (r1 r2 : regex)
| Alt (r1 r2 : regex)
| Opt (r : regex)                    (* r? *)
| Rep (p : N -> bool) (lo : nat) (hi : option nat)
                                     (* p* is Rep p 0 None, p+ is Rep p 1 None,
                                        p{m,n} is Rep p m (Some n) *)
| WordB                              (* \b *)
| Eos.                               (* $ without the m flag *)

Definition wordAt (c : option N) : bool :=
  match c with Some a => isWordChar a | None => false end.

Definition lastChar (pre : jsstring) : option N := hd_error (rev pre).

Definition withinMax (hi : option nat) (n : nat) : Prop :=
  match hi with Some h => n <= h | None => True end.

(** What a pattern matches: [den r pre m post] says that [r] matches the
    code units [m] when [pre] stands before them and [post] after them. *)
Fixpoint den (r : regex) (pre m post : jsstring) : Prop :=
  match r with
  | Lit w => eqIgnoreCase m w
  | Cls p => exists a, m = [a] /\ p a = true
  | Cat r1 r2 =>
      exists m1 m2, m = m1 ++ m2 /\ den r1 pre m1 (m2 ++ post)
                    /\ den r2 (pre ++ m1) m2 post
  | Alt r1 r2 => den r1 pre m post \/ den r2 pre m post
  | Opt r1 => den r1 pre m post \/ m = []
  | Rep p lo hi =>
      Forall (fun a => p a = true) m /\ lo <= length m /\ withinMax hi (length m)
  | WordB => m = [] /\ wordAt (lastChar pre) <> wordAt (hd_error post)
  | Eos => m = [] /\ post = []
  end.

(** A match of [r] somewhere in [s]. *)
Definition Matches (r : regex) (s : jsstring) : Prop :=
  exists pre m post, s = pre ++ m ++ post /\ den r pre m post.

(** *** The matcher

    [ends r rl s] lists the ways [r] can match a prefix of [s], greedy
    alternatives first, as pairs of the text read so far (reversed) and the
    text that remains; [rl] is the reversed text before [s]. *)

Fixpoint litEnds (w rl s : jsstring) : list (jsstring * jsstring) :=
  match w with
  | [] => [(rl, s)]
  | c :: w' =>
      match s with
      | a :: s' =>
          if (Canonicalize a =? Canonicalize c)%N then litEnds w' (a :: rl) s'
          else []
      | [] => []
      end
  end.

Definition mayRepeat (hi : option nat) : bool :=
  match hi with Some 0 => false | _ => true end.

Definition oneLess (hi : option nat) : option nat :=
  match hi with Some h => Some (pred h) | None => None end.

Fixpoint repEnds (p : N -> bool) (lo : nat) (hi : option nat)
    (rl s : jsstring) : list (jsstring * jsstring) :=
  match s with
  | a :: s' =>
      if p a && mayRepeat hi
      then repEnds p (pred lo) (oneLess hi) (a :: rl) s'
      else []
  | [] => []
  end ++ (if Nat.eqb lo 0 then [(rl, s)] else []).

Fixpoint ends (r : regex) (rl s : jsstring) : list (jsstring * jsstring) :=
  match r with
  | Lit w => litEnds w rl s
  | Cls p =>
      match s with
      | a :: s' => if p a then [(a :: rl, s')] else []
      | [] => []
      end
  | Cat r1 r2 => flat_map (fun x => ends r2 (fst x) (snd x)) (ends r1 rl s)
  | Alt r1 r2 => ends r1 rl s ++ ends r2 rl s
  | Opt r1 => ends r1 rl s ++ [(rl, s)]
  | Rep p lo hi => repEnds p lo hi rl s
  | WordB =>
      if xorb (wordAt (hd_error rl)) (wordAt (hd_error s)) then [(rl, s)] else []
  | Eos => match s with [] => [(rl, [])] | _ :: _ => [] end
  end.

Definition matchesAt (r : regex) (rl s : jsstring) : bool :=
  match ends r rl s with [] => false | _ :: _ => true end.

Fixpoint searchFrom (r : regex) (rl s : jsstring) : bool :=
  matchesAt r rl s
  || match s with
     | a :: s' => searchFrom r (a :: rl) s'
     | [] => false
     end.

(** [r.test(s)] for a pattern without the [g] and [y] flags: is there a
    match starting at some index of [s]? *)
Definition test (r : regex) (s : jsstring) : bool := searchFrom r [] s.

End Js.

Import Js.

Declare Scope regex_scope.
Delimit Scope regex_scope with re.
Bind Scope regex_scope with regex.
Notation "a ;; b" := (Cat a b) (at level 61, right associativity) : regex_scope.
Notation "a |: b" := (Alt a b) (at level 62, right associativity) : regex_scope.

(** A run of pattern characters, written as in the source. *)
Definition L (s : string) : regex := Lit (lit s).

(** The character classes of the patterns. *)
Definition space : N -> bool := isWhiteSpace.                     (* \s *)
Definition dot (c : N) : bool := negb (isLineTerminator c).       (* . *)
Definition notDotNl (c : N) : bool :=                             (* [^.\n] *)
  negb ((c =? 46) || (c =? 10))%N.
Definition questionOrColon (c : N) : bool :=                      (* [?:] *)
  ((c =? 63) || (c =? 58))%N.
Definition colonOrGreater (c : N) : bool :=                       (* [:>] *)
  ((c =? 58) || (c =? 62))%N.

Definition star (p : N -> bool) : regex := Rep p 0 None.
Definition plus (p : N -> bool) : regex := Rep p 1 None.

(** ** Data model *)

Inductive CodexRunAutoAnswerMode : Type := Off | Safe | Balanced | Yolo.

Inductive PromptKind : Type := PressEnter | Confirm | Choice.

(** The string of a kind, as it is interpolated into a signature. *)
Definition kindString (k : PromptKind) : jsstring :=
  match k with
  | PressEnter => lit "press-enter"
  | Confirm => lit "confirm"
  | Choice => lit "choice"
  end.

Module PromptMatch.
Record t : Type := {
  kind : PromptKind;
  text : jsstring;
  safeAutoResponse : option jsstring      (* safeAutoResponse?: string *)
}.
End PromptMatch.

Inductive PromptSource : Type := Auto | Manual.

Module PromptEvent.
Record t : Type := {
  kind : PromptKind;
  text : jsstring;
  source : PromptSource;
  response : jsstring;
  atMs : Z
}.
End PromptEvent.

(** The functions the module imports from files that are not part of it
    ([stripAnsi] from terminal/ansi, [sanitizeBinaryOutput] from
    agents/shell-utils), and the Unicode case mapping of
    [String.prototype.toLowerCase]. *)
Class Imports : Type := {
  stripAnsi : jsstring -> jsstring;
  sanitizeBinaryOutput : jsstring -> jsstring;
  toLowerCase : jsstring -> jsstring
}.

Definition MAX_TRANSCRIPT_CHARS : N := 600000.
Definition MAX_DETECTION_TAIL : N := 5000.

(** The alternatives of [HIGH_RISK_CONFIRM_PATTERN]:
    rm\b|rm -rf|delete|drop\b|destroy|erase|wipe|truncate|reset\b|revert\b
    |force\b|overwrite|production|prod\b|database|db\b|schema|migration
    |credential|secret|token|key|sudo|root|git reset --hard
    |git push --force *)
Definition highRiskTerms : regex :=
  ((L "rm" ;; WordB) |: L "rm -rf" |: L "delete" |: (L "drop" ;; WordB)
   |: L "destroy" |: L "erase" |: L "wipe" |: L "truncate"
   |: (L "reset" ;; WordB) |: (L "revert" ;; WordB) |: (L "force" ;; WordB)
   |: L "overwrite" |: L "production" |: (L "prod" ;; WordB) |: L "database"
   |: (L "db" ;; WordB) |: L "schema" |: L "migration" |: L "credential"
   |: L "secret" |: L "token" |: L "key" |: L "sudo" |: L "root"
   |: L "git reset --hard" |: L "git push --force")%re.

(** /\b(rm\b|rm -rf|...|git push --force)\b/i *)
Definition HIGH_RISK_CONFIRM_PATTERN : regex :=
  (WordB ;; highRiskTerms ;; WordB)%re.

Definition normalizeForPromptDetection `{Imports} (input : jsstring)
  : jsstring :=
  replaceCR (stripAnsi input).

Definition normalizePromptSignature `{Imports} (input : jsstring) : jsstring :=
  trim (collapseWhiteSpace (toLowerCase input)).

(** ** The prompt classifier *)

(** /press\s+(enter|return)\s+to\s+continue\b/i *)
Definition pressEnterPattern : regex :=
  (L "press" ;; plus space ;; (L "enter" |: L "return") ;; plus space ;;
   L "to" ;; plus space ;; L "continue" ;; WordB)%re.

(** (proceed|continue|approve|confirm|are you sure|allow|execute) *)
Definition confirmVerb : regex :=
  (L "proceed" |: L "continue" |: L "approve" |: L "confirm"
   |: L "are you sure" |: L "allow" |: L "execute")%re.

(** /(proceed|...|execute)[^.\n]{0,120}(\(.*y\/n.*\)|\[.*y\/n.*\])/i *)
Definition confirmIndicatorPattern : regex :=
  (confirmVerb ;; Rep notDotNl 0 (Some 120) ;;
   ((L "(" ;; star dot ;; L "y/n" ;; star dot ;; L ")")
    |: (L "[" ;; star dot ;; L "y/n" ;; star dot ;; L "]")))%re.

(** /(proceed|...|execute)\s*[?:]?\s*$/i *)
Definition confirmTrailingPattern : regex :=
  (confirmVerb ;; star space ;; Opt (Cls questionOrColon) ;; star space ;;
   Eos)%re.

(** /(enter choice|select( an?)? option|choose( an?)? option
      |choice\s*[:>])\s*$/i *)
Definition choicePattern : regex :=
  ((L "enter choice"
    |: (L "select" ;; Opt (L " a" ;; Opt (L "n")) ;; L " option")
    |: (L "choose" ;; Opt (L " a" ;; Opt (L "n")) ;; L " option")
    |: (L "choice" ;; star space ;; Cls colonOrGreater)) ;;
   star space ;; Eos)%re.

Definition nonEmpty (line : jsstring) : bool :=
  match line with [] => false | _ :: _ => true end.

(** The last four non-empty trimmed lines of the normalized tail. *)
Definition recentLines `{Imports} (rawTail : jsstring) : list jsstring :=
  let normalized := normalizeForPromptDetection rawTail in
  let lines := filter nonEmpty (map trim (split 10 normalized)) in
  sliceLast 4 lines.

(** [recent[recent.length - 1] ?? tail] *)
Definition lastLineOr (recent : list jsstring) (tail : jsstring) : jsstring :=
  match rev recent with
  | line :: _ => line
  | [] => tail
  end.

(** The detection window: the recent lines joined with spaces. *)
Definition detectionWindow `{Imports} (rawTail : jsstring) : jsstring :=
  join (lit " ") (recentLines rawTail).

Definition detectInteractivePrompt `{Imports} (rawTail : jsstring)
  : option PromptMatch.t :=
  let recent := recentLines rawTail in
  match recent with
  | [] => None
  | _ :: _ =>
      let tail := join (lit " ") recent in
      if test pressEnterPattern tail then
        Some {| PromptMatch.kind := PressEnter;
                PromptMatch.text := lastLineOr recent tail;
                PromptMatch.safeAutoResponse := Some [] |}
      else if test confirmIndicatorPattern tail
              || test confirmTrailingPattern tail then
        Some {| PromptMatch.kind := Confirm;
                PromptMatch.text := lastLineOr recent tail;
                PromptMatch.safeAutoResponse := None |}
      else if test choicePattern tail then
        Some {| PromptMatch.kind := Choice;
                PromptMatch.text := lastLineOr recent tail;
                PromptMatch.safeAutoResponse := None |}
      else None
  end.

(** ** The auto-answer policy *)

(** [prompt.safeAutoResponse ?? ""] *)
Definition safeResponseOrEmpty (prompt : PromptMatch.t) : jsstring :=
  match PromptMatch.safeAutoResponse prompt with
  | Some r => r
  | None => []
  end.

Definition resolveAutoResponse (mode : CodexRunAutoAnswerMode)
    (prompt : PromptMatch.t) : option jsstring :=
  match mode with
  | Off => None
  | Safe =>
      match PromptMatch.kind prompt with
      | PressEnter => Some (safeResponseOrEmpty prompt)
      | _ => None
      end
  | Balanced =>
      match PromptMatch.kind prompt with
      | PressEnter => Some (safeResponseOrEmpty prompt)
      | Confirm =>
          if test HIGH_RISK_CONFIRM_PATTERN (PromptMatch.text prompt)
          then None else Some (lit "y")
      | Choice => None
      end
  | Yolo =>
      match PromptMatch.kind prompt with
      | PressEnter => Some (safeResponseOrEmpty prompt)
      | Confirm => Some (lit "y")
      | Choice => Some (lit "1")
      end
  end.

Definition ensureTrailingNewline (input : jsstring) : jsstring :=
  if endsWithNewline input then input else input ++ [10%N].

(** ** The session bridge *)

(** A value that is thrown or that a promise is rejected with: an [Error]
    object, or any other value, of which the bridge uses only [String(err)]. *)
Inductive JsValue : Type :=
| ErrorObject (message : jsstring)
| OtherValue (stringified : jsstring).

(** [err instanceof Error ? err : new Error(String(err))] *)
Definition asError (err : JsValue) : JsValue :=
  match err with
  | ErrorObject message => ErrorObject message
  | OtherValue stringified => ErrorObject stringified
  end.

(** Modelled from the spec: the exit descriptor [RunExit] of
    process/supervisor/types, which is not part of the sources: a reason
    (exit, timeout, signal, cancelled, ...) and an exit code when there is
    one. *)
Record RunExit : Type := {
  reason : jsstring;
  exitCode : option Z
}.

(** The fields of [PtyCodexRunInput]; of the optional callbacks only their
    presence is configuration, what they do is part of the environment. *)
Record PtyCodexRunInput : Type := {
  command : jsstring;
  cwd : jsstring;
  timeoutMs : Z;
  autoAnswer : CodexRunAutoAnswerMode;
  logFilePath : jsstring;
  onOutput : bool;                (* onOutput?: is an observer given *)
  promptResponder : bool          (* promptResponder?: is a responder given *)
}.

Module PtyCodexRunResult.
Record t : Type := {
  runId : jsstring;
  pid : option Z;
  exit : RunExit;
  promptEvents : list PromptEvent.t;
  transcript : jsstring;
  pollSamples : N;
  logFilePath : jsstring
}.
End PtyCodexRunResult.

(** How the promise returned by [runPtyCodexSession] settles. *)
Inductive Outcome : Type :=
| Returned (result : PtyCodexRunResult.t)
| Threw (err : JsValue).

(** The run handle returned by [supervisor.spawn]. *)
Record ManagedRun : Type := {
  managedRunId : jsstring;
  managedPid : option Z;
  managedStdin : bool             (* managedRun.stdin may be undefined *)
}.

(** Where the body of [runPtyCodexSession] stands.  [Settled] is the point
    where the outcome is decided: the [finally] block has run and has called
    [stream.end], or [mkdir] or [spawn] was rejected before the [try]
    statement. *)
Inductive Control : Type :=
| AwaitSpawn                          (* await mkdir, await supervisor.spawn *)
| AwaitExit (run : ManagedRun)                     (* await managedRun.wait() *)
| AwaitPromptHandling (run : ManagedRun) (exit : RunExit) (task : nat)
                                                   (* await promptHandling *)
| Settled (outcome : Outcome).

(** A prompt-handling task is the promise chain
    [(async () => ...)().catch(...).finally(...)] built by
    [maybeHandlePrompt]. *)
Inductive TaskState : Type :=
| AwaitingResponder (prompt : PromptMatch.t)
    (* the body is suspended at [await input.promptResponder(prompt)] *)
| Rejected (err : JsValue)
    (* the body has thrown; the [.catch] handler has not run yet *)
| Completing.
    (* the body has returned or the [.catch] handler has run; the
       [.finally] handler has not run yet *)

(** What the session does to its collaborators and to its event list, in
    the order in which it does it. *)
Inductive Effect : Type :=
| StreamWrite (chunk : jsstring)            (* stream.write(chunk) *)
| OnOutput (chunk : jsstring)               (* input.onOutput(chunk) *)
| StdinWrite (data : jsstring)              (* runStdin.write(data) *)
| ResponderCall (prompt : PromptMatch.t)    (* input.promptResponder(prompt) *)
| EventPush (event : PromptEvent.t)         (* promptEvents.push(event) *)
| CancelRun                                 (* managedRun.cancel("manual-cancel") *)
| GetRecord                                 (* supervisor.getRecord(runId) *)
| StreamEnd.                                (* stream.end(...) *)

(** The variables of the closure of [runPtyCodexSession], the pending
    prompt-handling tasks, and the trace of effects.  [promptHandling] holds
    the promise of a task, named by the number of the task. *)
Record Session : Type := {
  transcript : jsstring;
  detectTail : jsstring;
  pollSamples : N;
  suppressedOutput : jsstring;
  suppressUserOutput : bool;
  promptHandling : option nat;
  promptError : option JsValue;
  cancelRun : bool;               (* cancelRun is not null *)
  runStdin : bool;                (* runStdin is not undefined *)
  lastPromptSignature : jsstring;
  lastPromptAtMs : Z;
  promptEvents : list PromptEvent.t;
  tasks : list (nat * TaskState);
  nextTask : nat;
  trace : list Effect;
  control : Control
}.

Definition set_transcript v (s : Session) : Session :=
  {| transcript := v; detectTail := detectTail s; pollSamples :=
     pollSamples s; suppressedOutput := suppressedOutput s;
     suppressUserOutput := suppressUserOutput s; promptHandling :=
     promptHandling s; promptError := promptError s; cancelRun :=
     cancelRun s; runStdin := runStdin s; lastPromptSignature :=
     lastPromptSignature s; lastPromptAtMs := lastPromptAtMs s;
     promptEvents := promptEvents s; tasks := tasks s; nextTask :=
     nextTask s; trace := trace s; control := control s |}.

Definition set_detectTail v (s : Session) : Session :=
  {| transcript := transcript s; detectTail := v; pollSamples :=
     pollSamples s; suppressedOutput := suppressedOutput s;
     suppressUserOutput := suppressUserOutput s; promptHandling :=
     promptHandling s; promptError := promptError s; cancelRun :=
     cancelRun s; runStdin := runStdin s; lastPromptSignature :=
     lastPromptSignature s; lastPromptAtMs := lastPromptAtMs s;
     promptEvents := promptEvents s; tasks := tasks s; nextTask :=
     nextTask s; trace := trace s; control := control s |}.

Definition set_pollSamples v (s : Session) : Session :=
  {| transcript := transcript s; detectTail := detectTail s; pollSamples
     := v; suppressedOutput := suppressedOutput s; suppressUserOutput :=
     suppressUserOutput s; promptHandling := promptHandling s; promptError
     := promptError s; cancelRun := cancelRun s; runStdin := runStdin s;
     lastPromptSignature := lastPromptSignature s; lastPromptAtMs :=
     lastPromptAtMs s; promptEvents := promptEvents s; tasks := tasks s;
     nextTask := nextTask s; trace := trace s; control := control s |}.

Definition set_suppressedOutput v (s : Session) : Session :=
  {| transcript := transcript s; detectTail := detectTail s; pollSamples
     := pollSamples s; suppressedOutput := v; suppressUserOutput :=
     suppressUserOutput s; promptHandling := promptHandling s; promptError
     := promptError s; cancelRun := cancelRun s; runStdin := runStdin s;
     lastPromptSignature := lastPromptSignature s; lastPromptAtMs :=
     lastPromptAtMs s; promptEvents := promptEvents s; tasks := tasks s;
     nextTask := nextTask s; trace := trace s; control := control s |}.

Definition set_suppressUserOutput v (s : Session) : Session :=
  {| transcript := transcript s; detectTail := detectTail s; pollSamples
     := pollSamples s; suppressedOutput := suppressedOutput s;
     suppressUserOutput := v; promptHandling := promptHandling s;
     promptError := promptError s; cancelRun := cancelRun s; runStdin :=
     runStdin s; lastPromptSignature := lastPromptSignature s;
     lastPromptAtMs := lastPromptAtMs s; promptEvents := promptEvents s;
     tasks := tasks s; nextTask := nextTask s; trace := trace s; control
     := control s |}.

Definition set_promptHandling v (s : Session) : Session :=
  {| transcript := transcript s; detectTail := detectTail s; pollSamples
     := pollSamples s; suppressedOutput := suppressedOutput s;
     suppressUserOutput := suppressUserOutput s; promptHandling := v;
     promptError := promptError s; cancelRun := cancelRun s; runStdin :=
     runStdin s; lastPromptSignature := lastPromptSignature s;
     lastPromptAtMs := lastPromptAtMs s; promptEvents := promptEvents s;
     tasks := tasks s; nextTask := nextTask s; trace := trace s; control
     := control s |}.

Definition set_promptError v (s : Session) : Session :=
  {| transcript := transcript s; detectTail := detectTail s; pollSamples
     := pollSamples s; suppressedOutput := suppressedOutput s;
     suppressUserOutput := suppressUserOutput s; promptHandling :=
     promptHandling s; promptError := v; cancelRun := cancelRun s;
     runStdin := runStdin s; lastPromptSignature := lastPromptSignature s;
     lastPromptAtMs := lastPromptAtMs s; promptEvents := promptEvents s;
     tasks := tasks s; nextTask := nextTask s; trace := trace s; control
     := control s |}.

Definition set_cancelRun v (s : Session) : Session :=
  {| transcript := transcript s; detectTail := detectTail s; pollSamples
     := pollSamples s; suppressedOutput := suppressedOutput s;
     suppressUserOutput := suppressUserOutput s; promptHandling :=
     promptHandling s; promptError := promptError s; cancelRun := v;
     runStdin := runStdin s; lastPromptSignature := lastPromptSignature s;
     lastPromptAtMs := lastPromptAtMs s; promptEvents := promptEvents s;
     tasks := tasks s; nextTask := nextTask s; trace := trace s; control
     := control s |}.

Definition set_runStdin v (s : Session) : Session :=
  {| transcript := transcript s; detectTail := detectTail s; pollSamples
     := pollSamples s; suppressedOutput := suppressedOutput s;
     suppressUserOutput := suppressUserOutput s; promptHandling :=
     promptHandling s; promptError := promptError s; cancelRun :=
     cancelRun s; runStdin := v; lastPromptSignature :=
     lastPromptSignature s; lastPromptAtMs := lastPromptAtMs s;
     promptEvents := promptEvents s; tasks := tasks s; nextTask :=
     nextTask s; trace := trace s; control := control s |}.

Definition set_lastPromptSignature v (s : Session) : Session :=
  {| transcript := transcript s; detectTail := detectTail s; pollSamples
     := pollSamples s; suppressedOutput := suppressedOutput s;
     suppressUserOutput := suppressUserOutput s; promptHandling :=
     promptHandling s; promptError := promptError s; cancelRun :=
     cancelRun s; runStdin := runStdin s; lastPromptSignature := v;
     lastPromptAtMs := lastPromptAtMs s; promptEvents := promptEvents s;
     tasks := tasks s; nextTask := nextTask s; trace := trace s; control
     := control s |}.

Definition set_lastPromptAtMs v (s : Session) : Session :=
  {| transcript := transcript s; detectTail := detectTail s; pollSamples
     := pollSamples s; suppressedOutput := suppressedOutput s;
     suppressUserOutput := suppressUserOutput s; promptHandling :=
     promptHandling s; promptError := promptError s; cancelRun :=
     cancelRun s; runStdin := runStdin s; lastPromptSignature :=
     lastPromptSignature s; lastPromptAtMs := v; promptEvents :=
     promptEvents s; tasks := tasks s; nextTask := nextTask s; trace :=
     trace s; control := control s |}.

Definition set_promptEvents v (s : Session) : Session :=
  {| transcript := transcript s; detectTail := detectTail s; pollSamples
     := pollSamples s; suppressedOutput := suppressedOutput s;
     suppressUserOutput := suppressUserOutput s; promptHandling :=
     promptHandling s; promptError := promptError s; cancelRun :=
     cancelRun s; runStdin := runStdin s; lastPromptSignature :=
     lastPromptSignature s; lastPromptAtMs := lastPromptAtMs s;
     promptEvents := v; tasks := tasks s; nextTask := nextTask s; trace :=
     trace s; control := control s |}.

Definition set_tasks v (s : Session) : Session :=
  {| transcript := transcript s; detectTail := detectTail s; pollSamples
     := pollSamples s; suppressedOutput := suppressedOutput s;
     suppressUserOutput := suppressUserOutput s; promptHandling :=
     promptHandling s; promptError := promptError s; cancelRun :=
     cancelRun s; runStdin := runStdin s; lastPromptSignature :=
     lastPromptSignature s; lastPromptAtMs := lastPromptAtMs s;
     promptEvents := promptEvents s; tasks := v; nextTask := nextTask s;
     trace := trace s; control := control s |}.

Definition set_nextTask v (s : Session) : Session :=
  {| transcript := transcript s; detectTail := detectTail s; pollSamples
     := pollSamples s; suppressedOutput := suppressedOutput s;
     suppressUserOutput := suppressUserOutput s; promptHandling :=
     promptHandling s; promptError := promptError s; cancelRun :=
     cancelRun s; runStdin := runStdin s; lastPromptSignature :=
     lastPromptSignature s; lastPromptAtMs := lastPromptAtMs s;
     promptEvents := promptEvents s; tasks := tasks s; nextTask := v;
     trace := trace s; control := control s |}.

Definition set_trace v (s : Session) : Session :=
  {| transcript := transcript s; detectTail := detectTail s; pollSamples
     := pollSamples s; suppressedOutput := suppressedOutput s;
     suppressUserOutput := suppressUserOutput s; promptHandling :=
     promptHandling s; promptError := promptError s; cancelRun :=
     cancelRun s; runStdin := runStdin s; lastPromptSignature :=
     lastPromptSignature s; lastPromptAtMs := lastPromptAtMs s;
     promptEvents := promptEvents s; tasks := tasks s; nextTask :=
     nextTask s; trace := v; control := control s |}.

Definition set_control v (s : Session) : Session :=
  {| transcript := transcript s; detectTail := detectTail s; pollSamples
     := pollSamples s; suppressedOutput := suppressedOutput s;
     suppressUserOutput := suppressUserOutput s; promptHandling :=
     promptHandling s; promptError := promptError s; cancelRun :=
     cancelRun s; runStdin := runStdin s; lastPromptSignature :=
     lastPromptSignature s; lastPromptAtMs := lastPromptAtMs s;
     promptEvents := promptEvents s; tasks := tasks s; nextTask :=
     nextTask s; trace := trace s; control := v |}.

Definition emit (e : Effect) (s : Session) : Session :=
  set_trace (trace s ++ [e]) s.

Definition initialSession : Session :=
  {| transcript := []; detectTail := []; pollSamples := 0;
     suppressedOutput := []; suppressUserOutput := false;
     promptHandling := None; promptError := None; cancelRun := false;
     runStdin := false; lastPromptSignature := []; lastPromptAtMs := 0;
     promptEvents := []; tasks := []; nextTask := 0; trace := [];
     control := AwaitSpawn |}.

(** [input.onOutput?.(chunk)] *)
Definition callOnOutput (input : PtyCodexRunInput) (chunk : jsstring)
    (s : Session) : Session :=
  if onOutput input then emit (OnOutput chunk) s else s.

(** [runStdin?.write(data)] *)
Definition writeStdin (data : jsstring) (s : Session) : Session :=
  if runStdin s then emit (StdinWrite data) s else s.

(** [cancelRun?.()] *)
Definition callCancelRun (s : Session) : Session :=
  if cancelRun s then emit CancelRun s else s.

(** [promptEvents.push(event)] *)
Definition pushPromptEvent (event : PromptEvent.t) (s : Session) : Session :=
  emit (EventPush event) (set_promptEvents (promptEvents s ++ [event]) s).

Definition flushSuppressedOutput (input : PtyCodexRunInput) (s : Session)
  : Session :=
  match suppressedOutput s with
  | [] => s
  | _ :: _ =>
      set_suppressedOutput [] (callOnOutput input (suppressedOutput s) s)
  end.

Fixpoint taskState (id : nat) (ts : list (nat * TaskState))
  : option TaskState :=
  match ts with
  | [] => None
  | (i, st) :: ts' => if Nat.eqb i id then Some st else taskState id ts'
  end.

Definition setTask (id : nat) (st : TaskState) (ts : list (nat * TaskState))
  : list (nat * TaskState) :=
  map (fun t => if Nat.eqb (fst t) id then (id, st) else t) ts.

Definition removeTask (id : nat) (ts : list (nat * TaskState))
  : list (nat * TaskState) :=
  filter (fun t => negb (Nat.eqb (fst t) id)) ts.

(** The message of the error thrown when a prompt is deferred and there is no
    responder. *)
Definition noResponderError (prompt : PromptMatch.t) : JsValue :=
  ErrorObject
    (lit "Codex requested interactive input (" ++ [34%N]
     ++ PromptMatch.text prompt ++ [34%N]
     ++ lit ") but no prompt responder is available.").

Definition promptEventOf (prompt : PromptMatch.t) (source : PromptSource)
    (response : jsstring) (atMs : Z) : PromptEvent.t :=
  {| PromptEvent.kind := PromptMatch.kind prompt;
     PromptEvent.text := PromptMatch.text prompt;
     PromptEvent.source := source;
     PromptEvent.response := response;
     PromptEvent.atMs := atMs |}.

(** The body of the async function of [maybeHandlePrompt], up to its first
    [await] or to its end: the state the task is left in, and the session. *)
Definition promptBody (input : PtyCodexRunInput) (prompt : PromptMatch.t)
    (atMs : Z) (s : Session) : TaskState * Session :=
  match resolveAutoResponse (autoAnswer input) prompt with
  | Some response =>
      let s := writeStdin (ensureTrailingNewline response) s in
      let s := set_detectTail [] s in
      let s := pushPromptEvent (promptEventOf prompt Auto response atMs) s in
      (Completing, s)
  | None =>
      if negb (promptResponder input) then (Rejected (noResponderError prompt), s)
      else
        let s := set_suppressUserOutput true s in
        let s := emit (ResponderCall prompt) s in
        (AwaitingResponder prompt, s)
  end.

(** [promptHandling = (async () => { ... })().catch(...).finally(...)] *)
Definition startPromptHandling (input : PtyCodexRunInput)
    (prompt : PromptMatch.t) (atMs : Z) (s : Session) : Session :=
  let id := nextTask s in
  let r := promptBody input prompt atMs s in
  let s := snd r in
  let s := set_tasks (tasks s ++ [(id, fst r)]) s in
  let s := set_nextTask (S id) s in
  set_promptHandling (Some id) s.

Definition promptSignature `{Imports} (prompt : PromptMatch.t) : jsstring :=
  kindString (PromptMatch.kind prompt) ++ lit ":"
  ++ normalizePromptSignature (PromptMatch.text prompt).

Definition isSome {A} (o : option A) : bool :=
  match o with Some _ => true | None => false end.

(** [now] is the value of [Date.now()] in [maybeHandlePrompt], [atMs] its
    value when the event of an automatic answer is pushed. *)
Definition maybeHandlePrompt `{Imports} (input : PtyCodexRunInput)
    (now atMs : Z) (s : Session) : Session :=
  if isSome (promptHandling s) || isSome (promptError s) || negb (runStdin s)
  then s
  else
    match detectInteractivePrompt (detectTail s) with
    | None => s
    | Some prompt =>
        let signature := promptSignature prompt in
        if Js.eqb signature (lastPromptSignature s)
           && (now - lastPromptAtMs s <? 2000)%Z
        then s
        else
          let s := set_lastPromptSignature signature s in
          let s := set_lastPromptAtMs now s in
          startPromptHandling input prompt atMs s
    end.

Definition onChunk `{Imports} (input : PtyCodexRunInput)
    (rawChunk : jsstring) (now atMs : Z) (s : Session) : Session :=
  let chunk := sanitizeBinaryOutput rawChunk in
  match chunk with
  | [] => s
  | _ :: _ =>
      let s := emit (StreamWrite chunk) s in
      let s := set_transcript
                 (sliceLast MAX_TRANSCRIPT_CHARS (transcript s ++ chunk)) s in
      let s := set_detectTail
                 (sliceLast MAX_DETECTION_TAIL
                    (detectTail s ++ normalizeForPromptDetection chunk)) s in
      let s := if suppressUserOutput s
               then set_suppressedOutput (suppressedOutput s ++ chunk) s
               else callOnOutput input chunk s in
      maybeHandlePrompt input now atMs s
  end.

(** The [finally] block around the call of the responder. *)
Definition endSuppression (input : PtyCodexRunInput) (s : Session) : Session :=
  flushSuppressedOutput input (set_suppressUserOutput false s).

(** The body of the task after [await input.promptResponder(prompt)] has
    produced [response]. *)
Definition responderResolved (input : PtyCodexRunInput) (id : nat)
    (response : jsstring) (atMs : Z) (s : Session) : Session :=
  match taskState id (tasks s) with
  | Some (AwaitingResponder prompt) =>
      let s := writeStdin (ensureTrailingNewline response) s in
      let s := set_detectTail [] s in
      let s := pushPromptEvent (promptEventOf prompt Manual response atMs) s in
      let s := endSuppression input s in
      set_tasks (setTask id Completing (tasks s)) s
  | _ => s
  end.

(** The body of the task after the responder has thrown or its promise has
    been rejected with [err]. *)
Definition responderRejected (input : PtyCodexRunInput) (id : nat)
    (err : JsValue) (s : Session) : Session :=
  match taskState id (tasks s) with
  | Some (AwaitingResponder _) =>
      let s := endSuppression input s in
      set_tasks (setTask id (Rejected err) (tasks s)) s
  | _ => s
  end.

(** The end of [runPtyCodexSession]: the fatal prompt error if there is one,
    the result otherwise; the [finally] block ends the log stream.  The
    promise of the session settles when the callback of [stream.end] runs;
    the model has no event for that callback and takes it to run with the
    call, so that [Settled] stands for: the outcome is decided and
    [stream.end] has been called.  What the source does between the call and
    the callback is what the model does after [Settled]. *)
Definition finish (input : PtyCodexRunInput) (run : ManagedRun)
    (exit : RunExit) (s : Session) : Session :=
  let outcome :=
    match promptError s with
    | Some err => Threw err
    | None =>
        Returned
          {| PtyCodexRunResult.runId := managedRunId run;
             PtyCodexRunResult.pid := managedPid run;
             PtyCodexRunResult.exit := exit;
             PtyCodexRunResult.promptEvents := promptEvents s;
             PtyCodexRunResult.transcript := transcript s;
             PtyCodexRunResult.pollSamples := pollSamples s;
             PtyCodexRunResult.logFilePath := logFilePath input |}
    end in
  set_control (Settled outcome) (emit StreamEnd s).

(** The next promise reaction of task [id]: its [.catch] handler when the
    body was rejected, its [.finally] handler otherwise, after which the
    promise is fulfilled and [await promptHandling] resumes. *)
Definition reaction (input : PtyCodexRunInput) (id : nat) (s : Session)
  : Session :=
  match taskState id (tasks s) with
  | Some (Rejected err) =>
      let s := set_promptError (Some (asError err)) s in
      let s := callCancelRun s in
      set_tasks (setTask id Completing (tasks s)) s
  | Some Completing =>
      let s := set_promptHandling None s in
      let s := set_tasks (removeTask id (tasks s)) s in
      match control s with
      | AwaitPromptHandling run exit awaited =>
          if Nat.eqb awaited id then finish input run exit s else s
      | _ => s
      end
  | _ => s
  end.

(** [managedRun = await supervisor.spawn(...)] and what follows it. *)
Definition spawnResolved (run : ManagedRun) (s : Session) : Session :=
  match control s with
  | AwaitSpawn =>
      let s := set_runStdin (managedStdin run) s in
      let s := set_cancelRun true s in
      set_control (AwaitExit run) s
  | _ => s
  end.

(** [exit = await managedRun.wait()] and what follows it. *)
Definition waitResolved (input : PtyCodexRunInput) (exit : RunExit)
    (s : Session) : Session :=
  match control s with
  | AwaitExit run =>
      match promptHandling s with
      | Some id => set_control (AwaitPromptHandling run exit id) s
      | None => finish input run exit s
      end
  | _ => s
  end.

(** [await mkdir(...)] or [await supervisor.spawn(...)] is rejected with
    [err].  Both stand before the [try] statement: the promise of the
    session is rejected with [err], nothing is cancelled ([cancelRun] is
    still null) and the log stream, if it has been created, is not ended.
    The two awaits are one state of the model, [AwaitSpawn]. *)
Definition startRejected (err : JsValue) (s : Session) : Session :=
  match control s with
  | AwaitSpawn => set_control (Settled (Threw err)) s
  | _ => s
  end.

(** The callback of [setInterval], which runs from the spawn to the
    [finally] block. *)
Definition pollTick (s : Session) : Session :=
  match control s with
  | AwaitExit _ | AwaitPromptHandling _ _ _ =>
      set_pollSamples (pollSamples s + 1)%N (emit GetRecord s)
  | _ => s
  end.

(** What happens to a session from outside: the supervisor delivers
    output or resolves [spawn] or [wait], the responder settles its promise,
    the job queue runs the next reaction of a task, the poll timer fires.
    A responder that throws synchronously is [ResponderRejected] before any
    other event.  [mkdir] and [spawn] may be rejected instead of resolved;
    [wait] is taken to resolve, as the contract of the supervisor says
    (wait(): eventually resolves to exit descriptor). *)
Inductive Event : Type :=
| Output (rawChunk : jsstring) (now atMs : Z)
    (* the supervisor calls onStdout or onStderr *)
| SpawnResolved (run : ManagedRun)
| ResponderResolved (id : nat) (response : jsstring) (atMs : Z)
| ResponderRejected (id : nat) (err : JsValue)
| Reaction (id : nat)
| WaitResolved (exit : RunExit)
| Poll
| MkdirRejected (err : JsValue)     (* await mkdir(...) is rejected *)
| SpawnRejected (err : JsValue).    (* await supervisor.spawn(...) is rejected *)

Definition step `{Imports} (input : PtyCodexRunInput) (e : Event)
    (s : Session) : Session :=
  match e with
  | Output rawChunk now atMs => onChunk input rawChunk now atMs s
  | SpawnResolved run => spawnResolved run s
  | ResponderResolved id response atMs =>
      responderResolved input id response atMs s
  | ResponderRejected id err => responderRejected input id err s
  | Reaction id => reaction input id s
  | WaitResolved exit => waitResolved input exit s
  | Poll => pollTick s
  | MkdirRejected err | SpawnRejected err => startRejected err s
  end.

Definition run `{Imports} (input : PtyCodexRunInput) (events : list Event)
    (s : Session) : Session :=
  fold_left (fun s e => step input e s) events s.

(** The session under a sequence of events: how its promise settles, once
    that is decided (see [finish] and [startRejected]). *)
Definition runPtyCodexSession `{Imports} (input : PtyCodexRunInput)
    (events : list Event) : option Outcome :=
  match control (run input events initialSession) with
  | Settled outcome => Some outcome
  | _ => None
  end.

(** ** The vocabulary of the properties *)

(** *** Words of the lexicon *)

(** A term that stands in [text] as a whole word, in any letter case. *)
Definition containsWholeWord (term text : jsstring) : Prop :=
  exists pre m post,
    text = pre ++ m ++ post /\ eqIgnoreCase m term
    /\ wordAt (lastChar pre) = false /\ wordAt (hd_error post) = false.

(** The terms named by the claim about the breadth of the lexicon. *)
Definition broaderTerms : list string :=
  ["rm"; "erase"; "reset"; "revert"; "overwrite"; "prod"; "db"; "schema";
   "migration"; "key"]%string.

(** The single words of the lexicon as section 4.2 of the specification
    lists it. *)
Definition specLexicon : list string :=
  ["delete"; "drop"; "destroy"; "wipe"; "truncate"; "force"; "production";
   "database"; "credential"; "secret"; "token"; "sudo"; "root"]%string.

(** *** Cues of the classifier *)

(** A non-empty run of white space. *)
Definition spaces (ws : jsstring) : Prop :=
  Forall (fun a => space a = true) ws /\ 1 <= length ws.

(** A possibly empty run of white space. *)
Definition optSpaces (ws : jsstring) : Prop :=
  Forall (fun a => space a = true) ws.

(** The phrase "press enter to continue" or "press return to continue" in
    any letter case: its words separated by white space, the last one not
    continued by a word character. *)
Definition containsPressEnterPhrase (window : jsstring) : Prop :=
  exists pre press ws1 key ws2 to ws3 cont post,
    window = pre ++ press ++ ws1 ++ key ++ ws2 ++ to ++ ws3 ++ cont ++ post
    /\ eqIgnoreCase press (lit "press") /\ spaces ws1
    /\ (eqIgnoreCase key (lit "enter") \/ eqIgnoreCase key (lit "return"))
    /\ spaces ws2 /\ eqIgnoreCase to (lit "to") /\ spaces ws3
    /\ eqIgnoreCase cont (lit "continue")
    /\ wordAt (hd_error post) = false.

(** The phrase of the claim as it is worded: the text press enter to
    continue or press return to continue, in any letter case, somewhere in
    the window. *)
Definition claimedPressEnterPhrase (window : jsstring) : Prop :=
  exists pre phrase post,
    window = pre ++ phrase ++ post
    /\ (eqIgnoreCase phrase (lit "press enter to continue")
        \/ eqIgnoreCase phrase (lit "press return to continue")).

(** [toLowerCase] on ASCII letters. *)
Definition asciiLowerCase (s : jsstring) : jsstring :=
  map (fun c => if ((65 <=? c) && (c <=? 90))%N then (c + 32)%N else c) s.

(** An environment for examples: plain ASCII text without escape sequences
    or control characters, which [stripAnsi] and [sanitizeBinaryOutput]
    leave as it is. *)
Definition plainImports : Imports :=
  {| stripAnsi := fun s => s;
     sanitizeBinaryOutput := fun s => s;
     toLowerCase := asciiLowerCase |}.

(** The verbs of the two confirm patterns. *)
Definition confirmVerbs : list string :=
  ["proceed"; "continue"; "approve"; "confirm"; "are you sure"; "allow";
   "execute"]%string.

(** One of the confirmation verbs, in any letter case. *)
Definition isConfirmVerb (v : jsstring) : Prop :=
  exists verb, In verb confirmVerbs /\ eqIgnoreCase v (lit verb).

(** ( and ), or [ and ]. *)
Definition bracketPair (o c : N) : Prop :=
  (o = 40%N /\ c = 41%N) \/ (o = 91%N /\ c = 93%N).

(** A confirmation verb, then at most 120 code units none of which is a
    full stop or a line feed, then a bracketed group that contains y/n in
    any letter case and no line terminator. *)
Definition confirmIndicatorCue (window : jsstring) : Prop :=
  exists pre v gap o a yn b c post,
    window = pre ++ v ++ gap ++ [o] ++ a ++ yn ++ b ++ [c] ++ post
    /\ isConfirmVerb v
    /\ Forall (fun x => notDotNl x = true) gap /\ length gap <= 120
    /\ bracketPair o c
    /\ Forall (fun x => dot x = true) a
    /\ eqIgnoreCase yn (lit "y/n")
    /\ Forall (fun x => dot x = true) b.

(** A confirmation verb, then white space, at most one question mark or
    colon and white space again, up to the end of the window. *)
Definition confirmTrailingCue (window : jsstring) : Prop :=
  exists pre v ws1 q ws2,
    window = pre ++ v ++ ws1 ++ q ++ ws2
    /\ isConfirmVerb v /\ optSpaces ws1
    /\ (q = [] \/ exists a, q = [a] /\ questionOrColon a = true)
    /\ optSpaces ws2.

(** The condition of the claim as it is worded: a confirmation verb
    followed by a bracketed yes/no indicator, or by a question mark or a
    colon that ends the window. *)
Definition claimedConfirmCue (window : jsstring) : Prop :=
  exists pre v rest,
    window = pre ++ v ++ rest /\ isConfirmVerb v
    /\ ((exists gap o a yn b c post,
           rest = gap ++ [o] ++ a ++ yn ++ b ++ [c] ++ post
           /\ bracketPair o c /\ eqIgnoreCase yn (lit "y/n"))
        \/ (exists gap q ws,
              rest = gap ++ [q] ++ ws /\ questionOrColon q = true
              /\ optSpaces ws)).

(** The classifier finds a prompt of kind [k] in the tail. *)
Definition returnsKind `{Imports} (rawTail : jsstring) (k : PromptKind)
  : Prop :=
  exists prompt,
    detectInteractivePrompt rawTail = Some prompt
    /\ PromptMatch.kind prompt = k.

(** *** States of a session *)

(** The session has not settled yet. *)
Definition unsettled (s : Session) : Prop :=
  match control s with Settled _ => False | _ => True end.

(** What holds of the closure variables and the pending tasks in every
    state of a session: the marker names the one task in flight, a task
    exists only once the input channel is there, output is suppressed
    exactly while a responder is awaited, the session awaits no task but
    the one in flight, and a recorded error means that cancellation was
    requested and that no task is still to fail. *)
Record Inv (s : Session) : Prop := {
  inv_marker :
    match promptHandling s with
    | Some id => exists st, tasks s = [(id, st)]
    | None => tasks s = []
    end;
  inv_stdin : tasks s <> [] -> runStdin s = true;
  inv_cancel : runStdin s = true -> cancelRun s = true;
  inv_spawn : control s = AwaitSpawn -> runStdin s = false;
  inv_suppress :
    suppressUserOutput s = true <->
    exists id p, tasks s = [(id, AwaitingResponder p)];
  inv_buffer : suppressUserOutput s = false -> suppressedOutput s = [];
  inv_await :
    forall r x id,
      control s = AwaitPromptHandling r x id -> promptHandling s = Some id;
  inv_error :
    forall e, promptError s = Some e ->
      In CancelRun (trace s)
      /\ forall id st, In (id, st) (tasks s) -> st = Completing
}.

(** What [onChunk] does with a non-empty sanitized chunk before it attempts
    prompt handling: log, transcript, detection tail, and the observer or
    the suppression buffer. *)
Definition absorbChunk `{Imports} (input : PtyCodexRunInput)
    (chunk : jsstring) (s : Session) : Session :=
  let s := emit (StreamWrite chunk) s in
  let s := set_transcript
             (sliceLast MAX_TRANSCRIPT_CHARS (transcript s ++ chunk)) s in
  let s := set_detectTail
             (sliceLast MAX_DETECTION_TAIL
                (detectTail s ++ normalizeForPromptDetection chunk)) s in
  if suppressUserOutput s
  then set_suppressedOutput (suppressedOutput s ++ chunk) s
  else callOnOutput input chunk s.

(** The detection is the one that triggered last, less than 2000 ms ago. *)
Definition duplicateDetection `{Imports} (prompt : PromptMatch.t) (now : Z)
    (s : Session) : Prop :=
  promptSignature prompt = lastPromptSignature s
  /\ (now - lastPromptAtMs s < 2000)%Z.

(** Nothing stands in the way of prompt handling. *)
Definition idle (s : Session) : Prop :=
  promptHandling s = None /\ promptError s = None /\ runStdin s = true.

Definition exampleInput (mode : CodexRunAutoAnswerMode) (responder : bool)
  : PtyCodexRunInput :=
  {| command := lit "codex"; cwd := lit "/repo"; timeoutMs := 10000;
     autoAnswer := mode; logFilePath := lit "run.log"; onOutput := true;
     promptResponder := responder |}.

Definition exampleRun : ManagedRun :=
  {| managedRunId := lit "run-1"; managedPid := Some 4242%Z;
     managedStdin := true |}.

Definition cleanExit : RunExit :=
  {| reason := lit "exit"; exitCode := Some 0%Z |}.

(** *** Output received *)

(** The non-empty sanitized chunks of a sequence of events, in the order of
    their arrival. *)
Definition outputChunks `{Imports} (events : list Event) : list jsstring :=
  flat_map (fun e =>
              match e with
              | Output rawChunk _ _ =>
                  match sanitizeBinaryOutput rawChunk with
                  | [] => []
                  | chunk => [chunk]
                  end
              | _ => []
              end) events.

(** All the output received, as one string. *)
Definition received `{Imports} (events : list Event) : jsstring :=
  concat (outputChunks events).

(** The output received, each chunk normalized for prompt detection. *)
Definition receivedNormalized `{Imports} (events : list Event) : jsstring :=
  concat (map normalizeForPromptDetection (outputChunks events)).

Definition isSuffixOf {A} (t whole : list A) : Prop :=
  exists before, whole = before ++ t.

(** *** Suppression *)

(** The chunks passed to the output observer, in order. *)
Definition observed (t : list Effect) : list jsstring :=
  flat_map (fun e => match e with OnOutput chunk => [chunk] | _ => [] end) t.

(** The event settles the call of the responder made by task [id]. *)
Definition resolves (id : nat) (e : Event) : bool :=
  match e with
  | ResponderResolved i _ _ => Nat.eqb i id
  | ResponderRejected i _ => Nat.eqb i id
  | _ => false
  end.

(** The call by which [flushSuppressedOutput] delivers a buffer. *)
Definition flushCall (input : PtyCodexRunInput) (buffered : jsstring)
  : list Effect :=
  match buffered with
  | [] => []
  | _ :: _ => if onOutput input then [OnOutput buffered] else []
  end.

(** Task [id] is suspended at the call of the responder. *)
Definition pendingManual (id : nat) (prompt : PromptMatch.t) (s : Session)
  : Prop :=
  tasks s = [(id, AwaitingResponder prompt)]
  /\ promptHandling s = Some id
  /\ suppressUserOutput s = true
  /\ runStdin s = true
  /\ control s <> AwaitSpawn.

(** *** Fatal prompt errors *)

(** The session can no longer return a result: it has thrown the error of
    the failed prompt after asking for cancellation, or it is still running
    with the prompt task rejected or the error recorded. *)
Definition doomed (e : JsValue) (s : Session) : Prop :=
  match control s with
  | Settled (Returned _) => False
  | Settled (Threw err) => err = asError e /\ In CancelRun (trace s)
  | AwaitSpawn => False
  | _ =>
      (exists id, tasks s = [(id, Rejected e)] /\ promptError s = None)
      \/ (promptError s = Some (asError e) /\ In CancelRun (trace s))
  end.

(** ** Further vocabulary: what a trace holds *)

(** The chunks written to the log stream, in order. *)
Definition streamWrites (t : list Effect) : list jsstring :=
  flat_map (fun e => match e with StreamWrite chunk => [chunk] | _ => [] end) t.

(** The data written to the input of the child, in order. *)
Definition stdinWrites (t : list Effect) : list jsstring :=
  flat_map (fun e => match e with StdinWrite data => [data] | _ => [] end) t.

(** The events pushed to [promptEvents], in order. *)
Definition pushedEvents (t : list Effect) : list PromptEvent.t :=
  flat_map (fun e => match e with EventPush event => [event] | _ => [] end) t.

(** The prompts the responder was called with, in order. *)
Definition responderCalls (t : list Effect) : list PromptMatch.t :=
  flat_map (fun e => match e with ResponderCall p => [p] | _ => [] end) t.

(** How often the supervisor was asked to cancel the run. *)
Definition cancelCount (t : list Effect) : nat :=
  length (filter (fun e => match e with CancelRun => true | _ => false end) t).

(** How often the log stream was ended. *)
Definition streamEndCount (t : list Effect) : nat :=
  length (filter (fun e => match e with StreamEnd => true | _ => false end) t).

(** A dispatched prompt that has no event: its responder is still awaited,
    or it has failed. *)
Definition unanswered (s : Session) : nat :=
  match promptError s with
  | Some _ => 1
  | None =>
      match tasks s with
      | [(_, AwaitingResponder _)] => 1
      | [(_, Rejected _)] => 1
      | _ => 0
      end
  end.
(** An automatic answer that the policy of [mode] permits: the kind of prompt
    it answers and the response it gives.  Manual answers are the
    responder's. *)
Definition permittedAnswer (mode : CodexRunAutoAnswerMode)
    (event : PromptEvent.t) : bool :=
  match PromptEvent.source event with
  | Manual => true
  | Auto =>
      match mode, PromptEvent.kind event with
      | Off, _ => false
      | _, PressEnter => Js.eqb (PromptEvent.response event) []
      | Balanced, Confirm =>
          Js.eqb (PromptEvent.response event) (lit "y")
          && negb (test HIGH_RISK_CONFIRM_PATTERN (PromptEvent.text event))
      | Yolo, Confirm => Js.eqb (PromptEvent.response event) (lit "y")
      | Yolo, Choice => Js.eqb (PromptEvent.response event) (lit "1")
      | _, _ => false
      end
  end.

Definition isManual (event : PromptEvent.t) : bool :=
  match PromptEvent.source event with Manual => true | Auto => false end.

Definition manualCount (events : list PromptEvent.t) : nat :=
  length (filter isManual events).

(** Every write to the input of the child is the response of a recorded
    prompt event, with its line feed. *)
Definition paired (s : Session) : Prop :=
  stdinWrites (trace s)
  = map (fun ev => ensureTrailingNewline (PromptEvent.response ev))
      (promptEvents s)
  /\ pushedEvents (trace s) = promptEvents s.

(** The run is cancelled when a prompt error is recorded, which happens at
    most once, and what is recorded is an [Error]. *)
Definition errorRecord (s : Session) : Prop :=
  cancelCount (trace s) = match promptError s with Some _ => 1 | None => 0 end
  /\ (forall e, promptError s = Some e -> exists m, e = ErrorObject m).

(** The calls of the responder against the manual answers recorded: one call
    per manual answer, and one more while a call is pending or after it has
    failed. *)
Definition responderLedger (s : Session) : Prop :=
  let calls := length (responderCalls (trace s)) in
  let manual := manualCount (promptEvents s) in
  match tasks s with
  | [(_, AwaitingResponder _)] => calls = S manual
  | _ => calls = manual \/ (calls = S manual /\ unanswered s = 1)
  end.

(** Where the parts of an outcome come from: the run that [spawn] resolved
    with and the exit that [wait] resolved with. *)
Definition resultOf (input : PtyCodexRunInput) (run : ManagedRun)
    (exit : RunExit) (o : Outcome) : Prop :=
  match o with
  | Returned r =>
      PtyCodexRunResult.runId r = managedRunId run
      /\ PtyCodexRunResult.pid r = managedPid run
      /\ PtyCodexRunResult.exit r = exit
      /\ PtyCodexRunResult.logFilePath r = logFilePath input
  | Threw _ => True
  end.

(** [mkdir] or [spawn] was rejected with [err]. *)
Definition rejectedAtStart (events : list Event) (err : JsValue) : Prop :=
  In (MkdirRejected err) events \/ In (SpawnRejected err) events.

(** [spawn] and [wait] have resolved with [run] and [exit], and the outcome
    was decided with them. *)
Definition finishedWith (input : PtyCodexRunInput) (events : list Event)
    (o : Outcome) : Prop :=
  exists run exit,
    In (SpawnResolved run) events /\ In (WaitResolved exit) events
    /\ resultOf input run exit o.

(** How a session has come to where it stands: [cancelRun] is assigned
    exactly when [spawn] has resolved, the log stream is ended only by the
    [finally] block, and a session has settled either through that block,
    with the recorded prompt error if it throws, or because [mkdir] or
    [spawn] was rejected, without any prompt handled. *)
Definition provenance (input : PtyCodexRunInput) (events : list Event)
    (s : Session) : Prop :=
  match control s with
  | AwaitSpawn =>
      cancelRun s = false /\ promptError s = None
      /\ streamEndCount (trace s) = 0
  | AwaitExit run =>
      cancelRun s = true /\ streamEndCount (trace s) = 0
      /\ In (SpawnResolved run) events
  | AwaitPromptHandling run exit _ =>
      cancelRun s = true /\ streamEndCount (trace s) = 0
      /\ In (SpawnResolved run) events /\ In (WaitResolved exit) events
  | Settled o =>
      (cancelRun s = true /\ streamEndCount (trace s) = 1
       /\ finishedWith input events o
       /\ forall err, o = Threw err -> promptError s = Some err)
      \/ (cancelRun s = false /\ streamEndCount (trace s) = 0
          /\ promptError s = None
          /\ exists err, o = Threw err /\ rejectedAtStart events err)
  end.

(** A session that handles no prompt. *)
Definition untouched (s : Session) : Prop :=
  promptEvents s = [] /\ tasks s = [] /\ promptError s = None
  /\ stdinWrites (trace s) = [] /\ responderCalls (trace s) = []
  /\ cancelCount (trace s) = 0.

(** ** Further vocabulary: the classifier and the policy *)

(** How much a mode answers by itself. *)
Definition modeRank (mode : CodexRunAutoAnswerMode) : nat :=
  match mode with Off => 0 | Safe => 1 | Balanced => 2 | Yolo => 3 end.

(** The phrases of the choice pattern that are plain text. *)
Definition choicePhrases : list string :=
  ["enter choice"; "select option"; "select a option"; "select an option";
   "choose option"; "choose a option"; "choose an option"]%string.

(** One of the choice phrases in any letter case, or the word choice, white
    space, and a colon or a greater-than sign. *)
Definition isChoicePhrase (phrase : jsstring) : Prop :=
  (exists p, In p choicePhrases /\ eqIgnoreCase phrase (lit p))
  \/ (exists w ws c,
        phrase = w ++ ws ++ [c] /\ eqIgnoreCase w (lit "choice")
        /\ optSpaces ws /\ colonOrGreater c = true).

(** A choice phrase, then white space up to the end of the window. *)
Definition choiceCue (window : jsstring) : Prop :=
  exists pre phrase ws,
    window = pre ++ phrase ++ ws /\ isChoicePhrase phrase /\ optSpaces ws.

(** White space in [s] is single spaces only: every white-space code unit
    is a space, and the code unit after it is not white space. *)
Fixpoint singleSpaced (s : jsstring) : bool :=
  match s with
  | [] => true
  | a :: s' =>
      (if isWhiteSpace a
       then (a =? 32)%N
            && match s' with b :: _ => negb (isWhiteSpace b) | [] => true end
       else true)
      && singleSpaced s'
  end.

(** How often the supervisor was asked for the record of the run. *)
Definition getRecordCount (t : list Effect) : nat :=
  length (filter (fun e => match e with GetRecord => true | _ => false end) t).

(** The poll counter counts the requests for the record, and a result that
    has been returned holds the counter. *)
Definition pollRecord (s : Session) : Prop :=
  pollSamples s = N.of_nat (getRecordCount (trace s))
  /\ forall r, control s = Settled (Returned r) ->
       PtyCodexRunResult.pollSamples r = pollSamples s.

(** A session that has involved nobody: the responder was not called, no
    error is recorded, nothing is held back, every answer is automatic and
    every task has finished its body. *)
Definition unattended (s : Session) : Prop :=
  responderCalls (trace s) = []
  /\ promptError s = None
  /\ cancelCount (trace s) = 0
  /\ Forall (fun event => PromptEvent.source event = Auto) (promptEvents s)
  /\ Forall (fun task => snd task = Completing) (tasks s).

(** * The command: src/commands/codex-run.ts

    The caller of the bridge: it builds the shell command of the session,
    chooses the branch and the verification commands, and reports the
    changes.  Its pure helpers are embedded as functions; what it asks the
    file system, git and the terminal is passed in as the answers it gets. *)

(** The value between single quotes, each single quote in it replaced by
    five code units: a single quote, a double quote, a single quote, a
    double quote and a single quote (39 is the single quote, 34 the double
    quote). *)
Definition shellQuoteSingleArg (value : jsstring) : jsstring :=
  [39%N]
  ++ flat_map (fun c => if (c =? 39)%N then [39; 34; 39; 34; 39]%N else [c])
       value
  ++ [39%N].

(** [argv.map((arg) => shellQuoteSingleArg(arg)).join(" ")] *)
Definition buildShellCommand (argv : list jsstring) : jsstring :=
  join (lit " ") (map shellQuoteSingleArg argv).

(** [s.split(/\s+/)]: the pieces between maximal runs of white space. *)
Fixpoint splitWhiteSpaceFrom (inRun : bool) (s : jsstring) : list jsstring :=
  match s with
  | [] => [[]]
  | a :: s' =>
      if isWhiteSpace a
      then (if inRun then splitWhiteSpaceFrom true s'
            else [] :: splitWhiteSpaceFrom true s')
      else match splitWhiteSpaceFrom false s' with
           | l :: ls => (a :: l) :: ls
           | [] => [[a]]
           end
  end.
Definition splitWhiteSpace (s : jsstring) : list jsstring :=
  splitWhiteSpaceFrom false s.

Definition extractPrimaryBin (command : jsstring) : option jsstring :=
  let trimmed := trim command in
  match trimmed with
  | [] => None
  | _ :: _ =>
      match splitWhiteSpace trimmed with
      | first :: _ =>
          match trim first with
          | [] => None
          | token => Some token
          end
      | [] => None
      end
  end.

(** [maxChars] is a non-negative integer; [trimmed.slice(-0)] is
    [trimmed.slice(0)], the whole string. *)
Definition trimOutputTail (value : jsstring) (maxChars : N) : jsstring :=
  match value with
  | [] => []
  | _ :: _ =>
      let trimmed := trim value in
      if (N.of_nat (length trimmed) <=? maxChars)%N then trimmed
      else if (maxChars =? 0)%N then trimmed
      else sliceLast maxChars trimmed
  end.

(** [s.startsWith(p)] *)
Fixpoint startsWith (p s : jsstring) : bool :=
  match p, s with
  | [], _ => true
  | a :: p', b :: s' => (a =? b)%N && startsWith p' s'
  | _ :: _, [] => false
  end.

(** [s.includes(p)] *)
Fixpoint includes (p s : jsstring) : bool :=
  startsWith p s
  || match s with
     | _ :: s' => includes p s'
     | [] => false
     end.

(** [s.split(sep)] for a separator that is not empty: [skip] counts the code
    units of a separator found that are still to be passed over. *)
Fixpoint splitOnFrom (sep : jsstring) (skip : nat) (s : jsstring)
  : list jsstring :=
  match s with
  | [] => [[]]
  | a :: s' =>
      match skip with
      | S k => splitOnFrom sep k s'
      | 0 =>
          if startsWith sep s
          then [] :: splitOnFrom sep (length sep - 1) s'
          else match splitOnFrom sep 0 s' with
               | l :: ls => (a :: l) :: ls
               | [] => [[a]]
               end
      end
  end.
Definition splitOn (sep s : jsstring) : list jsstring := splitOnFrom sep 0 s.

Record ChangedFile : Type := {
  file : jsstring;
  summary : jsstring
}.

(** [rawStatus.replace(/\s+/g, "")[0] ?? rawStatus[1] ?? ""] *)
Definition statusCode (rawStatus : jsstring) : jsstring :=
  match filter (fun c => negb (isWhiteSpace c)) rawStatus with
  | c :: _ => [c]
  | [] =>
      match nth_error rawStatus 1 with
      | Some c => [c]
      | None => []
      end
  end.

Definition statusSummary (code : jsstring) : jsstring :=
  if Js.eqb code (lit "M") then lit "modified"
  else if Js.eqb code (lit "A") then lit "added"
  else if Js.eqb code (lit "D") then lit "deleted"
  else if Js.eqb code (lit "R") then lit "renamed"
  else if Js.eqb code (lit "C") then lit "copied"
  else if Js.eqb code (lit "U") then lit "merge conflict"
  else lit "updated".

(** The body of the loop of [parseGitPorcelain] for one line. *)
Definition parsePorcelainLine (line : jsstring) : list ChangedFile :=
  if startsWith (lit "?? ") line
  then [{| file := trim (skipn 3 line);
           summary := lit "untracked file added" |}]
  else if length line <? 4 then []
  else
    let rawStatus := firstn 2 line in
    let payload := trim (skipn 3 line) in
    let file :=
      if includes (lit " -> ") payload
      then trim (last (splitOn (lit " -> ") payload) payload)
      else payload in
    [{| file := file; summary := statusSummary (statusCode rawStatus) |}].

Definition parseGitPorcelain (statusOutput : jsstring) : list ChangedFile :=
  let lines := filter nonEmpty (map trimEnd (split 10 statusOutput)) in
  flat_map parsePorcelainLine lines.

(** [a-z0-9] *)
Definition isSlugChar (c : N) : bool :=
  ((97 <=? c) && (c <=? 122) || (48 <=? c) && (c <=? 57))%N.

Definition isDash (c : N) : bool := (c =? 45)%N.

(** [s.replace(/[^a-z0-9]+/g, "-")]: every maximal run of other code units
    becomes one dash. *)
Fixpoint dashRunsFrom (inRun : bool) (s : jsstring) : jsstring :=
  match s with
  | [] => []
  | a :: s' =>
      if isSlugChar a then a :: dashRunsFrom false s'
      else if inRun then dashRunsFrom true s'
      else 45%N :: dashRunsFrom true s'
  end.

(** [s.replace(/^-+|-+$/g, "")] *)
Definition stripDashes (s : jsstring) : jsstring :=
  rev (dropWhile isDash (rev (dropWhile isDash s))).

(** [max] is a non-negative integer, 28 when the argument is left out. *)
Definition toSlug `{Imports} (input : jsstring) (max : nat) : jsstring :=
  let slug :=
    firstn max (stripDashes (dashRunsFrom false (toLowerCase input))) in
  match slug with
  | [] => lit "task"
  | _ :: _ => slug
  end.

Definition buildCommitMessage (task : jsstring) : jsstring :=
  let compact := trim (collapseWhiteSpace task) in
  let base :=
    match compact with
    | [] => lit "codex-run update"
    | _ :: _ => compact
    end in
  let clipped :=
    if 56 <? length base
    then trimEnd (firstn 56 base) ++ lit "..."
    else base in
  lit "chore(codex-run): " ++ clipped.

(** [String(n)] for a non-negative integer. *)
Definition decimal (n : nat) : jsstring :=
  lit (NilEmpty.string_of_uint (Nat.to_uint n)).

(** The candidate of round [i] of [ensureUniqueBranchName]. *)
Definition branchCandidate (baseName : jsstring) (i : nat) : jsstring :=
  match i with
  | 0 => baseName
  | S _ => baseName ++ lit "-" ++ decimal (i + 1)
  end.

(** The loop of [ensureUniqueBranchName] from round [i], with [rounds]
    rounds to go. *)
Fixpoint firstFreeBranch (localBranchExists : jsstring -> bool)
    (baseName : jsstring) (i rounds : nat) : option jsstring :=
  match rounds with
  | 0 => None
  | S rounds' =>
      let candidate := branchCandidate baseName i in
      if negb (localBranchExists candidate) then Some candidate
      else firstFreeBranch localBranchExists baseName (S i) rounds'
  end.

(** [localBranchExists] stands for the answers of git, which are taken not
    to change while the loop runs.  The result is the name returned or the
    error thrown. *)
Definition ensureUniqueBranchName (localBranchExists : jsstring -> bool)
    (baseName : jsstring) : jsstring + JsValue :=
  match firstFreeBranch localBranchExists baseName 0 200 with
  | Some candidate => inl candidate
  | None =>
      inr (ErrorObject
             (lit "Unable to allocate unique branch name from base: "
              ++ baseName))
  end.

(** What [inferVerificationCommands] finds in the repository: which files
    exist, and the [scripts.test] entry of package.json when the file can be
    read and parsed and the entry is a string. *)
Record RepoLayout : Type := {
  pathExists : string -> bool;
  testScript : option jsstring
}.

(** /^echo\s+Q?error:\s*no test specified/i, where Q is the class of the
    single quote and the double quote. *)
Definition noTestSpecifiedPattern : regex :=
  (L "echo" ;; plus space ;; Opt (Cls (fun c => (c =? 39) || (c =? 34))%N) ;;
   L "error:" ;; star space ;; L "no test specified")%re.

Definition inferVerificationCommands (repo : RepoLayout) : list jsstring :=
  let fromPackageJson :=
    if pathExists repo "package.json" then
      let rawTest :=
        match testScript repo with Some t => trim t | None => [] end in
      if nonEmpty rawTest && negb (matchesAt noTestSpecifiedPattern [] rawTest)
      then
        Some (if pathExists repo "pnpm-lock.yaml" then [lit "pnpm test"]
              else if pathExists repo "yarn.lock" then [lit "yarn test"]
              else if pathExists repo "bun.lock" || pathExists repo "bun.lockb"
                   then [lit "bun test"]
              else [lit "npm test"])
      else None
    else None in
  match fromPackageJson with
  | Some commands => commands
  | None =>
      if pathExists repo "pyproject.toml" || pathExists repo "pytest.ini"
      then [lit "pytest"]
      else if pathExists repo "go.mod" then [lit "go test ./..."]
      else if pathExists repo "Cargo.toml" then [lit "cargo test"]
      else if pathExists repo "Makefile" then [lit "make test"]
      else []
  end.

(** [interactive] is the value of [isInteractiveTerminal()], [entered] what
    the user types when asked.  The result is the list returned or the error
    thrown. *)
Definition resolveVerificationCommands (verifyCmds : list jsstring)
    (repo : RepoLayout) (interactive : bool) (entered : jsstring)
  : list jsstring + JsValue :=
  let explicit := filter nonEmpty (map trim verifyCmds) in
  match explicit with
  | _ :: _ => inl explicit
  | [] =>
      match inferVerificationCommands repo with
      | (_ :: _) as inferred => inl inferred
      | [] =>
          if negb interactive
          then inr (ErrorObject
                      (lit "No --verify-cmd provided and no verification command could be inferred."))
          else
            match trim entered with
            | [] =>
                inr (ErrorObject
                       (lit "Verification command is required. Pass --verify-cmd <command>."))
            | command => inl [command]
            end
      end
  end.

Definition withDefaultCodexArgs (codexArgs : list jsstring) : list jsstring :=
  if existsb (Js.eqb (lit "--no-alt-screen")) codexArgs then codexArgs
  else lit "--no-alt-screen" :: codexArgs.

(** ** Further vocabulary: the command *)

(** How sh reads a command line made of blanks and of words that are plain
    characters, single-quoted parts and double-quoted parts (XCU 2.2 and
    2.3): where the reader stands. *)
Inductive ShMode : Type := ShPlain | ShSingle | ShDouble.

(** Characters that stand for themselves outside quotes. *)
Definition isShPlainChar (c : N) : bool :=
  (isWordChar c || (c =? 45) || (c =? 46) || (c =? 47))%N.

(** Characters that keep a special meaning inside double quotes: the dollar
    sign, the backquote and the backslash. *)
Definition isShDoubleSpecial (c : N) : bool :=
  ((c =? 36) || (c =? 96) || (c =? 92))%N.

Definition shPush (c : N) (word : option jsstring) : option jsstring :=
  Some (c :: match word with Some w => w | None => [] end).

Definition shOpen (word : option jsstring) : option jsstring :=
  Some (match word with Some w => w | None => [] end).

(** The fields of a command line; [word] is the field being read, reversed,
    if one has begun.  [None] when the line holds anything but blanks, plain
    characters and complete quoted parts without expansions. *)
Fixpoint shFieldsFrom (mode : ShMode) (word : option jsstring) (s : jsstring)
  : option (list jsstring) :=
  match s with
  | [] =>
      match mode with
      | ShPlain =>
          Some (match word with Some w => [rev w] | None => [] end)
      | _ => None
      end
  | c :: s' =>
      match mode with
      | ShPlain =>
          if (c =? 39)%N then shFieldsFrom ShSingle (shOpen word) s'
          else if (c =? 34)%N then shFieldsFrom ShDouble (shOpen word) s'
          else if ((c =? 32) || (c =? 9))%N then
            match word with
            | Some w => option_map (cons (rev w)) (shFieldsFrom ShPlain None s')
            | None => shFieldsFrom ShPlain None s'
            end
          else if isShPlainChar c then shFieldsFrom ShPlain (shPush c word) s'
          else None
      | ShSingle =>
          if (c =? 39)%N then shFieldsFrom ShPlain word s'
          else shFieldsFrom ShSingle (shPush c word) s'
      | ShDouble =>
          if (c =? 34)%N then shFieldsFrom ShPlain word s'
          else if isShDoubleSpecial c then None
          else shFieldsFrom ShDouble (shPush c word) s'
      end
  end.

Definition shFields (commandLine : jsstring) : option (list jsstring) :=
  shFieldsFrom ShPlain None commandLine.

(** Dashes in [s] are single: the code unit after a dash is not a dash. *)
Fixpoint singleDashed (s : jsstring) : bool :=
  match s with
  | [] => true
  | a :: s' =>
      (if isDash a
       then match s' with b :: _ => negb (isDash b) | [] => true end
       else true)
      && singleDashed s'
  end.

(** The summaries [parseGitPorcelain] gives. *)
Definition porcelainSummaries : list string :=
  ["untracked file added"; "modified"; "added"; "deleted"; "renamed";
   "copied"; "merge conflict"; "updated"]%string.

(** The commands [inferVerificationCommands] chooses from. *)
Definition inferableCommands : list string :=
  ["pnpm test"; "yarn test"; "bun test"; "npm test"; "pytest";
   "go test ./..."; "cargo test"; "make test"]%string.

(** * Properties *)

(** ** The matcher decides the meaning of a pattern *)

Module RegexFacts.

Lemma litEnds_spec (w : jsstring) : forall rl s rl' s',
  In (rl', s') (litEnds w rl s) <->
  exists m, s = m ++ s' /\ rl' = rev m ++ rl /\ eqIgnoreCase m w.
Proof.
  unfold eqIgnoreCase.
  induction w as [|c w IH]; intros rl s rl' s'; simpl.
  - split.
    + intros [E|[]]. inversion E; subst. exists []. auto.
    + intros (m & E1 & E2 & E3). destruct m; [|discriminate].
      simpl in *. subst. auto.
  - destruct s as [|a s].
    + split; [intros []|].
      intros (m & E1 & _ & E3). destruct m; simpl in *; discriminate.
    + destruct (N.eqb_spec (Canonicalize a) (Canonicalize c)) as [E|NE].
      * rewrite IH. split.
        -- intros (m & E1 & E2 & E3). exists (a :: m). simpl.
           subst. rewrite <- app_assoc. simpl. rewrite E, E3. auto.
        -- intros (m & E1 & E2 & E3). destruct m as [|b m]; [discriminate|].
           simpl in *. inversion E1; inversion E3; subst.
           exists m. rewrite <- app_assoc. auto.
      * split; [intros []|].
        intros (m & E1 & _ & E3). destruct m as [|b m]; [discriminate|].
        simpl in *. inversion E1; inversion E3; subst. contradiction.
Qed.

Lemma repEnds_spec (p : N -> bool) : forall s lo hi rl rl' s',
  In (rl', s') (repEnds p lo hi rl s) <->
  exists m, s = m ++ s' /\ rl' = rev m ++ rl
            /\ Forall (fun a => p a = true) m
            /\ lo <= length m /\ withinMax hi (length m).
Proof.
  assert (base : forall lo (hi : option nat) (rl s rl' s' : jsstring),
    In (rl', s') (if Nat.eqb lo 0 then [(rl, s)] else []) <->
    (rl' = rl /\ s' = s /\ lo = 0)).
  { intros lo hi rl s rl' s'. destruct (Nat.eqb_spec lo 0); simpl.
    - split; [intros [E|[]]; inversion E; auto | intros (-> & -> & _); auto].
    - split; [intros [] | intros (_ & _ & E); contradiction]. }
  induction s as [|a s IH]; intros lo hi rl rl' s'.
  - simpl. rewrite (base lo hi). split.
    + intros (-> & -> & ->). exists []. simpl. repeat split; auto.
      destruct hi; simpl; lia.
    + intros (m & E1 & E2 & _ & E4 & _).
      destruct m; [|discriminate]. simpl in *. subst. repeat split; lia.
  - cbn [repEnds]. rewrite in_app_iff, (base lo hi). split.
    + intros [H|(-> & -> & ->)].
      * destruct (p a) eqn:Pa; [|destruct H].
        destruct (mayRepeat hi) eqn:Mh; [|destruct H]. simpl in H.
        apply IH in H. destruct H as (m & E1 & E2 & F & Lo & Hi).
        exists (a :: m). subst. simpl. rewrite <- app_assoc. simpl.
        repeat split; auto; [lia|].
        destruct hi as [[|h]|]; simpl in *; try discriminate; lia.
      * exists []. simpl. repeat split; auto. destruct hi; simpl; lia.
    + intros (m & E1 & E2 & F & Lo & Hi). destruct m as [|b m].
      * right. simpl in *. subst. repeat split; lia.
      * left. simpl in E1. inversion E1; subst b s. clear E1.
        inversion F as [|? ? Pa F']; subst. rewrite Pa.
        assert (Mh : mayRepeat hi = true).
        { destruct hi as [[|h]|]; simpl in *; auto; lia. }
        rewrite Mh. simpl. apply IH. exists m.
        simpl. rewrite <- app_assoc. simpl. repeat split; auto; [simpl in Lo; lia|].
        destruct hi as [h|]; simpl in *; auto; lia.
Qed.

Lemma xorb_true_neq (a b : bool) : xorb a b = true <-> a <> b.
Proof. destruct a, b; simpl; split; congruence. Qed.

Lemma ends_spec (r : regex) : forall pre s rl' s',
  In (rl', s') (ends r (rev pre) s) <->
  exists m, s = m ++ s' /\ rl' = rev (pre ++ m) /\ den r pre m s'.
Proof.
  induction r as [w|p|r1 IH1 r2 IH2|r1 IH1 r2 IH2|r1 IH1|p lo hi| |];
    intros pre s rl' s'; cbn [ends den].
  - rewrite litEnds_spec. split; intros (m & E1 & E2 & E3); exists m;
      rewrite rev_app_distr in *; auto.
  - destruct s as [|a s].
    + split; [intros []|]. intros (m & E1 & _ & b & -> & _). discriminate.
    + destruct (p a) eqn:Pa.
      * split.
        -- intros [E|[]]. inversion E; subst. exists [a].
           rewrite rev_app_distr. simpl. eauto 6.
        -- intros (m & E1 & E2 & b & -> & Pb). inversion E1; subst.
           rewrite rev_app_distr. simpl. auto.
      * split; [intros []|]. intros (m & E1 & E2 & b & -> & Pb).
        inversion E1; subst. congruence.
  - rewrite in_flat_map. split.
    + intros ([rl1 s1] & H1 & H2). simpl in H2.
      apply IH1 in H1. destruct H1 as (m1 & E1 & E2 & D1). subst rl1.
      apply IH2 in H2. destruct H2 as (m2 & E3 & E4 & D2). subst.
      exists (m1 ++ m2). rewrite <- !app_assoc. repeat split; auto.
      exists m1, m2. auto.
    + intros (m & E1 & E2 & m1 & m2 & -> & D1 & D2).
      exists (rev (pre ++ m1), m2 ++ s'). split.
      * apply IH1. exists m1. subst. rewrite <- app_assoc. auto.
      * simpl. apply IH2. exists m2. subst. rewrite <- app_assoc. auto.
  - rewrite in_app_iff, IH1, IH2. split.
    + intros [(m & E1 & E2 & D)|(m & E1 & E2 & D)]; exists m; auto.
    + intros (m & E1 & E2 & [D|D]); [left|right]; exists m; auto.
  - rewrite in_app_iff, IH1. split.
    + intros [(m & E1 & E2 & D)|[E|[]]].
      * exists m; auto.
      * inversion E; subst. exists []. rewrite app_nil_r. auto.
    + intros (m & E1 & E2 & [D| ->]).
      * left. exists m; auto.
      * right. left. rewrite app_nil_r in E2. simpl in E1. subst. auto.
  - rewrite repEnds_spec. split; intros (m & E1 & E2 & E3); exists m;
      rewrite rev_app_distr in *; auto.
  - fold (lastChar pre).
    destruct (xorb (wordAt (lastChar pre)) (wordAt (hd_error s))) eqn:X.
    + apply xorb_true_neq in X. split.
      * intros [E|[]]. inversion E; subst. exists []. rewrite app_nil_r. auto.
      * intros (m & E1 & E2 & -> & _). rewrite app_nil_r in E2. simpl in E1.
        subst. left. auto.
    + split; [intros []|]. intros (m & E1 & _ & -> & NE). simpl in E1. subst.
      apply xorb_true_neq in NE. congruence.
  - destruct s as [|a s].
    + split.
      * intros [E|[]]. inversion E; subst. exists [].
        rewrite !app_nil_r. repeat split; auto.
      * intros (m & E1 & E2 & -> & ->). rewrite app_nil_r in E2. subst.
        left. auto.
    + split; [intros []|]. intros (m & E1 & _ & -> & ->). discriminate.
Qed.

Lemma matchesAt_spec (r : regex) (pre s : jsstring) :
  matchesAt r (rev pre) s = true <->
  exists m post, s = m ++ post /\ den r pre m post.
Proof.
  unfold matchesAt. split.
  - destruct (ends r (rev pre) s) as [|[rl' s'] l] eqn:E; [discriminate|].
    intros _. assert (H : In (rl', s') (ends r (rev pre) s)) by (rewrite E; left; auto).
    apply ends_spec in H. destruct H as (m & E1 & _ & D). eauto.
  - intros (m & post & E1 & D).
    assert (H : In (rev (pre ++ m), post) (ends r (rev pre) s)).
    { apply ends_spec. eauto. }
    destruct (ends r (rev pre) s); [destruct H | reflexivity].
Qed.

Lemma searchFrom_spec (r : regex) : forall s pre,
  searchFrom r (rev pre) s = true <->
  exists skip m post, s = skip ++ m ++ post /\ den r (pre ++ skip) m post.
Proof.
  induction s as [|a s IH]; intros pre; cbn [searchFrom];
    rewrite orb_true_iff, matchesAt_spec.
  - split.
    + intros [(m & post & E & D)|F]; [|discriminate].
      exists [], m, post. rewrite app_nil_r. auto.
    + intros (skip & m & post & E & D). left.
      destruct skip; [|discriminate]. rewrite app_nil_r in D.
      exists m, post. auto.
  - replace (a :: rev pre) with (rev (pre ++ [a]))
      by (rewrite rev_app_distr; reflexivity).
    rewrite IH. split.
    + intros [(m & post & E & D)|(skip & m & post & E & D)].
      * exists [], m, post. rewrite app_nil_r. auto.
      * exists (a :: skip), m, post. rewrite <- app_assoc in D. simpl in *.
        subst. auto.
    + intros (skip & m & post & E & D). destruct skip as [|b skip].
      * left. rewrite app_nil_r in D. exists m, post. auto.
      * right. inversion E; subst. exists skip, m, post.
        rewrite <- app_assoc. auto.
Qed.

(** [r.test(s)] holds exactly when [r] matches somewhere in [s]. *)
Lemma test_spec (r : regex) (s : jsstring) :
  test r s = true <-> Matches r s.
Proof.
  unfold test, Matches. change (@nil N) with (rev (@nil N)).
  rewrite searchFrom_spec. simpl. reflexivity.
Qed.

End RegexFacts.

Import RegexFacts.

(** ** Words and word boundaries *)

Lemma isWordChar_Canonicalize (a : N) :
  isWordChar (Canonicalize a) = isWordChar a.
Proof.
  unfold Canonicalize.
  destruct (97 <=? a)%N eqn:E1; destruct (a <=? 122)%N eqn:E2; simpl; auto.
  unfold isWordChar. rewrite E1, E2.
  apply N.leb_le in E1, E2.
  assert (H1 : (65 <=? a - 32)%N = true) by (apply N.leb_le; lia).
  assert (H2 : (a - 32 <=? 90)%N = true) by (apply N.leb_le; lia).
  rewrite H1, H2. simpl. rewrite !orb_true_r. reflexivity.
Qed.

Lemma eqIgnoreCase_length (m w : jsstring) :
  eqIgnoreCase m w -> length m = length w.
Proof.
  unfold eqIgnoreCase. intros E.
  rewrite <- (length_map Canonicalize m), E. apply length_map.
Qed.

Lemma eqIgnoreCase_hd (m w : jsstring) :
  eqIgnoreCase m w -> wordAt (hd_error m) = wordAt (hd_error w).
Proof.
  unfold eqIgnoreCase.
  destruct m as [|a m], w as [|c w]; simpl; try discriminate; auto.
  intros E. inversion E as [[E1 E2]].
  rewrite <- (isWordChar_Canonicalize a), E1. apply isWordChar_Canonicalize.
Qed.

Lemma eqIgnoreCase_rev (m w : jsstring) :
  eqIgnoreCase m w -> eqIgnoreCase (rev m) (rev w).
Proof. unfold eqIgnoreCase. intros E. rewrite !map_rev, E. reflexivity. Qed.

Lemma hd_error_app_word (m post : jsstring) :
  wordAt (hd_error m) = true -> wordAt (hd_error (m ++ post)) = true.
Proof. destruct m; simpl; [discriminate | auto]. Qed.

Lemma lastChar_app_word (pre m : jsstring) :
  wordAt (lastChar m) = true -> wordAt (lastChar (pre ++ m)) = true.
Proof.
  unfold lastChar. rewrite rev_app_distr. apply hd_error_app_word.
Qed.

(** A whole word that is one of the alternatives is a match of the
    pattern. *)
Lemma highRisk_of_term (term pre m post : jsstring) :
  eqIgnoreCase m term ->
  wordAt (hd_error term) = true -> wordAt (lastChar term) = true ->
  wordAt (lastChar pre) = false -> wordAt (hd_error post) = false ->
  (wordAt (lastChar (pre ++ m)) <> wordAt (hd_error post) ->
   den highRiskTerms pre m post) ->
  Matches HIGH_RISK_CONFIRM_PATTERN (pre ++ m ++ post).
Proof.
  intros E Hd Lst Bpre Bpost D.
  assert (B2 : wordAt (lastChar (pre ++ m)) <> wordAt (hd_error post)).
  { rewrite Bpost, lastChar_app_word; [discriminate|].
    unfold lastChar. rewrite (eqIgnoreCase_hd (eqIgnoreCase_rev E)). exact Lst. }
  exists pre, m, post. split; [reflexivity|].
  unfold HIGH_RISK_CONFIRM_PATTERN. cbn [den].
  exists [], m. split; [reflexivity|]. split.
  - split; [reflexivity|]. rewrite Bpre. simpl.
    rewrite hd_error_app_word; [discriminate|].
    rewrite (eqIgnoreCase_hd E). exact Hd.
  - exists m, []. rewrite !app_nil_r. split; [reflexivity|].
    split; [exact (D B2)|]. split; [reflexivity | exact B2].
Qed.

Ltac alt_here m :=
  first
    [ eassumption
    | exists m, (@nil N); split;
      [ rewrite app_nil_r; reflexivity
      | split; [ eassumption | split; [ reflexivity | eassumption ] ] ] ].

Ltac pick_alt m :=
  unfold highRiskTerms, L; cbn [den];
  repeat first [ left; solve [ alt_here m ] | right ];
  solve [ alt_here m ].

Lemma highRisk_of_lexicon (term : string) (text : jsstring) :
  In term (broaderTerms ++ specLexicon) ->
  containsWholeWord (lit term) text ->
  test HIGH_RISK_CONFIRM_PATTERN text = true.
Proof.
  intros I (pre & m & post & -> & E & Bpre & Bpost).
  apply test_spec.
  simpl in I.
  repeat (destruct I as [<-|I];
          [ apply (highRisk_of_term E); try reflexivity; try assumption;
            intros B; rewrite ?app_nil_r in B; pick_alt m | ]).
  destruct I.
Qed.

(** ** The auto-answer policy *)

(** Claim C1.  The decision table of section 4.2, for every mode and every
    prompt: [off] defers every prompt; [safe] answers a press-enter prompt
    with its canonical safe response and defers confirm and choice prompts;
    [balanced] answers press-enter the same way, answers a confirm prompt
    with "y" unless its text matches the high-risk lexicon, in which case it
    defers, and defers a choice prompt; [yolo] answers press-enter with its
    canonical response, confirm with "y" and choice with "1".  The canonical
    response of a prompt found by the classifier is the empty string. *)
Theorem C1_policy_table (prompt : PromptMatch.t) :
  resolveAutoResponse Off prompt = None
  /\ (PromptMatch.kind prompt = PressEnter ->
      resolveAutoResponse Safe prompt = Some (safeResponseOrEmpty prompt)
      /\ resolveAutoResponse Balanced prompt = Some (safeResponseOrEmpty prompt)
      /\ resolveAutoResponse Yolo prompt = Some (safeResponseOrEmpty prompt))
  /\ (PromptMatch.kind prompt = Confirm ->
      resolveAutoResponse Safe prompt = None
      /\ (Matches HIGH_RISK_CONFIRM_PATTERN (PromptMatch.text prompt) ->
          resolveAutoResponse Balanced prompt = None)
      /\ (~ Matches HIGH_RISK_CONFIRM_PATTERN (PromptMatch.text prompt) ->
          resolveAutoResponse Balanced prompt = Some (lit "y"))
      /\ resolveAutoResponse Yolo prompt = Some (lit "y"))
  /\ (PromptMatch.kind prompt = Choice ->
      resolveAutoResponse Safe prompt = None
      /\ resolveAutoResponse Balanced prompt = None
      /\ resolveAutoResponse Yolo prompt = Some (lit "1"))
  /\ (forall (I : Imports) rawTail,
      detectInteractivePrompt rawTail = Some prompt ->
      PromptMatch.kind prompt = PressEnter ->
      safeResponseOrEmpty prompt = []).
Proof.
  split; [reflexivity|].
  split; [intros K; unfold resolveAutoResponse; rewrite K; auto|].
  split.
  { intros K. unfold resolveAutoResponse. rewrite K.
    split; [reflexivity|]. split; [|split; [|reflexivity]].
    - intros M. apply test_spec in M. rewrite M. reflexivity.
    - intros M.
      destruct (test HIGH_RISK_CONFIRM_PATTERN (PromptMatch.text prompt)) eqn:T;
        [|reflexivity].
      apply test_spec in T. contradiction. }
  split; [intros K; unfold resolveAutoResponse; rewrite K; auto|].
  intros I rawTail D K. unfold detectInteractivePrompt in D.
  destruct (recentLines rawTail); [discriminate|].
  repeat match type of D with
         | (if ?c then _ else _) = _ => destruct c
         end;
    inversion D; subst; try discriminate; reflexivity.
Qed.

(** The table at the prompt of the specification's example: in [balanced]
    mode "delete production DB" is deferred, "Proceed? (y/N)" is answered
    with "y". *)
Lemma C1_policy_table_witness :
  resolveAutoResponse Balanced
    {| PromptMatch.kind := Confirm;
       PromptMatch.text :=
         lit "Are you sure you want to delete production DB? (y/N)";
       PromptMatch.safeAutoResponse := None |} = None
  /\ resolveAutoResponse Balanced
       {| PromptMatch.kind := Confirm;
          PromptMatch.text := lit "Proceed? (y/N)";
          PromptMatch.safeAutoResponse := None |} = Some (lit "y").
Proof.
  split.
  - destruct (C1_policy_table
                {| PromptMatch.kind := Confirm;
                   PromptMatch.text :=
                     lit "Are you sure you want to delete production DB? (y/N)";
                   PromptMatch.safeAutoResponse := None |})
      as (_ & _ & HC & _).
    destruct (HC eq_refl) as (_ & H & _). apply H.
    apply test_spec. vm_compute. reflexivity.
  - destruct (C1_policy_table
                {| PromptMatch.kind := Confirm;
                   PromptMatch.text := lit "Proceed? (y/N)";
                   PromptMatch.safeAutoResponse := None |})
      as (_ & _ & HC & _).
    destruct (HC eq_refl) as (_ & _ & H & _). apply H.
    intros M. apply test_spec in M. vm_compute in M. discriminate.
Defined.

(** Claim C10.  In [balanced] mode the lexicon that makes a confirm prompt
    defer is broader than the terms the specification lists: a confirm
    prompt whose text contains, as a whole word in any letter case, one of
    rm, erase, reset, revert, overwrite, prod, db, schema, migration, key
    (none of which is among the listed terms) is deferred and not answered
    with "y", as is one that contains a listed term. *)
Theorem C10_lexicon_is_broader (term : string) (prompt : PromptMatch.t) :
  PromptMatch.kind prompt = Confirm ->
  In term broaderTerms ->
  containsWholeWord (lit term) (PromptMatch.text prompt) ->
  resolveAutoResponse Balanced prompt = None
  /\ resolveAutoResponse Balanced prompt <> Some (lit "y")
  /\ ~ In term specLexicon
  /\ (forall listed p, In listed specLexicon ->
        PromptMatch.kind p = Confirm ->
        containsWholeWord (lit listed) (PromptMatch.text p) ->
        resolveAutoResponse Balanced p = None).
Proof.
  intros K I W.
  assert (R : forall t p, In t (broaderTerms ++ specLexicon) ->
                PromptMatch.kind p = Confirm ->
                containsWholeWord (lit t) (PromptMatch.text p) ->
                resolveAutoResponse Balanced p = None).
  { intros t p It Kp Wp. unfold resolveAutoResponse. rewrite Kp.
    rewrite (highRisk_of_lexicon It Wp). reflexivity. }
  split; [apply (R term); auto; apply in_or_app; auto|].
  split; [rewrite (R term); auto; [discriminate | apply in_or_app; auto]|].
  split.
  - intros S. simpl in I, S.
    repeat (destruct I as [<-|I]; [intuition discriminate|]). destruct I.
  - intros listed p Il Kp Wp. apply (R listed); auto. apply in_or_app; auto.
Qed.

Lemma C10_lexicon_is_broader_witness :
  resolveAutoResponse Balanced
    {| PromptMatch.kind := Confirm;
       PromptMatch.text := lit "Rotate the signing KEY? (y/N)";
       PromptMatch.safeAutoResponse := None |} = None.
Proof.
  apply (@C10_lexicon_is_broader "key"
           {| PromptMatch.kind := Confirm;
              PromptMatch.text := lit "Rotate the signing KEY? (y/N)";
              PromptMatch.safeAutoResponse := None |}).
  - reflexivity.
  - simpl. tauto.
  - exists (lit "Rotate the signing "), (lit "KEY"), (lit "? (y/N)").
    repeat split; reflexivity.
Defined.

(** ** The prompt classifier *)

Lemma join_nil_window `{Imports} (rawTail : jsstring) :
  recentLines rawTail = [] -> detectionWindow rawTail = [].
Proof. unfold detectionWindow. intros ->. reflexivity. Qed.

Lemma lastChar_lit_word (m w : jsstring) (pre : jsstring) :
  eqIgnoreCase m w -> wordAt (lastChar w) = true ->
  wordAt (lastChar (pre ++ m)) = true.
Proof.
  intros E Lw. apply lastChar_app_word. unfold lastChar.
  rewrite (eqIgnoreCase_hd (eqIgnoreCase_rev E)). exact Lw.
Qed.

Lemma pressEnter_iff (window : jsstring) :
  Matches pressEnterPattern window <-> containsPressEnterPhrase window.
Proof.
  unfold Matches, containsPressEnterPhrase, pressEnterPattern, spaces, plus, L.
  split.
  - intros (pre & m & post & -> & D). cbn [den] in D.
    destruct D as (m1 & r1 & -> & E1 & m2 & r2 & -> & (F2 & L2 & _)
                   & m3 & r3 & -> & E3 & m4 & r4 & -> & (F4 & L4 & _)
                   & m5 & r5 & -> & E5 & m6 & r6 & -> & (F6 & L6 & _)
                   & m7 & r7 & -> & E7 & -> & B).
    exists pre, m1, m2, m3, m4, m5, m6, m7, post.
    rewrite app_nil_r, <- !app_assoc. repeat split; auto.
    rewrite (lastChar_lit_word _ E7) in B by reflexivity.
    destruct (wordAt (hd_error post)); congruence.
  - intros (pre & m1 & m2 & m3 & m4 & m5 & m6 & m7 & post & -> & E1
            & (F2 & L2) & E3 & (F4 & L4) & E5 & (F6 & L6) & E7 & B).
    exists pre, (m1 ++ m2 ++ m3 ++ m4 ++ m5 ++ m6 ++ m7), post.
    rewrite <- !app_assoc. split; [reflexivity|]. cbn [den].
    exists m1, (m2 ++ m3 ++ m4 ++ m5 ++ m6 ++ m7). repeat split; auto.
    exists m2, (m3 ++ m4 ++ m5 ++ m6 ++ m7). repeat split; auto.
    exists m3, (m4 ++ m5 ++ m6 ++ m7). repeat split; auto.
    exists m4, (m5 ++ m6 ++ m7). repeat split; auto.
    exists m5, (m6 ++ m7). repeat split; auto.
    exists m6, m7. repeat split; auto.
    exists m7, []. rewrite app_nil_r. repeat split; auto.
    rewrite (lastChar_lit_word _ E7), B by reflexivity. discriminate.
Qed.

(** Claim C7.  Whenever the detection window contains the phrase "press
    enter to continue" or "press return to continue", in any letter case,
    the classifier returns a press-enter prompt whose text is the last line
    of the window and whose canonical safe response is the empty string;
    the press-enter check comes first, so this is so whatever else the
    window contains, confirm or choice cues included. *)
Theorem C7_press_enter_first `{Imports} (rawTail : jsstring) :
  containsPressEnterPhrase (detectionWindow rawTail) ->
  detectInteractivePrompt rawTail =
  Some {| PromptMatch.kind := PressEnter;
          PromptMatch.text :=
            lastLineOr (recentLines rawTail) (detectionWindow rawTail);
          PromptMatch.safeAutoResponse := Some [] |}.
Proof.
  intros P. unfold detectInteractivePrompt.
  destruct (recentLines rawTail) as [|l ls] eqn:R.
  - apply join_nil_window in R. rewrite R in P.
    destruct P as (pre & m1 & m2 & m3 & m4 & m5 & m6 & m7 & post & E & E1 & _).
    apply eqIgnoreCase_length in E1.
    destruct pre; [|discriminate]. destruct m1; discriminate.
  - unfold detectionWindow in *. rewrite R in *.
    apply pressEnter_iff, test_spec in P. rewrite P. reflexivity.
Qed.

(** A window that holds a confirm cue and the phrase, in upper case and
    with several blanks, is a press-enter prompt. *)
Lemma C7_press_enter_first_witness :
  containsPressEnterPhrase
    (@detectionWindow plainImports
       (lit "Continue? [y/n]" ++ [13%N; 10%N]
        ++ lit "PRESS  Return to CONTINUE..."))
  /\ @detectInteractivePrompt plainImports
       (lit "Continue? [y/n]" ++ [13%N; 10%N]
        ++ lit "PRESS  Return to CONTINUE...")
     = Some {| PromptMatch.kind := PressEnter;
               PromptMatch.text := lit "PRESS  Return to CONTINUE...";
               PromptMatch.safeAutoResponse := Some [] |}.
Proof.
  assert (P : containsPressEnterPhrase
                (@detectionWindow plainImports
                   (lit "Continue? [y/n]" ++ [13%N; 10%N]
                    ++ lit "PRESS  Return to CONTINUE..."))).
  { exists (lit "Continue? [y/n] "), (lit "PRESS"), (lit "  "), (lit "Return"),
      (lit " "), (lit "to"), (lit " "), (lit "CONTINUE"), (lit "...").
    unfold spaces. repeat split; try reflexivity;
      try (right; reflexivity); repeat constructor. }
  split; [exact P|].
  exact (@C7_press_enter_first plainImports _ P).
Defined.

(** The claim as it is worded fails: the window "Press Enter to continue2"
    holds the phrase press enter to continue, and the classifier finds no
    prompt in it, because a word character follows the last word of the
    phrase. *)
Lemma C7_counterexample :
  claimedPressEnterPhrase
    (@detectionWindow plainImports (lit "Press Enter to continue2"))
  /\ @detectInteractivePrompt plainImports (lit "Press Enter to continue2")
     = None.
Proof.
  split; [|vm_compute; reflexivity].
  exists [], (lit "Press Enter to continue"), (lit "2").
  split; [vm_compute; reflexivity|].
  left. vm_compute. reflexivity.
Qed.

Lemma eqIgnoreCase_single (m : jsstring) (c : N) :
  eqIgnoreCase m [c] -> (c < 65 \/ 90 < c)%N -> (c < 97 \/ 122 < c)%N ->
  m = [c].
Proof.
  unfold eqIgnoreCase. destruct m as [|a [|b m]]; simpl; try discriminate.
  intros E R1 R2. inversion E as [E1]. f_equal. revert E1.
  unfold Canonicalize.
  destruct (N.leb_spec 97 a); destruct (N.leb_spec a 122);
    destruct (N.leb_spec 97 c); destruct (N.leb_spec c 122); simpl; lia.
Qed.

Lemma confirmVerb_iff (pre v post : jsstring) :
  den confirmVerb pre v post <-> isConfirmVerb v.
Proof.
  unfold confirmVerb, isConfirmVerb, confirmVerbs, L. cbn [den]. split.
  - intros D.
    repeat (destruct D as [D|D]; [eexists; split; [|exact D]; simpl; tauto|]).
    eexists; split; [|exact D]; simpl; tauto.
  - intros (verb & I & E). simpl in I.
    repeat (destruct I as [<-|I]; [tauto|]). destruct I.
Qed.

Lemma confirmIndicator_iff (window : jsstring) :
  Matches confirmIndicatorPattern window <-> confirmIndicatorCue window.
Proof.
  unfold Matches, confirmIndicatorCue, confirmIndicatorPattern, star, L.
  split.
  - intros (pre & m & post & -> & D). cbn [den] in D.
    destruct D as (v & r1 & -> & V & gap & r2 & -> & (Fg & _ & Lg) & B).
    apply confirmVerb_iff in V.
    destruct B as [B|B];
      destruct B as (o & r3 & -> & Eo & a & r4 & -> & (Fa & _ & _)
                     & yn & r5 & -> & Ey & b & c & -> & (Fb & _ & _) & Ec);
      apply eqIgnoreCase_single in Eo; try (simpl; lia);
      apply eqIgnoreCase_single in Ec; try (simpl; lia); subst o c;
      [ exists pre, v, gap, 40%N, a, yn, b, 41%N, post
      | exists pre, v, gap, 91%N, a, yn, b, 93%N, post ];
      rewrite <- !app_assoc; unfold bracketPair; simpl in *;
      repeat split; auto.
  - intros (pre & v & gap & o & a & yn & b & c & post & -> & V & Fg & Lg & P
            & Fa & Ey & Fb).
    exists pre, (v ++ gap ++ [o] ++ a ++ yn ++ b ++ [c]), post.
    rewrite <- !app_assoc. split; [reflexivity|]. cbn [den].
    exists v, (gap ++ [o] ++ a ++ yn ++ b ++ [c]).
    split; [reflexivity|]. split; [apply confirmVerb_iff; exact V|].
    exists gap, ([o] ++ a ++ yn ++ b ++ [c]).
    split; [reflexivity|]. split; [simpl; repeat split; auto; lia|].
    assert (G : forall o c : N,
      den (Lit [o] ;; Rep dot 0 None ;; Lit (lit "y/n") ;; Rep dot 0 None
           ;; Lit [c]) ((pre ++ v) ++ gap)
        ([o] ++ a ++ yn ++ b ++ [c]) post).
    { intros o' c'. cbn [den].
      exists [o'], (a ++ yn ++ b ++ [c']).
      split; [reflexivity|]. split; [reflexivity|].
      exists a, (yn ++ b ++ [c']). split; [reflexivity|].
      split; [simpl; repeat split; auto; lia|].
      exists yn, (b ++ [c']). split; [reflexivity|]. split; [exact Ey|].
      exists b, [c']. split; [reflexivity|].
      split; [simpl; repeat split; auto; lia | reflexivity]. }
    destruct P as [(-> & ->)|(-> & ->)]; [left|right]; apply G.
Qed.

Lemma confirmTrailing_iff (window : jsstring) :
  Matches confirmTrailingPattern window <-> confirmTrailingCue window.
Proof.
  unfold Matches, confirmTrailingCue, confirmTrailingPattern, star, optSpaces.
  split.
  - intros (pre & m & post & -> & D). cbn [den] in D.
    destruct D as (v & r1 & -> & V & ws1 & r2 & -> & (F1 & _ & _)
                   & q & r3 & -> & Q & ws2 & e & -> & (F2 & _ & _) & -> & ->).
    apply confirmVerb_iff in V.
    exists pre, v, ws1, q, ws2. rewrite !app_nil_r.
    repeat split; auto.
    destruct Q as [(a & -> & Qa)| ->]; [right; eauto | left; auto].
  - intros (pre & v & ws1 & q & ws2 & -> & V & F1 & Q & F2).
    exists pre, (v ++ ws1 ++ q ++ ws2), [].
    split; [rewrite app_nil_r; reflexivity|]. cbn [den].
    exists v, (ws1 ++ q ++ ws2).
    split; [reflexivity|].
    split; [apply confirmVerb_iff; exact V|].
    exists ws1, (q ++ ws2). split; [reflexivity|].
    split; [simpl; repeat split; auto; lia|].
    exists q, ws2. split; [reflexivity|]. split.
    { destruct Q as [->|(a & -> & Qa)]; [right; auto | left; eauto]. }
    exists ws2, []. rewrite app_nil_r. split; [reflexivity|].
    split; [simpl; repeat split; auto; lia | auto].
Qed.

Lemma test_false_iff (r : regex) (s : jsstring) :
  test r s = false <-> ~ Matches r s.
Proof.
  rewrite <- test_spec. destruct (test r s); split; congruence.
Qed.

(** Claim C5, as the code has it.  The classifier returns kind confirm
    exactly when the detection window is not empty, does not contain the
    press-enter phrase, and contains a confirmation verb that is followed
    either, after at most 120 code units other than a full stop or a line
    feed, by a group in round or square brackets that contains y/n, or, up
    to the end of the window, by nothing but white space and at most one
    question mark or colon.  The text "Proceed? (y/N)", when it has no
    escape sequence to strip, is a confirm prompt. *)
Theorem C5_confirm_exactly `{Imports} (rawTail : jsstring) :
  (returnsKind rawTail Confirm <->
   recentLines rawTail <> []
   /\ ~ containsPressEnterPhrase (detectionWindow rawTail)
   /\ (confirmIndicatorCue (detectionWindow rawTail)
       \/ confirmTrailingCue (detectionWindow rawTail)))
  /\ (stripAnsi (lit "Proceed? (y/N)") = lit "Proceed? (y/N)" ->
      detectInteractivePrompt (lit "Proceed? (y/N)")
      = Some {| PromptMatch.kind := Confirm;
                PromptMatch.text := lit "Proceed? (y/N)";
                PromptMatch.safeAutoResponse := None |}).
Proof.
  split.
  - unfold returnsKind, detectInteractivePrompt, detectionWindow.
    rewrite <- pressEnter_iff, <- confirmIndicator_iff, <- confirmTrailing_iff.
    rewrite <- !test_spec.
    destruct (recentLines rawTail) as [|l ls].
    { split; [intros (p & D & _); discriminate | intros (N0 & _); congruence]. }
    set (w := join (lit " ") (l :: ls)).
    destruct (test pressEnterPattern w).
    { split; [intros (p & D & K); inversion D; subst; discriminate|].
      intros (_ & N0 & _). congruence. }
    destruct (test confirmIndicatorPattern w); simpl.
    { split; [|eauto].
      intros _. repeat split; try discriminate. auto. }
    destruct (test confirmTrailingPattern w).
    { split; [|eauto].
      intros _. repeat split; try discriminate. auto. }
    split.
    + destruct (test choicePattern w); intros (p & D & K);
        inversion D; subst; discriminate.
    + intros (_ & _ & [F|F]); discriminate.
  - intros S. unfold detectInteractivePrompt, recentLines,
      normalizeForPromptDetection. rewrite S. vm_compute. reflexivity.
Qed.

Lemma C5_confirm_exactly_witness :
  @returnsKind plainImports (lit "Really continue  :") Confirm
  /\ @detectInteractivePrompt plainImports (lit "Proceed? (y/N)")
     = Some {| PromptMatch.kind := Confirm;
               PromptMatch.text := lit "Proceed? (y/N)";
               PromptMatch.safeAutoResponse := None |}.
Proof.
  destruct (@C5_confirm_exactly plainImports (lit "Really continue  :"))
    as [[_ Hret] _].
  destruct (@C5_confirm_exactly plainImports (lit "Proceed? (y/N)"))
    as [_ Hex].
  split; [apply Hret | apply Hex; reflexivity].
  split; [vm_compute; discriminate|]. split.
  - intros P. apply pressEnter_iff, test_spec in P. vm_compute in P.
    discriminate.
  - right. exists (lit "Really "), (lit "continue"), (lit "  "), (lit ":"), [].
    unfold isConfirmVerb, optSpaces.
    split; [reflexivity|]. split.
    { exists "continue"%string. split; [simpl; tauto | reflexivity]. }
    split; [repeat constructor|]. split; [|constructor].
    right. exists 58%N. split; reflexivity.
Defined.

(** The claim as it is worded fails: the window "Build will continue" has
    no bracket, no question mark and no colon, and is classified as a
    confirm prompt. *)
Lemma C5_counterexample :
  @returnsKind plainImports (lit "Build will continue") Confirm
  /\ ~ claimedConfirmCue
         (@detectionWindow plainImports (lit "Build will continue")).
Proof.
  split.
  - eexists. split; [vm_compute; reflexivity | reflexivity].
  - assert (W : @detectionWindow plainImports (lit "Build will continue")
                = lit "Build will continue") by (vm_compute; reflexivity).
    rewrite W. clear W.
    intros (pre & v & rest & E & _ & C).
    assert (I : forall x, In x rest -> In x (lit "Build will continue")).
    { intros x Ix. rewrite E. apply in_or_app. right.
      apply in_or_app. right. exact Ix. }
    destruct C as [(gap & o & a & yn & b & c & post & -> & P & _)
                  |(gap & q & ws & -> & Q & _)].
    + assert (Io : In o (lit "Build will continue")).
      { apply I. apply in_or_app. right. left. reflexivity. }
      destruct P as [(-> & _)|(-> & _)]; vm_compute in Io;
        intuition discriminate.
    + assert (Iq : In q (lit "Build will continue")).
      { apply I. apply in_or_app. right. left. reflexivity. }
      vm_compute in Iq.
      repeat (destruct Iq as [<-|Iq]; [vm_compute in Q; discriminate|]).
      destruct Iq.
Qed.

(** ** The session bridge: what holds in every state of a session *)

Lemma Inv_initial : Inv initialSession.
Proof.
  constructor; simpl; auto; try discriminate.
  split; [discriminate | intros (id & p & F); discriminate].
Qed.

Ltac inv_open H :=
  let M := fresh "M" in let St := fresh "St" in let Ca := fresh "Ca" in
  let Sp := fresh "Sp" in let Su := fresh "Su" in let Bu := fresh "Bu" in
  let Aw := fresh "Aw" in let Er := fresh "Er" in
  destruct H as [M St Ca Sp Su Bu Aw Er].

Lemma pollTick_Inv (s : Session) : Inv s -> Inv (pollTick s).
Proof.
  intros H. unfold pollTick. destruct (control s) eqn:C; auto;
    inv_open H; constructor; simpl; auto; try (rewrite C; discriminate);
    try (rewrite C; exact Aw);
    intros e Ee; destruct (Er e Ee) as [I T]; split; auto;
    apply in_or_app; auto.
Qed.

Lemma spawnResolved_Inv (r : ManagedRun) (s : Session) :
  Inv s -> Inv (spawnResolved r s).
Proof.
  intros H. unfold spawnResolved. destruct (control s) eqn:C; auto.
  inv_open H. specialize (Sp C).
  assert (T : tasks s = []).
  { destruct (tasks s) eqn:Ts; auto.
    rewrite St in Sp by discriminate. discriminate. }
  constructor; simpl; auto; try discriminate.
Qed.

Ltac unfold_ops :=
  unfold startPromptHandling, promptBody, finish, endSuppression,
    flushSuppressedOutput, writeStdin, callOnOutput, callCancelRun,
    pushPromptEvent, emit in *.

Lemma in_trace_grow (e : Effect) (t u : list Effect) :
  In e t -> In e (t ++ u).
Proof. intros I. apply in_or_app. auto. Qed.

Create HintDb session.
#[local] Hint Resolve in_trace_grow : session.

Lemma finish_Inv (input : PtyCodexRunInput) (r : ManagedRun) (x : RunExit)
    (s : Session) :
  Inv s -> Inv (finish input r x s).
Proof.
  intros H. inv_open H. unfold finish, emit.
  constructor; simpl; auto; try discriminate.
  intros e Ee. destruct (Er e Ee). auto with session.
Qed.

Lemma waitResolved_Inv (input : PtyCodexRunInput) (x : RunExit) (s : Session) :
  Inv s -> Inv (waitResolved input x s).
Proof.
  intros H. unfold waitResolved. destruct (control s) eqn:C; auto.
  destruct (promptHandling s) as [id|] eqn:P; [|apply finish_Inv; auto].
  inv_open H. constructor; simpl; auto; try discriminate.
  intros r x' id' E. inversion E; subst. exact P.
Qed.

(** With a task in flight the task list is that one task. *)
Lemma Inv_task (s : Session) (id : nat) (st : TaskState) :
  Inv s -> taskState id (tasks s) = Some st ->
  tasks s = [(id, st)] /\ promptHandling s = Some id
  /\ runStdin s = true /\ cancelRun s = true.
Proof.
  intros H T. inv_open H.
  destruct (promptHandling s) as [id0|] eqn:P.
  - destruct M as (st0 & M). rewrite M in T. simpl in T.
    destruct (Nat.eqb_spec id0 id); [|discriminate].
    inversion T; subst.
    assert (R : runStdin s = true) by (apply St; rewrite M; discriminate).
    auto.
  - rewrite M in T. discriminate.
Qed.

Lemma eqb_refl_nat (n : nat) : Nat.eqb n n = true.
Proof. apply Nat.eqb_refl. Qed.

Lemma responderRejected_Inv (input : PtyCodexRunInput) (id : nat)
    (err : JsValue) (s : Session) :
  Inv s -> Inv (responderRejected input id err s).
Proof.
  intros H. unfold responderRejected.
  destruct (taskState id (tasks s)) as [[p| |]|] eqn:T; auto.
  destruct (Inv_task id H T) as (Ts & P & R & Cn).
  inv_open H. unfold_ops. simpl.
  destruct (suppressedOutput s) eqn:B; [|destruct (onOutput input)];
    simpl; rewrite Ts; simpl; rewrite eqb_refl_nat;
    (constructor; simpl; auto; try discriminate;
     [ rewrite P; eauto
     | split; [discriminate | intros (i & q & F); discriminate]
     | intros e Ee; destruct (Er e Ee) as [_ F];
       specialize (F id (AwaitingResponder p)); rewrite Ts in F;
       simpl in F; discriminate F; auto ]).
Qed.

Lemma responderResolved_Inv (input : PtyCodexRunInput) (id : nat)
    (response : jsstring) (atMs : Z) (s : Session) :
  Inv s -> Inv (responderResolved input id response atMs s).
Proof.
  intros H. unfold responderResolved.
  destruct (taskState id (tasks s)) as [[p| |]|] eqn:T; auto.
  destruct (Inv_task id H T) as (Ts & P & R & Cn).
  inv_open H. unfold_ops. rewrite R. simpl.
  destruct (suppressedOutput s) eqn:B; [|destruct (onOutput input)];
    simpl; rewrite Ts; simpl; rewrite eqb_refl_nat;
    (constructor; simpl; auto; try discriminate;
     [ rewrite P; eauto
     | split; [discriminate | intros (i & q & F); discriminate]
     | intros e Ee; destruct (Er e Ee) as [_ F];
       specialize (F id (AwaitingResponder p)); rewrite Ts in F;
       simpl in F; discriminate F; auto ]).
Qed.

Lemma reaction_Inv (input : PtyCodexRunInput) (id : nat) (s : Session) :
  Inv s -> Inv (reaction input id s).
Proof.
  intros H. unfold reaction.
  destruct (taskState id (tasks s)) as [[p|err|]|] eqn:T; auto.
  - destruct (Inv_task id H T) as (Ts & P & R & Cn).
    inv_open H. unfold_ops. simpl. rewrite Cn. simpl. rewrite Ts. simpl.
    rewrite eqb_refl_nat.
    assert (Sf : suppressUserOutput s = false).
    { destruct (suppressUserOutput s); auto.
      destruct Su as [Su _]. destruct (Su eq_refl) as (i & q & F).
      rewrite Ts in F. discriminate. }
    constructor; simpl; auto; try discriminate.
    + rewrite P. eauto.
    + split; [congruence | intros (i & q & F); discriminate].
    + intros e _. split; [apply in_or_app; right; left; reflexivity|].
      intros i st [F|[]]. inversion F; auto.
  - destruct (Inv_task id H T) as (Ts & P & R & Cn).
    inv_open H.
    assert (Sf : suppressUserOutput s = false).
    { destruct (suppressUserOutput s); auto.
      destruct Su as [Su _]. destruct (Su eq_refl) as (i & q & F).
      rewrite Ts in F. discriminate. }
    simpl. rewrite Ts. simpl. rewrite eqb_refl_nat. simpl.
    destruct (control s) as [|r|r x awaited|o] eqn:C;
      [| |destruct (Nat.eqb_spec awaited id) as [->|NE]|];
      unfold_ops;
      (constructor; simpl; rewrite ?C; auto; try discriminate;
       try solve [split; [congruence | intros (i & q & F); discriminate]];
       try solve [intros r' x' i' E; inversion E; subst;
                  specialize (Aw _ _ _ eq_refl); congruence];
       try solve [intros e Ee; destruct (Er e Ee) as [I _]; split;
                  [auto with session | intros i st []]]).
Qed.

Section WithImports.
Context `{Imports}.

Lemma Inv_idle (s : Session) :
  Inv s -> promptHandling s = None ->
  tasks s = [] /\ suppressUserOutput s = false /\ suppressedOutput s = [].
Proof.
  intros I P. inv_open I. rewrite P in M.
  assert (Sf : suppressUserOutput s = false).
  { destruct (suppressUserOutput s); auto.
    destruct Su as [Su _]. destruct (Su eq_refl) as (i & q & F).
    rewrite M in F. discriminate. }
  auto.
Qed.

Lemma startPromptHandling_Inv (input : PtyCodexRunInput)
    (prompt : PromptMatch.t) (atMs : Z) (s : Session) :
  Inv s -> promptHandling s = None -> promptError s = None ->
  runStdin s = true ->
  Inv (startPromptHandling input prompt atMs s).
Proof.
  intros I P E R. destruct (Inv_idle I P) as (Ts & Sf & Bf).
  inv_open I. unfold_ops.
  destruct (resolveAutoResponse (autoAnswer input) prompt) as [response|];
    [|destruct (promptResponder input)]; simpl; rewrite ?R; simpl;
    rewrite ?Ts; simpl;
    (constructor; simpl; eauto; try discriminate; try congruence;
     try solve [split; [congruence | intros (i & q & F); discriminate]];
     try solve [split; eauto];
     try solve [intros r x i C; specialize (Aw _ _ _ C); congruence]).
Qed.

Lemma maybeHandlePrompt_Inv (input : PtyCodexRunInput) (now atMs : Z)
    (s : Session) :
  Inv s -> Inv (maybeHandlePrompt input now atMs s).
Proof.
  intros I. unfold maybeHandlePrompt.
  destruct (promptHandling s) eqn:P; simpl; auto.
  destruct (promptError s) eqn:E; simpl; auto.
  destruct (runStdin s) eqn:R; simpl; auto.
  destruct (detectInteractivePrompt (detectTail s)) as [prompt|]; auto.
  match goal with |- context [if ?c then _ else _] => destruct c end; auto.
  apply startPromptHandling_Inv; auto.
  inv_open I. constructor; simpl; auto.
Qed.

Lemma onChunk_Inv (input : PtyCodexRunInput) (rawChunk : jsstring)
    (now atMs : Z) (s : Session) :
  Inv s -> Inv (onChunk input rawChunk now atMs s).
Proof.
  intros I. unfold onChunk.
  destruct (sanitizeBinaryOutput rawChunk) as [|c chunk]; auto.
  apply maybeHandlePrompt_Inv.
  inv_open I. unfold_ops. simpl.
  destruct (suppressUserOutput s) eqn:Sf; [|destruct (onOutput input)];
    (constructor; simpl; auto; try discriminate; try congruence;
     try solve [intros e Ee; destruct (Er e Ee) as [I T]; split;
                auto with session]).
Qed.

Lemma startRejected_Inv (err : JsValue) (s : Session) :
  Inv s -> Inv (startRejected err s).
Proof.
  intros V. unfold startRejected. destruct (control s) eqn:C; auto.
  inv_open V. constructor; simpl; auto; discriminate.
Qed.

Lemma step_Inv (input : PtyCodexRunInput) (e : Event) (s : Session) :
  Inv s -> Inv (step input e s).
Proof.
  intros I. destruct e; simpl.
  - apply onChunk_Inv; auto.
  - apply spawnResolved_Inv; auto.
  - apply responderResolved_Inv; auto.
  - apply responderRejected_Inv; auto.
  - apply reaction_Inv; auto.
  - apply waitResolved_Inv; auto.
  - apply pollTick_Inv; auto.
  - apply startRejected_Inv; auto.
  - apply startRejected_Inv; auto.
Qed.

Lemma run_app (input : PtyCodexRunInput) (e1 e2 : list Event) (s : Session) :
  run input (e1 ++ e2) s = run input e2 (run input e1 s).
Proof. unfold run. apply fold_left_app. Qed.

Lemma run_Inv (input : PtyCodexRunInput) (events : list Event) :
  forall s, Inv s -> Inv (run input events s).
Proof.
  induction events as [|e events IH]; intros s I; simpl; auto.
  apply IH, step_Inv, I.
Qed.

Lemma reachable_Inv (input : PtyCodexRunInput) (events : list Event) :
  Inv (run input events initialSession).
Proof. apply run_Inv, Inv_initial. Qed.

End WithImports.

Section Bridge.
Context `{Imports}.
Variable input : PtyCodexRunInput.


Lemma eqb_eq (a b : jsstring) : Js.eqb a b = true <-> a = b.
Proof.
  unfold Js.eqb. destruct (list_eq_dec N.eq_dec a b); split; congruence.
Qed.

Lemma maybeHandlePrompt_busy (now atMs : Z) (s : Session) :
  promptHandling s <> None \/ promptError s <> None \/ runStdin s = false ->
  maybeHandlePrompt input now atMs s = s.
Proof.
  unfold maybeHandlePrompt.
  destruct (promptHandling s); simpl; auto.
  destruct (promptError s); simpl; auto.
  destruct (runStdin s); simpl; auto.
  intros [F|[F|F]]; congruence.
Qed.

Lemma maybeHandlePrompt_duplicate (now atMs : Z) (s : Session)
    (prompt : PromptMatch.t) :
  detectInteractivePrompt (detectTail s) = Some prompt ->
  duplicateDetection prompt now s ->
  maybeHandlePrompt input now atMs s = s.
Proof.
  intros D (Sg & Tm). unfold maybeHandlePrompt. rewrite D.
  destruct (isSome (promptHandling s) || isSome (promptError s)
            || negb (runStdin s)); auto.
  apply eqb_eq in Sg. rewrite Sg. apply Z.ltb_lt in Tm. rewrite Tm.
  reflexivity.
Qed.

Lemma maybeHandlePrompt_dispatch (now atMs : Z) (s : Session)
    (prompt : PromptMatch.t) :
  idle s ->
  detectInteractivePrompt (detectTail s) = Some prompt ->
  ~ duplicateDetection prompt now s ->
  maybeHandlePrompt input now atMs s
  = startPromptHandling input prompt atMs
      (set_lastPromptAtMs now
         (set_lastPromptSignature (promptSignature prompt) s)).
Proof.
  intros (P & E & R) D ND. unfold maybeHandlePrompt.
  rewrite P, E, R, D. simpl.
  destruct (Js.eqb (promptSignature prompt) (lastPromptSignature s)) eqn:Sg;
    auto.
  destruct (now - lastPromptAtMs s <? 2000)%Z eqn:Tm; auto.
  exfalso. apply ND. split; [apply eqb_eq | apply Z.ltb_lt]; auto.
Qed.

(** What [maybeHandlePrompt] leaves alone when it does not dispatch, and
    what it changes when it does. *)
Lemma maybeHandlePrompt_cases (now atMs : Z) (s : Session) :
  maybeHandlePrompt input now atMs s = s
  \/ exists prompt,
       idle s
       /\ detectInteractivePrompt (detectTail s) = Some prompt
       /\ ~ duplicateDetection prompt now s
       /\ maybeHandlePrompt input now atMs s
          = startPromptHandling input prompt atMs
              (set_lastPromptAtMs now
                 (set_lastPromptSignature (promptSignature prompt) s)).
Proof.
  destruct (promptHandling s) eqn:P;
    [left; apply maybeHandlePrompt_busy; left; congruence|].
  destruct (promptError s) eqn:E;
    [left; apply maybeHandlePrompt_busy; right; left; congruence|].
  destruct (runStdin s) eqn:R;
    [|left; apply maybeHandlePrompt_busy; auto].
  destruct (detectInteractivePrompt (detectTail s)) as [prompt|] eqn:D.
  - destruct (Js.eqb (promptSignature prompt) (lastPromptSignature s)) eqn:Sg.
    + destruct (now - lastPromptAtMs s <? 2000)%Z eqn:Tm.
      * left. eapply maybeHandlePrompt_duplicate; [exact D|].
        split; [apply eqb_eq | apply Z.ltb_lt]; auto.
      * right. exists prompt. unfold idle. repeat split; auto.
        -- intros (_ & F). apply Z.ltb_lt in F. congruence.
        -- apply maybeHandlePrompt_dispatch; unfold idle; auto.
           intros (_ & F). apply Z.ltb_lt in F. congruence.
    + right. exists prompt. unfold idle. repeat split; auto.
      * intros (F & _). apply eqb_eq in F. congruence.
      * apply maybeHandlePrompt_dispatch; unfold idle; auto.
        intros (F & _). apply eqb_eq in F. congruence.
  - left. unfold maybeHandlePrompt. rewrite P, E, R, D. reflexivity.
Qed.

End Bridge.

Section MarkerFacts.
Context `{Imports}.
Variable input : PtyCodexRunInput.

Lemma absorbChunk_promptHandling (chunk : jsstring) (s : Session) :
  promptHandling (absorbChunk input chunk s) = promptHandling s.
Proof.
  unfold absorbChunk. unfold_ops. simpl.
  destruct (suppressUserOutput s); [|destruct (onOutput input)]; reflexivity.
Qed.

Lemma step_clears_marker (e : Event) (s : Session) :
  promptHandling s <> None ->
  promptHandling (step input e s) = None ->
  exists id, e = Reaction id /\ taskState id (tasks s) = Some Completing.
Proof.
  intros P Q. destruct e as [raw now atMs|r|id response atMs|id err|id|x| |rej|rej'];
    simpl in Q.
  - unfold onChunk in Q.
    destruct (sanitizeBinaryOutput raw) as [|c chunk] eqn:S; [congruence|].
    fold (absorbChunk input (c :: chunk) s) in Q.
    rewrite maybeHandlePrompt_busy in Q
      by (left; rewrite absorbChunk_promptHandling; exact P).
    rewrite absorbChunk_promptHandling in Q. congruence.
  - unfold spawnResolved in Q. destruct (control s); simpl in Q; congruence.
  - unfold responderResolved in Q.
    destruct (taskState id (tasks s)) as [[p| |]|]; try congruence.
    unfold_ops. simpl in Q.
    destruct (runStdin s); simpl in Q;
      destruct (suppressedOutput s); simpl in Q; try congruence;
      destruct (onOutput input); simpl in Q; congruence.
  - unfold responderRejected in Q.
    destruct (taskState id (tasks s)) as [[p| |]|]; try congruence.
    unfold_ops. simpl in Q.
    destruct (suppressedOutput s); simpl in Q; try congruence;
      destruct (onOutput input); simpl in Q; congruence.
  - unfold reaction in Q.
    destruct (taskState id (tasks s)) as [[p|err|]|] eqn:T; try congruence.
    + exfalso. unfold_ops. simpl in Q.
      destruct (cancelRun s); simpl in Q; congruence.
    + eauto.
  - unfold waitResolved in Q. destruct (control s); simpl in Q; try congruence.
    destruct (promptHandling s) eqn:P'; simpl in Q; congruence.
  - unfold pollTick in Q. destruct (control s); simpl in Q; congruence.
  - unfold startRejected in Q. destruct (control s); simpl in Q; congruence.
  - unfold startRejected in Q. destruct (control s); simpl in Q; congruence.
Qed.

End MarkerFacts.

(** Claim C9.  In every state of a session at most one prompt-handling task
    is in flight, and the marker [promptHandling] is set exactly while there
    is one; an attempt to start prompt handling while the marker is set, or
    a fatal prompt error is recorded, or the input channel of the child is
    not ready, changes nothing; and the marker is cleared only by the last
    reaction of the task in flight, which ends that task. *)
Theorem C9_single_flight {I : Imports} (input : PtyCodexRunInput)
    (events : list Event) :
  let s := run input events initialSession in
  length (tasks s) <= 1
  /\ (promptHandling s = None <-> tasks s = [])
  /\ (forall now atMs,
        promptHandling s <> None \/ promptError s <> None
        \/ runStdin s = false ->
        maybeHandlePrompt input now atMs s = s)
  /\ (forall e,
        promptHandling s <> None ->
        promptHandling (step input e s) = None ->
        exists id,
          e = Reaction id /\ tasks s = [(id, Completing)]
          /\ tasks (step input e s) = []).
Proof.
  intros s. assert (V : Inv s) by apply reachable_Inv.
  split; [|split; [|split]].
  - destruct V as [M _ _ _ _ _ _ _].
    destruct (promptHandling s); [destruct M as (st & ->) | rewrite M];
      simpl; lia.
  - destruct V as [M _ _ _ _ _ _ _]. split.
    + intros P. rewrite P in M. exact M.
    + intros T. destruct (promptHandling s); auto.
      destruct M as (st & M). congruence.
  - intros now atMs. apply maybeHandlePrompt_busy.
  - intros e P Q. destruct (step_clears_marker input e s P Q) as (id & -> & T).
    exists id. destruct (Inv_task id V T) as (Ts & _).
    repeat split; auto.
    assert (V' : Inv (step input (Reaction id) s)) by (apply step_Inv; auto).
    destruct V' as [M _ _ _ _ _ _ _]. rewrite Q in M. exact M.
Qed.

(** While the responder of a first prompt is being awaited, a second prompt
    in the tail starts nothing. *)
Lemma C9_single_flight_witness :
  let s := @run plainImports (exampleInput Off true)
             [SpawnResolved exampleRun;
              Output (lit "Proceed? (y/N) ") 1000 1000;
              Output ([10%N] ++ lit "Continue? (y/N) ") 4000 4000]
             initialSession in
  tasks s = [(0, AwaitingResponder
                   {| PromptMatch.kind := Confirm;
                      PromptMatch.text := lit "Proceed? (y/N)";
                      PromptMatch.safeAutoResponse := None |})]
  /\ @maybeHandlePrompt plainImports (exampleInput Off true) 9000 9000 s = s.
Proof.
  intros s. split; [vm_compute; reflexivity|].
  apply (@C9_single_flight plainImports (exampleInput Off true)
           [SpawnResolved exampleRun;
            Output (lit "Proceed? (y/N) ") 1000 1000;
            Output ([10%N] ++ lit "Continue? (y/N) ") 4000 4000]).
  left. vm_compute. discriminate.
Defined.

Ltac break_match :=
  repeat match goal with
         | |- context [match ?x with _ => _ end] =>
             match x with
             | context [match _ with _ => _ end] => fail 1
             | _ => destruct x eqn:?
             end
         end.

Ltac unfold_step :=
  unfold step, onChunk, maybeHandlePrompt, responderResolved,
    responderRejected, reaction, spawnResolved, waitResolved, pollTick,
    startRejected;
  unfold_ops.

Section DispatchFacts.
Context `{Imports}.
Variable input : PtyCodexRunInput.





End DispatchFacts.




(** ** Automatic answers *)

Lemma detect_safeAutoResponse `{Imports} (rawTail : jsstring)
    (prompt : PromptMatch.t) :
  detectInteractivePrompt rawTail = Some prompt ->
  safeResponseOrEmpty prompt = [].
Proof.
  unfold detectInteractivePrompt. destruct (recentLines rawTail); [discriminate|].
  break_match; intros D; inversion D; reflexivity.
Qed.

(** The automatic response to a prompt of the classifier does not end in a
    line feed, so that [ensureTrailingNewline] appends one. *)
Lemma auto_response_newline `{Imports} (mode : CodexRunAutoAnswerMode)
    (rawTail : jsstring) (prompt : PromptMatch.t) (response : jsstring) :
  detectInteractivePrompt rawTail = Some prompt ->
  resolveAutoResponse mode prompt = Some response ->
  ensureTrailingNewline response = response ++ [10%N].
Proof.
  intros D R. apply detect_safeAutoResponse in D.
  unfold resolveAutoResponse in R. rewrite D in R.
  destruct mode; destruct (PromptMatch.kind prompt); try discriminate;
    try (inversion R; reflexivity);
    destruct (test HIGH_RISK_CONFIRM_PATTERN (PromptMatch.text prompt));
    try discriminate; inversion R; reflexivity.
Qed.

(** Claim C8.  When the policy returns a response for a detected prompt
    that is dispatched, the bridge writes the response followed by a line
    feed to the input of the child, empties the detection tail, and appends
    one event with source [auto] that carries the kind and the text of the
    prompt and the response of the policy. *)
Theorem C8_auto_answer {I : Imports} (input : PtyCodexRunInput)
    (s : Session) (now atMs : Z) (prompt : PromptMatch.t)
    (response : jsstring) :
  idle s ->
  detectInteractivePrompt (detectTail s) = Some prompt ->
  ~ duplicateDetection prompt now s ->
  resolveAutoResponse (autoAnswer input) prompt = Some response ->
  let s' := maybeHandlePrompt input now atMs s in
  let event := {| PromptEvent.kind := PromptMatch.kind prompt;
                  PromptEvent.text := PromptMatch.text prompt;
                  PromptEvent.source := Auto;
                  PromptEvent.response := response;
                  PromptEvent.atMs := atMs |} in
  trace s' = trace s ++ [StdinWrite (response ++ [10%N]); EventPush event]
  /\ detectTail s' = []
  /\ promptEvents s' = promptEvents s ++ [event].
Proof.
  intros Id D ND R s' event. unfold s'.
  rewrite (@maybeHandlePrompt_dispatch I input now atMs s prompt Id D ND).
  destruct Id as (_ & _ & Rs).
  unfold_ops. rewrite R. simpl. rewrite Rs. simpl.
  rewrite (@auto_response_newline I _ _ _ _ D R), <- app_assoc.
  repeat split; reflexivity.
Qed.

Lemma C8_auto_answer_witness :
  let s := set_detectTail (lit "Proceed? (y/N) ")
             (spawnResolved exampleRun initialSession) in
  let s' := @maybeHandlePrompt plainImports (exampleInput Yolo false)
              1000 1001 s in
  trace s' =
  [StdinWrite (lit "y" ++ [10%N]);
   EventPush {| PromptEvent.kind := Confirm;
                PromptEvent.text := lit "Proceed? (y/N)";
                PromptEvent.source := Auto;
                PromptEvent.response := lit "y";
                PromptEvent.atMs := 1001 |}]
  /\ detectTail s' = [].
Proof.
  intros s s'.
  assert (Q := @C8_auto_answer plainImports (exampleInput Yolo false) s
                 1000%Z 1001%Z
                 {| PromptMatch.kind := Confirm;
                    PromptMatch.text := lit "Proceed? (y/N)";
                    PromptMatch.safeAutoResponse := None |}
                 (lit "y")
                 ltac:(repeat split; reflexivity)
                 ltac:(vm_compute; reflexivity)
                 ltac:(intros [F _]; vm_compute in F; discriminate)
                 ltac:(reflexivity)).
  cbv zeta in Q. destruct Q as (Q1 & Q2 & _). split; [exact Q1 | exact Q2].
Defined.

(** ** Transcript and detection tail *)

Lemma sliceLast_length {A} (n : N) (xs : list A) :
  (N.of_nat (length (sliceLast n xs)) <= n)%N.
Proof. unfold sliceLast. rewrite length_skipn. lia. Qed.

Lemma sliceLast_suffix {A} (n : N) (xs : list A) :
  isSuffixOf (sliceLast n xs) xs.
Proof.
  unfold sliceLast, isSuffixOf.
  exists (firstn (N.to_nat (N.of_nat (length xs) - n)) xs).
  symmetry. apply firstn_skipn.
Qed.

Lemma sliceLast_app {A} (n : N) (a b : list A) :
  sliceLast n (sliceLast n a ++ b) = sliceLast n (a ++ b).
Proof.
  unfold sliceLast.
  set (k := N.to_nat (N.of_nat (length a) - n)).
  assert (Hk : k <= length a) by (unfold k; lia).
  assert (E : skipn k a ++ b = skipn k (a ++ b)).
  { rewrite skipn_app. replace (k - length a) with 0 by lia. reflexivity. }
  rewrite E, skipn_skipn. f_equal.
  rewrite length_skipn, !length_app. unfold k. lia.
Qed.

Lemma isSuffixOf_app {A} (t whole extra : list A) :
  isSuffixOf t whole -> isSuffixOf (t ++ extra) (whole ++ extra).
Proof. intros (b & ->). exists b. symmetry. apply app_assoc. Qed.

Lemma isSuffixOf_trans {A} (a b c : list A) :
  isSuffixOf a b -> isSuffixOf b c -> isSuffixOf a c.
Proof. intros (x & ->) (y & ->). exists (y ++ x). apply app_assoc. Qed.

Lemma isSuffixOf_nil {A} (whole : list A) : isSuffixOf [] whole.
Proof. exists whole. symmetry. apply app_nil_r. Qed.

Section TranscriptFacts.
Context `{Imports}.
Variable input : PtyCodexRunInput.

Lemma outputChunks_app (e1 e2 : list Event) :
  outputChunks (e1 ++ e2) = outputChunks e1 ++ outputChunks e2.
Proof. unfold outputChunks. apply flat_map_app. Qed.

(** A step that is not a chunk leaves the transcript alone and leaves the
    detection tail alone or empties it. *)
Lemma step_transcript (e : Event) (s : Session) :
  match e with
  | Output rawChunk _ _ =>
      match sanitizeBinaryOutput rawChunk with
      | [] => transcript (step input e s) = transcript s
      | chunk =>
          transcript (step input e s)
          = sliceLast MAX_TRANSCRIPT_CHARS (transcript s ++ chunk)
      end
  | _ => transcript (step input e s) = transcript s
  end.
Proof.
  destruct e; unfold_step; break_match; simpl; auto; try discriminate.
Qed.

Lemma step_detectTail (e : Event) (s : Session) :
  detectTail (step input e s) = []
  \/ match e with
     | Output rawChunk _ _ =>
         match sanitizeBinaryOutput rawChunk with
         | [] => detectTail (step input e s) = detectTail s
         | chunk =>
             detectTail (step input e s)
             = sliceLast MAX_DETECTION_TAIL
                 (detectTail s ++ normalizeForPromptDetection chunk)
         end
     | _ => detectTail (step input e s) = detectTail s
     end.
Proof.
  destruct e; unfold_step; break_match; simpl; auto; try discriminate.
Qed.

Lemma run_snoc (events : list Event) (e : Event) (s : Session) :
  run input (events ++ [e]) s = step input e (run input events s).
Proof. rewrite run_app. reflexivity. Qed.

Lemma transcript_run (events : list Event) :
  transcript (run input events initialSession)
  = sliceLast MAX_TRANSCRIPT_CHARS (received events).
Proof.
  induction events as [|e events IH] using rev_ind; [reflexivity|].
  rewrite run_snoc. unfold received in *. rewrite outputChunks_app, concat_app.
  pose proof (step_transcript e (run input events initialSession)) as T.
  destruct e; simpl in T; simpl; rewrite ?app_nil_r;
    try (rewrite T; exact IH).
  destruct (sanitizeBinaryOutput rawChunk) as [|c chunk].
  - simpl. rewrite app_nil_r, T. exact IH.
  - rewrite T, IH. simpl. rewrite app_nil_r. apply sliceLast_app.
Qed.

Lemma detectTail_run (events : list Event) :
  isSuffixOf (detectTail (run input events initialSession))
    (receivedNormalized events)
  /\ (N.of_nat (length (detectTail (run input events initialSession)))
      <= MAX_DETECTION_TAIL)%N.
Proof.
  induction events as [|e events IH] using rev_ind.
  - split; [apply isSuffixOf_nil | simpl; unfold MAX_DETECTION_TAIL; lia].
  - rewrite run_snoc. destruct IH as [Suf Len].
    unfold receivedNormalized in *.
    rewrite outputChunks_app, map_app, concat_app.
    destruct (step_detectTail e (run input events initialSession)) as [E|T].
    { rewrite E. split; [apply isSuffixOf_nil|].
      simpl; unfold MAX_DETECTION_TAIL; lia. }
    assert (Keep : detectTail (step input e (run input events initialSession))
                   = detectTail (run input events initialSession) ->
                   outputChunks [e] = [] ->
                   isSuffixOf
                     (detectTail (step input e (run input events initialSession)))
                     (concat (map normalizeForPromptDetection
                                (outputChunks events))
                      ++ concat (map normalizeForPromptDetection
                                   (outputChunks [e])))
                   /\ (N.of_nat (length (detectTail
                         (step input e (run input events initialSession))))
                       <= MAX_DETECTION_TAIL)%N).
    { intros -> ->. simpl. rewrite app_nil_r. auto. }
    destruct e; try (apply Keep; [exact T | reflexivity]).
    simpl in T. simpl outputChunks in *.
    destruct (sanitizeBinaryOutput rawChunk) as [|c chunk].
    + apply Keep; [exact T | reflexivity].
    + simpl step. rewrite T. split; [|apply sliceLast_length].
      simpl. rewrite app_nil_r.
      eapply isSuffixOf_trans; [apply sliceLast_suffix|].
      apply isSuffixOf_app. exact Suf.
Qed.

End TranscriptFacts.

(** Claim C4, as the code has it.  In every state of a session the
    transcript has at most MAX_TRANSCRIPT_CHARS (600000) code units and is
    the suffix of that length of all the sanitized output received; the
    detection tail has at most MAX_DETECTION_TAIL (5000) code units and is a
    suffix of the received output after each chunk has been normalized for
    detection (escape sequences stripped, carriage returns turned into line
    feeds). *)
Theorem C4_bounded_suffixes {I : Imports} (input : PtyCodexRunInput)
    (events : list Event) :
  let s := run input events initialSession in
  (N.of_nat (length (transcript s)) <= 600000)%N
  /\ transcript s = sliceLast MAX_TRANSCRIPT_CHARS (received events)
  /\ isSuffixOf (transcript s) (received events)
  /\ (N.of_nat (length (detectTail s)) <= 5000)%N
  /\ isSuffixOf (detectTail s) (receivedNormalized events).
Proof.
  intros s. unfold s.
  destruct (detectTail_run input events) as [Suf Len].
  rewrite transcript_run.
  split; [apply (sliceLast_length MAX_TRANSCRIPT_CHARS)|].
  split; [reflexivity|].
  split; [apply sliceLast_suffix|].
  split; [exact Len | exact Suf].
Qed.

(** The claim as it is worded fails for the detection tail: after the chunk
    "a" followed by a carriage return, the tail holds "a" followed by a line
    feed, which is no suffix of the output received. *)
Lemma C4_counterexample :
  let events := [Output (lit "a" ++ [13%N]) 0 0] in
  let s := @run plainImports (exampleInput Off false) events initialSession in
  detectTail s = lit "a" ++ [10%N]
  /\ @received plainImports events = lit "a" ++ [13%N]
  /\ ~ isSuffixOf (detectTail s) (@received plainImports events).
Proof.
  intros events s. split; [reflexivity|]. split; [reflexivity|].
  intros (before & E). vm_compute in E.
  destruct before as [|x [|y [|z before]]]; simpl in E; discriminate.
Qed.

(** ** Suppression while a manual prompt is pending *)

Section SuppressionFacts.
Context `{Imports}.
Variable input : PtyCodexRunInput.

Lemma observed_app (t u : list Effect) :
  observed (t ++ u) = observed t ++ observed u.
Proof. unfold observed. apply flat_map_app. Qed.

Lemma pending_step (id : nat) (prompt : PromptMatch.t) (e : Event)
    (s : Session) :
  pendingManual id prompt s -> resolves id e = false ->
  pendingManual id prompt (step input e s)
  /\ observed (trace (step input e s)) = observed (trace s)
  /\ suppressedOutput (step input e s)
     = suppressedOutput s ++ concat (outputChunks [e])
  /\ promptEvents (step input e s) = promptEvents s.
Proof.
  unfold pendingManual. intros (Ts & P & Su & R & C) NR.
  destruct e as [raw now atMs|r|i response atMs|i err|i|x| |rej|rej']; simpl in *.
  - unfold onChunk. destruct (sanitizeBinaryOutput raw) as [|c chunk].
    + simpl. rewrite app_nil_r. auto 10.
    + fold (absorbChunk input (c :: chunk) s).
      rewrite maybeHandlePrompt_busy
        by (left; rewrite absorbChunk_promptHandling; congruence).
      unfold absorbChunk. unfold_ops. simpl. rewrite Su. simpl.
      rewrite observed_app, !app_nil_r. simpl. rewrite ?app_nil_r. auto 10.
  - unfold spawnResolved. rewrite app_nil_r.
    destruct (control s) eqn:Cs; simpl; rewrite ?Cs; try congruence;
      repeat split; auto; discriminate.
  - unfold responderResolved. rewrite Ts. simpl.
    rewrite Nat.eqb_sym, NR, app_nil_r. auto 10.
  - unfold responderRejected. rewrite Ts. simpl.
    rewrite Nat.eqb_sym, NR, app_nil_r. auto 10.
  - unfold reaction. rewrite Ts. simpl. rewrite app_nil_r.
    destruct (Nat.eqb id i); auto 10.
  - unfold waitResolved. rewrite app_nil_r, P.
    destruct (control s) eqn:Cs; simpl; rewrite ?Cs; auto 10;
      repeat split; auto; discriminate.
  - unfold pollTick, emit. rewrite app_nil_r.
    destruct (control s) eqn:Cs; simpl;
      rewrite ?observed_app, ?app_nil_r, ?Cs; auto 10;
      repeat split; auto; discriminate.
  - unfold startRejected. rewrite app_nil_r.
    destruct (control s) eqn:Cs; [congruence| | |];
      rewrite ?Cs; auto 10.
  - unfold startRejected. rewrite app_nil_r.
    destruct (control s) eqn:Cs; [congruence| | |];
      rewrite ?Cs; auto 10.
Qed.

Lemma pending_run (id : nat) (prompt : PromptMatch.t) (mid : list Event) :
  forall s,
    pendingManual id prompt s ->
    forallb (fun e => negb (resolves id e)) mid = true ->
    pendingManual id prompt (run input mid s)
    /\ observed (trace (run input mid s)) = observed (trace s)
    /\ suppressedOutput (run input mid s)
       = suppressedOutput s ++ concat (outputChunks mid)
    /\ promptEvents (run input mid s) = promptEvents s.
Proof.
  induction mid as [|e mid IH]; intros s Pn F.
  - simpl. rewrite app_nil_r. auto.
  - simpl in F. apply andb_true_iff in F. destruct F as [Fe Fm].
    apply negb_true_iff in Fe.
    destruct (pending_step e Pn Fe) as (Pn' & O' & B' & E').
    destruct (IH _ Pn' Fm) as (Pn'' & O'' & B'' & E'').
    change (run input (e :: mid) s) with (run input mid (step input e s)).
    change (e :: mid) with ([e] ++ mid).
    rewrite outputChunks_app, concat_app.
    split; [exact Pn''|]. split; [congruence|].
    split; [|congruence].
    rewrite B'', B', app_assoc. reflexivity.
Qed.

(** A chunk that arrives while nothing is suppressed leaves the suppression
    buffer as it is. *)
Lemma output_keeps_buffer (raw : jsstring) (now atMs : Z) (s : Session) :
  suppressUserOutput s = false ->
  suppressedOutput (step input (Output raw now atMs) s) = suppressedOutput s.
Proof.
  intros Su. simpl. unfold onChunk.
  destruct (sanitizeBinaryOutput raw) as [|c chunk]; auto.
  fold (absorbChunk input (c :: chunk) s).
  assert (A : suppressedOutput (absorbChunk input (c :: chunk) s)
              = suppressedOutput s).
  { unfold absorbChunk. unfold_ops. simpl. rewrite Su.
    destruct (onOutput input); reflexivity. }
  rewrite <- A.
  generalize (absorbChunk input (c :: chunk) s). intros s'.
  unfold maybeHandlePrompt. unfold_ops. break_match; simpl; auto.
Qed.

End SuppressionFacts.

(** Claim C6.  Let a chunk hand a prompt to the manual responder, so that
    suppression begins, and let the call be pending while further events
    arrive.  Then nothing is passed to the observer in the meantime and the
    buffer holds the chunks that arrived, concatenated in the order of their
    arrival.  When the call settles, with a response or with a failure,
    suppression ends, the buffer is passed to the observer in one call (if
    it is not empty and there is an observer) and is empty afterwards; with
    a response this call comes after the event with source [manual] has
    been appended. *)
Theorem C6_flush_after_manual_prompt {I : Imports} (input : PtyCodexRunInput)
    (events : list Event) (raw : jsstring) (now atMs : Z) (mid : list Event)
    (id : nat) (prompt : PromptMatch.t) :
  let s0 := run input events initialSession in
  let s1 := step input (Output raw now atMs) s0 in
  let s2 := run input mid s1 in
  let buffered := concat (outputChunks mid) in
  suppressUserOutput s0 = false ->
  taskState id (tasks s1) = Some (AwaitingResponder prompt) ->
  forallb (fun e => negb (resolves id e)) mid = true ->
  suppressUserOutput s2 = true
  /\ suppressedOutput s2 = buffered
  /\ observed (trace s2) = observed (trace s1)
  /\ (forall response at',
        let s3 := step input (ResponderResolved id response at') s2 in
        let event := {| PromptEvent.kind := PromptMatch.kind prompt;
                        PromptEvent.text := PromptMatch.text prompt;
                        PromptEvent.source := Manual;
                        PromptEvent.response := response;
                        PromptEvent.atMs := at' |} in
        trace s3 = trace s2
                   ++ [StdinWrite (ensureTrailingNewline response);
                       EventPush event]
                   ++ flushCall input buffered
        /\ promptEvents s3 = promptEvents s2 ++ [event]
        /\ suppressUserOutput s3 = false
        /\ suppressedOutput s3 = [])
  /\ (forall err,
        let s3 := step input (ResponderRejected id err) s2 in
        trace s3 = trace s2 ++ flushCall input buffered
        /\ promptEvents s3 = promptEvents s2
        /\ suppressUserOutput s3 = false
        /\ suppressedOutput s3 = []).
Proof.
  intros s0 s1 s2 buffered Su0 T1 NR.
  assert (V0 : Inv s0) by apply reachable_Inv.
  assert (V1 : Inv s1) by (apply step_Inv; exact V0).
  destruct (Inv_task id V1 T1) as (Ts1 & P1 & R1 & _).
  assert (B1 : suppressedOutput s1 = []).
  { unfold s1. rewrite output_keeps_buffer by exact Su0.
    destruct V0 as [_ _ _ _ _ Bu _ _]. auto. }
  assert (Pn1 : pendingManual id prompt s1).
  { unfold pendingManual. repeat split; auto.
    - destruct V1 as [_ _ _ _ Su _ _ _]. apply Su. eauto.
    - destruct V1 as [_ _ _ Sp _ _ _ _]. intros C. apply Sp in C. congruence. }
  destruct (pending_run input mid Pn1 NR) as (Pn2 & O2 & B2 & E2).
  fold s2 in Pn2, O2, B2, E2. rewrite B1 in B2. simpl in B2.
  destruct Pn2 as (Ts2 & P2 & Su2 & R2 & C2).
  split; [exact Su2|]. split; [exact B2|]. split; [exact O2|].
  fold buffered in B2. split.
  - intros response at' s3 event. unfold s3. simpl.
    unfold responderResolved. rewrite Ts2. simpl. rewrite eqb_refl_nat.
    unfold_ops. simpl. rewrite R2. simpl. rewrite <- B2. unfold flushCall.
    destruct (suppressedOutput s2) eqn:B3; [|destruct (onOutput input)];
      simpl; rewrite <- ?app_assoc; simpl; rewrite ?app_nil_r, ?B3; auto.
  - intros err s3. unfold s3. simpl.
    unfold responderRejected. rewrite Ts2. simpl. rewrite eqb_refl_nat.
    unfold_ops. simpl. rewrite <- B2. unfold flushCall.
    destruct (suppressedOutput s2) eqn:B3; [|destruct (onOutput input)];
      simpl; rewrite ?app_nil_r, ?B3; auto.
Qed.

(** Two chunks arrive while the responder is asked about "Proceed? (y/N)";
    when it answers "y" they reach the observer as one string, after the
    event. *)
Lemma C6_flush_after_manual_prompt_witness :
  let s2 := @run plainImports (exampleInput Off true)
              [SpawnResolved exampleRun;
               Output (lit "Proceed? (y/N) ") 1000 1000;
               Output (lit "one ") 1100 1100; Poll;
               Output (lit "two") 1200 1200]
              initialSession in
  let s3 := @step plainImports (exampleInput Off true)
              (ResponderResolved 0 (lit "y") 1500) s2 in
  trace s3 = trace s2
             ++ [StdinWrite (lit "y" ++ [10%N]);
                 EventPush {| PromptEvent.kind := Confirm;
                              PromptEvent.text := lit "Proceed? (y/N)";
                              PromptEvent.source := Manual;
                              PromptEvent.response := lit "y";
                              PromptEvent.atMs := 1500 |};
                 OnOutput (lit "one two")]
  /\ suppressedOutput s3 = [].
Proof.
  intros s2 s3.
  assert (Q := @C6_flush_after_manual_prompt plainImports
                 (exampleInput Off true) [SpawnResolved exampleRun]
                 (lit "Proceed? (y/N) ") 1000%Z 1000%Z
                 [Output (lit "one ") 1100 1100; Poll;
                  Output (lit "two") 1200 1200]
                 0
                 {| PromptMatch.kind := Confirm;
                    PromptMatch.text := lit "Proceed? (y/N)";
                    PromptMatch.safeAutoResponse := None |}
                 ltac:(reflexivity)
                 ltac:(vm_compute; reflexivity)
                 ltac:(reflexivity)).
  cbv zeta in Q. destruct Q as (_ & _ & _ & Q & _).
  destruct (Q (lit "y") 1500%Z) as (Q1 & _ & _ & Q4).
  vm_compute in Q1, Q4. vm_compute. split; [exact Q1 | exact Q4].
Defined.

(** ** Fatal prompt errors *)

Section FatalFacts.
Context `{Imports}.
Variable input : PtyCodexRunInput.

Lemma trace_grows (ev : Event) (s : Session) :
  exists t, trace (step input ev s) = trace s ++ t.
Proof.
  destruct ev; unfold_step; break_match; simpl;
    try (exists []; rewrite app_nil_r; reflexivity);
    rewrite <- ?app_assoc; eauto.
Qed.

Lemma settled_sticky (ev : Event) (s : Session) (o : Outcome) :
  control s = Settled o -> control (step input ev s) = Settled o.
Proof.
  intros C. destruct ev; unfold_step; rewrite ?C; break_match; simpl in *;
    auto; congruence.
Qed.

Lemma absorbChunk_fields (chunk : jsstring) (s : Session) :
  tasks (absorbChunk input chunk s) = tasks s
  /\ promptError (absorbChunk input chunk s) = promptError s
  /\ control (absorbChunk input chunk s) = control s.
Proof.
  unfold absorbChunk. unfold_ops. simpl.
  destruct (suppressUserOutput s); [|destruct (onOutput input)]; simpl; auto.
Qed.

Lemma Inv_single (s : Session) (id : nat) (st : TaskState) :
  Inv s -> tasks s = [(id, st)] ->
  promptHandling s = Some id /\ runStdin s = true /\ cancelRun s = true
  /\ control s <> AwaitSpawn
  /\ (forall r x a, control s = AwaitPromptHandling r x a -> a = id).
Proof.
  intros V Ts.
  assert (T : taskState id (tasks s) = Some st).
  { rewrite Ts. simpl. rewrite eqb_refl_nat. reflexivity. }
  destruct (Inv_task id V T) as (_ & P & R & Cn).
  destruct V as [_ _ _ Sp _ _ Aw _].
  repeat split; auto.
  - intros C. apply Sp in C. congruence.
  - intros r x a C. apply Aw in C. congruence.
Qed.

(** With the task rejected and the session running, a step either leaves
    the task and the recorded error as they are, or runs the [.catch]
    handler. *)
Lemma rejected_step (ev : Event) (s : Session) (id : nat) (e : JsValue) :
  Inv s -> tasks s = [(id, Rejected e)] -> unsettled s ->
  unsettled (step input ev s)
  /\ ((tasks (step input ev s) = tasks s
       /\ promptError (step input ev s) = promptError s)
      \/ (promptError (step input ev s) = Some (asError e)
          /\ In CancelRun (trace (step input ev s)))).
Proof.
  intros V Ts U. destruct (Inv_single V Ts) as (P & R & Cn & Cs & Aw).
  unfold unsettled in *.
  destruct ev as [raw now atMs|r|i response atMs|i err|i|x| |rej|rej']; simpl.
  - unfold onChunk. destruct (sanitizeBinaryOutput raw) as [|c chunk]; auto.
    fold (absorbChunk input (c :: chunk) s).
    rewrite maybeHandlePrompt_busy
      by (left; rewrite absorbChunk_promptHandling; congruence).
    destruct (absorbChunk_fields (c :: chunk) s) as (A1 & A2 & A3).
    rewrite A1, A2, A3. auto.
  - unfold spawnResolved. destruct (control s) eqn:C; simpl; rewrite ?C; auto.
  - unfold responderResolved. rewrite Ts. simpl.
    destruct (Nat.eqb id i); auto.
  - unfold responderRejected. rewrite Ts. simpl.
    destruct (Nat.eqb id i); auto.
  - unfold reaction. rewrite Ts. simpl.
    destruct (Nat.eqb id i); auto.
    unfold_ops. simpl. rewrite Cn. simpl. split; auto.
    right. split; auto. apply in_or_app. right. left. reflexivity.
  - unfold waitResolved. rewrite P.
    destruct (control s) eqn:C; simpl; rewrite ?C; auto.
  - unfold pollTick. unfold_ops.
    destruct (control s) eqn:C; simpl; rewrite ?C; auto.
  - unfold startRejected.
    destruct (control s) eqn:C; simpl; rewrite ?C; auto; congruence.
  - unfold startRejected.
    destruct (control s) eqn:C; simpl; rewrite ?C; auto; congruence.
Qed.

Lemma startPromptHandling_control (prompt : PromptMatch.t) (atMs : Z)
    (s : Session) :
  control (startPromptHandling input prompt atMs s) = control s.
Proof.
  unfold_ops.
  destruct (resolveAutoResponse (autoAnswer input) prompt);
    [destruct (runStdin s)|destruct (promptResponder input)]; reflexivity.
Qed.

(** Once [spawn] has resolved, the session does not await it again. *)
Lemma started_step (ev : Event) (s : Session) :
  control s <> AwaitSpawn -> control (step input ev s) <> AwaitSpawn.
Proof.
  intros N.
  assert (Same : forall s', control s' = control s ->
                            control s' <> AwaitSpawn) by congruence.
  destruct ev as [raw now atMs|r|i response atMs|i err|i|x| |rej|rej'];
    simpl.
  - unfold onChunk. destruct (sanitizeBinaryOutput raw) as [|c chunk]; auto.
    fold (absorbChunk input (c :: chunk) s).
    destruct (absorbChunk_fields (c :: chunk) s) as (_ & _ & A3).
    destruct (maybeHandlePrompt_cases input now atMs
                (absorbChunk input (c :: chunk) s))
      as [E|(p & _ & _ & _ & E)]; rewrite E; [congruence|].
    apply Same. rewrite startPromptHandling_control. exact A3.
  - unfold spawnResolved.
    destruct (control s) eqn:C; simpl; rewrite ?C; congruence.
  - unfold responderResolved.
    destruct (taskState i (tasks s)) as [[p| |]|]; auto.
    apply Same. unfold_ops. simpl.
    destruct (runStdin s); simpl;
      (destruct (suppressedOutput s); simpl; [reflexivity|]);
      destruct (onOutput input); reflexivity.
  - unfold responderRejected.
    destruct (taskState i (tasks s)) as [[p| |]|]; auto.
    apply Same. unfold_ops. simpl.
    destruct (suppressedOutput s); simpl; [reflexivity|].
    destruct (onOutput input); reflexivity.
  - unfold reaction.
    destruct (taskState i (tasks s)) as [[p|err|]|]; auto.
    + apply Same. unfold_ops. simpl. destruct (cancelRun s); reflexivity.
    + simpl. destruct (control s) as [|?|? ? task|?] eqn:C; simpl;
        rewrite ?C; try discriminate; try congruence.
      destruct (Nat.eqb task i); simpl; rewrite ?C; discriminate.
  - unfold waitResolved.
    destruct (control s) eqn:C; simpl; rewrite ?C; try discriminate;
      try congruence.
    destruct (promptHandling s); simpl; discriminate.
  - unfold pollTick.
    destruct (control s) eqn:C; simpl; rewrite ?C; auto; discriminate.
  - unfold startRejected.
    destruct (control s) eqn:C; simpl; rewrite ?C; congruence.
  - unfold startRejected.
    destruct (control s) eqn:C; simpl; rewrite ?C; congruence.
Qed.

(** Once the error is recorded it stays, and the session can only settle
    by throwing it. *)
Lemma error_step (ev : Event) (s : Session) (x : JsValue) :
  Inv s -> promptError s = Some x -> unsettled s ->
  control s <> AwaitSpawn ->
  promptError (step input ev s) = Some x
  /\ (unsettled (step input ev s)
      \/ control (step input ev s) = Settled (Threw x)).
Proof.
  intros V E U NS. destruct V as [M St Ca Sp Su Bu Aw Er].
  destruct (Er x E) as (_ & AllC). unfold unsettled in *.
  assert (NoTask : forall i st, taskState i (tasks s) = Some st ->
                                st = Completing).
  { intros i st T. apply (AllC i). clear - T.
    induction (tasks s) as [|[j st'] l IH]; simpl in *; [discriminate|].
    destruct (Nat.eqb_spec j i); [inversion T; subst; auto | auto]. }
  destruct ev as [raw now atMs|r|i response atMs|i err|i|ex| |rej|rej']; simpl.
  - unfold onChunk. destruct (sanitizeBinaryOutput raw) as [|c chunk]; auto.
    fold (absorbChunk input (c :: chunk) s).
    destruct (absorbChunk_fields (c :: chunk) s) as (A1 & A2 & A3).
    rewrite maybeHandlePrompt_busy by (right; left; congruence).
    rewrite A2, A3. auto.
  - unfold spawnResolved.
    destruct (control s) eqn:C; simpl; rewrite ?C; auto.
  - unfold responderResolved.
    destruct (taskState i (tasks s)) as [[p| |]|] eqn:T; auto.
    apply NoTask in T. discriminate.
  - unfold responderRejected.
    destruct (taskState i (tasks s)) as [[p| |]|] eqn:T; auto.
    apply NoTask in T. discriminate.
  - unfold reaction.
    destruct (taskState i (tasks s)) as [[p|err|]|] eqn:T; auto.
    + apply NoTask in T. discriminate.
    + simpl. destruct (control s) eqn:C; simpl; rewrite ?C; auto.
      destruct (Nat.eqb task i); simpl; rewrite ?C; auto.
      unfold finish, emit. simpl. rewrite E. auto.
  - unfold waitResolved.
    destruct (control s) eqn:C; simpl; rewrite ?C; auto.
    destruct (promptHandling s); simpl; auto.
    unfold finish, emit. simpl. rewrite E. auto.
  - unfold pollTick. unfold_ops.
    destruct (control s) eqn:C; simpl; rewrite ?C; auto.
  - unfold startRejected.
    destruct (control s) eqn:C; simpl; rewrite ?C; auto; congruence.
  - unfold startRejected.
    destruct (control s) eqn:C; simpl; rewrite ?C; auto; congruence.
Qed.

Lemma doomed_step (ev : Event) (s : Session) (e : JsValue) :
  Inv s -> doomed e s -> doomed e (step input ev s).
Proof.
  intros V D. unfold doomed in D.
  destruct (trace_grows ev s) as (t & Tr).
  destruct (control s) as [|r|r x a|[res|err]] eqn:C;
    try contradiction.
  3: { unfold doomed. rewrite (settled_sticky ev s C), Tr.
       destruct D. auto with session. }
  all: assert (U : unsettled s) by (unfold unsettled; rewrite C; exact Logic.I).
  all: assert (NS : control s <> AwaitSpawn) by (rewrite C; discriminate).
  all: assert (NS' := @started_step ev s NS).
  all: destruct D as [(id & Ts & E)|(E & Ic)].
  all: try (destruct (rejected_step ev V Ts U) as (U' & [(Ts' & E')|(E' & Ic')]);
            unfold doomed; unfold unsettled in U';
            destruct (control (step input ev s)) as [|?|? ? ?|[?|?]];
            try contradiction; try congruence;
            solve [ left; exists id; split; congruence | right; auto ]).
  all: destruct (@error_step ev s _ V E U NS) as (E' & [U'|S']);
    unfold doomed;
    [ unfold unsettled in U';
      destruct (control (step input ev s)) as [|?|? ? ?|[?|?]];
      try contradiction; try congruence; right; rewrite Tr; auto with session
    | rewrite S'; rewrite Tr; auto with session ].
Qed.

Lemma doomed_run (events : list Event) (e : JsValue) :
  forall s, Inv s -> doomed e s -> doomed e (run input events s).
Proof.
  induction events as [|ev events IH]; intros s V D; simpl; auto.
  apply IH; [apply step_Inv; exact V | apply doomed_step; auto].
Qed.

End FatalFacts.

(** Claim C3.  A prompt that the policy defers while no responder is
    configured, and a responder that throws or whose promise is rejected,
    leave the prompt task rejected with that error.  Whenever that happens
    in a running session, the session never returns a result: if it settles
    it throws that error (as an [Error]) after having asked the supervisor
    to cancel the run; and it does settle so once the two reactions of the
    task have run and the process has exited, whatever the exit status, a
    clean exit with code 0 included. *)
Theorem C3_fatal_prompt_error {I : Imports} (input : PtyCodexRunInput) :
  (forall s now atMs prompt,
     idle s ->
     detectInteractivePrompt (detectTail s) = Some prompt ->
     ~ duplicateDetection prompt now s ->
     resolveAutoResponse (autoAnswer input) prompt = None ->
     promptResponder input = false ->
     tasks (maybeHandlePrompt input now atMs s)
     = tasks s ++ [(nextTask s, Rejected (noResponderError prompt))])
  /\ (forall s id prompt err,
        tasks s = [(id, AwaitingResponder prompt)] ->
        tasks (step input (ResponderRejected id err) s)
        = [(id, Rejected err)])
  /\ (forall events id e,
        let s := run input events initialSession in
        unsettled s ->
        In (id, Rejected e) (tasks s) ->
        (forall later,
           match runPtyCodexSession input (events ++ later) with
           | Some (Returned _) => False
           | Some (Threw err) =>
               err = asError e
               /\ In CancelRun
                    (trace (run input (events ++ later) initialSession))
           | None => True
           end)
        /\ (forall exit,
              runPtyCodexSession input
                (events ++ [Reaction id; Reaction id; WaitResolved exit])
              = Some (Threw (asError e)))).
Proof.
  split; [|split].
  - intros s now atMs prompt Id D ND R NoR.
    rewrite (@maybeHandlePrompt_dispatch I input now atMs s prompt Id D ND).
    unfold_ops. rewrite R, NoR. reflexivity.
  - intros s id prompt err Ts. simpl. unfold responderRejected.
    rewrite Ts. simpl. rewrite eqb_refl_nat. unfold_ops. simpl.
    break_match; simpl; rewrite Ts; simpl; rewrite eqb_refl_nat; reflexivity.
  - intros events id e s U T.
    assert (V : Inv s) by apply reachable_Inv.
    assert (Ts : tasks s = [(id, Rejected e)]).
    { destruct V as [M _ _ _ _ _ _ _].
      destruct (promptHandling s); [|rewrite M in T; destruct T].
      destruct M as (st & M). rewrite M in T. destruct T as [T|[]].
      inversion T; subst. exact M. }
    destruct (Inv_single V Ts) as (P & R & Cn & Cs & Aw).
    assert (E0 : promptError s = None).
    { destruct (promptError s) as [x|] eqn:E; auto.
      destruct V as [_ _ _ _ _ _ _ Er]. destruct (Er x E) as (_ & AllC).
      specialize (AllC id (Rejected e) T). discriminate. }
    assert (D : doomed e s).
    { unfold doomed. unfold unsettled in U.
      destruct (control s) as [|?|? ? ?|?]; try contradiction; eauto. }
    split.
    + intros later. unfold runPtyCodexSession. rewrite run_app. fold s.
      pose proof (@doomed_run I input later e s V D) as D'. unfold doomed in D'.
      destruct (control (run input later s)) as [|?|? ? ?|[?|?]]; auto.
    + intros exit. unfold runPtyCodexSession. rewrite run_app. fold s.
      change (run input [Reaction id; Reaction id; WaitResolved exit] s)
        with (step input (WaitResolved exit)
                (step input (Reaction id) (step input (Reaction id) s))).
      assert (S1 : step input (Reaction id) s
                   = set_tasks [(id, Completing)]
                       (emit CancelRun
                          (set_promptError (Some (asError e)) s))).
      { simpl. unfold reaction. rewrite Ts. simpl. rewrite eqb_refl_nat.
        unfold callCancelRun. simpl. rewrite Cn. simpl. rewrite Ts. simpl.
        rewrite eqb_refl_nat. reflexivity. }
      rewrite S1. clear S1.
      set (s1 := set_tasks [(id, Completing)]
                   (emit CancelRun (set_promptError (Some (asError e)) s))).
      assert (S2 : step input (Reaction id) s1
                   = match control s with
                     | AwaitPromptHandling r x _ =>
                         finish input r x
                           (set_tasks [] (set_promptHandling None s1))
                     | _ => set_tasks [] (set_promptHandling None s1)
                     end).
      { simpl. unfold reaction. unfold s1 at 1. simpl. rewrite eqb_refl_nat.
        simpl.
        destruct (control s) as [|r|r x a|o] eqn:C; try reflexivity.
        rewrite (Aw r x a eq_refl), eqb_refl_nat. reflexivity. }
      rewrite S2. clear S2. unfold unsettled in U.
      destruct (control s) as [|r|r x a|o] eqn:C; try contradiction;
        try congruence.
      * simpl. unfold waitResolved. simpl. rewrite C. simpl. reflexivity.
      * reflexivity.
Qed.

(** The prompt "Proceed? (y/N)" in mode [off] without a responder: the
    session throws although the process exits with code 0. *)
Lemma C3_fatal_prompt_error_witness :
  @runPtyCodexSession plainImports (exampleInput Off false)
    ([SpawnResolved exampleRun; Output (lit "Proceed? (y/N) ") 1000 1000]
     ++ [Reaction 0; Reaction 0; WaitResolved cleanExit])
  = Some (Threw (noResponderError
                   {| PromptMatch.kind := Confirm;
                      PromptMatch.text := lit "Proceed? (y/N)";
                      PromptMatch.safeAutoResponse := None |})).
Proof.
  destruct (@C3_fatal_prompt_error plainImports (exampleInput Off false))
    as (_ & _ & Q).
  destruct (Q [SpawnResolved exampleRun;
               Output (lit "Proceed? (y/N) ") 1000 1000]
              0
              (noResponderError
                 {| PromptMatch.kind := Confirm;
                    PromptMatch.text := lit "Proceed? (y/N)";
                    PromptMatch.safeAutoResponse := None |})
              ltac:(vm_compute; exact Logic.I)
              ltac:(vm_compute; left; reflexivity)) as (_ & Q2).
  exact (Q2 cleanExit).
Defined.

(** * Further properties of the session bridge *)

Section TraceFacts.
Context `{Imports}.
Variable input : PtyCodexRunInput.

Lemma streamWrites_app (t u : list Effect) :
  streamWrites (t ++ u) = streamWrites t ++ streamWrites u.
Proof. unfold streamWrites. apply flat_map_app. Qed.

Lemma stdinWrites_app (t u : list Effect) :
  stdinWrites (t ++ u) = stdinWrites t ++ stdinWrites u.
Proof. unfold stdinWrites. apply flat_map_app. Qed.

Lemma pushedEvents_app (t u : list Effect) :
  pushedEvents (t ++ u) = pushedEvents t ++ pushedEvents u.
Proof. unfold pushedEvents. apply flat_map_app. Qed.

Lemma responderCalls_app (t u : list Effect) :
  responderCalls (t ++ u) = responderCalls t ++ responderCalls u.
Proof. unfold responderCalls. apply flat_map_app. Qed.

Lemma cancelCount_app (t u : list Effect) :
  cancelCount (t ++ u) = cancelCount t + cancelCount u.
Proof. unfold cancelCount. rewrite filter_app, length_app. reflexivity. Qed.

Lemma streamEndCount_app (t u : list Effect) :
  streamEndCount (t ++ u) = streamEndCount t + streamEndCount u.
Proof. unfold streamEndCount. rewrite filter_app, length_app. reflexivity. Qed.

Lemma step_streamWrites (e : Event) (s : Session) :
  streamWrites (trace (step input e s))
  = streamWrites (trace s) ++ outputChunks [e].
Proof.
  destruct e; unfold_step; unfold outputChunks; simpl;
    break_match; simpl; rewrite ?streamWrites_app; simpl;
    rewrite ?app_nil_r; try reflexivity; try discriminate.
Qed.

Lemma run_streamWrites (events : list Event) : forall s,
  streamWrites (trace (run input events s))
  = streamWrites (trace s) ++ outputChunks events.
Proof.
  induction events as [|e events IH]; intros s.
  - simpl. rewrite app_nil_r. reflexivity.
  - change (run input (e :: events) s) with (run input events (step input e s)).
    rewrite IH, step_streamWrites, <- app_assoc.
    change (e :: events) with ([e] ++ events).
    rewrite outputChunks_app. reflexivity.
Qed.

End TraceFacts.

(** Property X1.  The log stream receives every non-empty sanitized chunk,
    once and in the order of arrival, whether output is being suppressed or
    not and whatever prompt handling does. *)
Theorem X1_log_is_complete {I : Imports} (input : PtyCodexRunInput)
    (events : list Event) :
  streamWrites (trace (run input events initialSession))
  = outputChunks events.
Proof. apply (run_streamWrites input events initialSession). Qed.

Section ObserverFacts.
Context `{Imports}.
Variable input : PtyCodexRunInput.

Lemma maybeHandlePrompt_quiet (now atMs : Z) (s : Session) :
  observed (trace (maybeHandlePrompt input now atMs s)) = observed (trace s)
  /\ suppressedOutput (maybeHandlePrompt input now atMs s)
     = suppressedOutput s.
Proof.
  unfold maybeHandlePrompt. unfold_ops.
  break_match; simpl; rewrite ?observed_app; simpl; rewrite ?app_nil_r; auto.
Qed.

Lemma step_observed (e : Event) (s : Session) :
  Inv s -> onOutput input = true ->
  concat (observed (trace (step input e s))) ++ suppressedOutput (step input e s)
  = (concat (observed (trace s)) ++ suppressedOutput s)
    ++ concat (outputChunks [e]).
Proof.
  intros V On. destruct V as [_ _ _ _ _ Bu _ _].
  destruct e as [raw now atMs|r|i response atMs|i err|i|x| |rej|rej']; simpl.
  - unfold onChunk. destruct (sanitizeBinaryOutput raw) as [|c chunk] eqn:S.
    + simpl. rewrite app_nil_r. reflexivity.
    + fold (absorbChunk input (c :: chunk) s).
      destruct (maybeHandlePrompt_quiet now atMs
                  (absorbChunk input (c :: chunk) s)) as (Q1 & Q2).
      rewrite Q1, Q2. unfold absorbChunk. unfold_ops. simpl. rewrite On.
      destruct (suppressUserOutput s) eqn:Su; simpl.
      * rewrite observed_app. simpl. rewrite !app_nil_r, <- !app_assoc.
        reflexivity.
      * rewrite (Bu eq_refl). rewrite !observed_app. simpl.
        rewrite !concat_app. simpl. rewrite !app_nil_r. reflexivity.
  - unfold spawnResolved. rewrite app_nil_r. destruct (control s); reflexivity.
  - unfold responderResolved. rewrite app_nil_r.
    destruct (taskState i (tasks s)) as [[p| |]|]; try reflexivity.
    unfold_ops. rewrite On. simpl.
    destruct (runStdin s); simpl; destruct (suppressedOutput s) eqn:B; simpl;
      rewrite ?observed_app, ?concat_app; simpl;
      rewrite ?B, ?app_nil_r; simpl; rewrite ?app_nil_r; reflexivity.
  - unfold responderRejected. rewrite app_nil_r.
    destruct (taskState i (tasks s)) as [[p| |]|]; try reflexivity.
    unfold_ops. rewrite On. simpl.
    destruct (suppressedOutput s) eqn:B; simpl;
      rewrite ?observed_app, ?concat_app; simpl;
      rewrite ?B, ?app_nil_r; simpl; rewrite ?app_nil_r; reflexivity.
  - unfold reaction. rewrite app_nil_r. unfold_ops.
    break_match; simpl; rewrite ?observed_app; simpl; rewrite ?app_nil_r;
      reflexivity.
  - unfold waitResolved. rewrite app_nil_r. unfold_ops.
    break_match; simpl; rewrite ?observed_app; simpl; rewrite ?app_nil_r;
      reflexivity.
  - unfold pollTick. rewrite app_nil_r. unfold_ops.
    break_match; simpl; rewrite ?observed_app; simpl; rewrite ?app_nil_r;
      reflexivity.
  - unfold startRejected. rewrite app_nil_r. destruct (control s); reflexivity.
  - unfold startRejected. rewrite app_nil_r. destruct (control s); reflexivity.
Qed.

Lemma step_unobserved (e : Event) (s : Session) :
  onOutput input = false ->
  observed (trace (step input e s)) = observed (trace s).
Proof.
  intros Off. destruct e; unfold_step; rewrite ?Off;
    break_match; simpl; rewrite ?observed_app; simpl; rewrite ?app_nil_r;
    reflexivity.
Qed.

Lemma run_observed (events : list Event) : forall s,
  Inv s -> onOutput input = true ->
  concat (observed (trace (run input events s)))
  ++ suppressedOutput (run input events s)
  = (concat (observed (trace s)) ++ suppressedOutput s) ++ received events.
Proof.
  unfold received.
  induction events as [|e events IH]; intros s V On.
  - simpl. rewrite app_nil_r. reflexivity.
  - change (run input (e :: events) s) with (run input events (step input e s)).
    rewrite IH by (auto; apply step_Inv; auto).
    rewrite step_observed by auto.
    change (e :: events) with ([e] ++ events).
    rewrite outputChunks_app, concat_app, <- !app_assoc. reflexivity.
Qed.

Lemma run_unobserved (events : list Event) : forall s,
  onOutput input = false ->
  observed (trace (run input events s)) = observed (trace s).
Proof.
  induction events as [|e events IH]; intros s Off; [reflexivity|].
  change (run input (e :: events) s) with (run input events (step input e s)).
  rewrite IH, step_unobserved by auto. reflexivity.
Qed.

End ObserverFacts.

(** Property X2.  With an output observer, what has been passed to it,
    followed by what is held in the suppression buffer, is at every moment
    exactly the output received so far: nothing is lost, repeated or
    reordered.  Without an observer nothing is passed on. *)
Theorem X2_observer_conservation {I : Imports} (input : PtyCodexRunInput)
    (events : list Event) :
  let s := run input events initialSession in
  if onOutput input
  then concat (observed (trace s)) ++ suppressedOutput s = received events
  else observed (trace s) = [].
Proof.
  intros s. destruct (onOutput input) eqn:On.
  - apply (run_observed input events Inv_initial On).
  - apply (run_unobserved input events initialSession On).
Qed.

(** Property X3.  The suppression buffer is non-empty only while a call of
    the manual responder is outstanding. *)
Theorem X3_buffer_only_while_pending {I : Imports} (input : PtyCodexRunInput)
    (events : list Event) :
  let s := run input events initialSession in
  suppressedOutput s <> [] ->
  suppressUserOutput s = true
  /\ exists id prompt, tasks s = [(id, AwaitingResponder prompt)].
Proof.
  intros s Ne. destruct (reachable_Inv input events) as [_ _ _ _ Su Bu _ _].
  fold s in Su, Bu.
  destruct (suppressUserOutput s) eqn:E;
    [|specialize (Bu eq_refl); contradiction].
  split; [reflexivity | apply Su; reflexivity].
Qed.

(** While the responder is asked about "Proceed? (y/N)", the chunk "one" is
    held back. *)
Lemma X3_buffer_only_while_pending_witness :
  let s := @run plainImports (exampleInput Off true)
             [SpawnResolved exampleRun;
              Output (lit "Proceed? (y/N) ") 1000 1000;
              Output (lit "one") 1100 1100]
             initialSession in
  suppressUserOutput s = true
  /\ exists id prompt, tasks s = [(id, AwaitingResponder prompt)].
Proof.
  assert (Ne : suppressedOutput
                 (@run plainImports (exampleInput Off true)
                    [SpawnResolved exampleRun;
                     Output (lit "Proceed? (y/N) ") 1000 1000;
                     Output (lit "one") 1100 1100]
                    initialSession) <> [])
    by (vm_compute; discriminate).
  exact (@X3_buffer_only_while_pending plainImports (exampleInput Off true)
           [SpawnResolved exampleRun;
            Output (lit "Proceed? (y/N) ") 1000 1000;
            Output (lit "one") 1100 1100] Ne).
Defined.

Section AccountingFacts.
Context `{Imports}.
Variable input : PtyCodexRunInput.

Ltac trace_simpl :=
  simpl;
  rewrite ?stdinWrites_app, ?pushedEvents_app, ?responderCalls_app,
    ?cancelCount_app, ?streamEndCount_app, ?streamWrites_app, ?observed_app,
    ?map_app;
  simpl; rewrite ?app_nil_r, ?Nat.add_0_r.

Ltac break_simpl :=
  repeat (simpl;
          match goal with
          | |- context [match ?x with _ => _ end] =>
              match x with
              | context [match _ with _ => _ end] => fail 1
              | _ => destruct x eqn:?
              end
          end).

Lemma startPromptHandling_paired (prompt : PromptMatch.t) (atMs : Z)
    (s : Session) :
  runStdin s = true -> paired s ->
  paired (startPromptHandling input prompt atMs s).
Proof.
  unfold paired. intros R (P1 & P2). unfold_ops.
  destruct (resolveAutoResponse (autoAnswer input) prompt);
    [|destruct (promptResponder input)]; simpl; rewrite ?R; trace_simpl;
    rewrite ?P1, ?P2; auto.
Qed.

Lemma step_paired (e : Event) (s : Session) :
  Inv s -> paired s -> paired (step input e s).
Proof.
  intros V P. destruct e as [raw now atMs|r|i response atMs|i err|i|x| |rej|rej']; simpl.
  - unfold onChunk. destruct (sanitizeBinaryOutput raw) as [|c chunk]; auto.
    fold (absorbChunk input (c :: chunk) s).
    assert (Pa : paired (absorbChunk input (c :: chunk) s)).
    { unfold paired in *. destruct P as (P1 & P2).
      unfold absorbChunk. unfold_ops.
      break_match; trace_simpl; auto. }
    destruct (maybeHandlePrompt_cases input now atMs
                (absorbChunk input (c :: chunk) s))
      as [E|(p & (_ & _ & R) & _ & _ & E)]; rewrite E; auto.
    apply startPromptHandling_paired; auto.
  - unfold spawnResolved. destruct (control s); auto.
  - unfold responderResolved.
    destruct (taskState i (tasks s)) as [[p| |]|] eqn:T; auto.
    destruct (Inv_task i V T) as (_ & _ & R & _).
    unfold paired in *. destruct P as (P1 & P2). unfold_ops. rewrite R.
    break_match; trace_simpl; rewrite ?P1, ?P2; auto.
  - unfold responderRejected.
    destruct (taskState i (tasks s)) as [[p| |]|] eqn:T; auto.
    unfold paired in *. destruct P as (P1 & P2). unfold_ops.
    break_match; trace_simpl; auto.
  - unfold paired in *. destruct P as (P1 & P2). unfold reaction. unfold_ops.
    break_match; trace_simpl; auto.
  - unfold paired in *. destruct P as (P1 & P2). unfold waitResolved.
    unfold_ops. break_match; trace_simpl; auto.
  - unfold paired in *. destruct P as (P1 & P2). unfold pollTick.
    unfold_ops. break_match; trace_simpl; auto.
  - unfold startRejected. destruct (control s); exact P.
  - unfold startRejected. destruct (control s); exact P.
Qed.

Lemma run_paired (events : list Event) : forall s,
  Inv s -> paired s -> paired (run input events s).
Proof.
  induction events as [|e events IH]; intros s V P; simpl; auto.
  apply IH; [apply step_Inv | apply step_paired]; auto.
Qed.

Lemma asError_is_error (err : JsValue) : exists m, asError err = ErrorObject m.
Proof. destruct err; simpl; eauto. Qed.

Lemma absorbChunk_cancelCount (chunk : jsstring) (s : Session) :
  cancelCount (trace (absorbChunk input chunk s)) = cancelCount (trace s).
Proof.
  unfold absorbChunk. unfold_ops. break_match; trace_simpl; auto.
Qed.

Lemma startPromptHandling_errorRecord (prompt : PromptMatch.t) (atMs : Z)
    (s : Session) :
  errorRecord s -> errorRecord (startPromptHandling input prompt atMs s).
Proof.
  unfold errorRecord. intros (P1 & P2). unfold_ops.
  destruct (resolveAutoResponse (autoAnswer input) prompt);
    [|destruct (promptResponder input)]; simpl;
    [destruct (runStdin s)| |]; trace_simpl; auto.
Qed.

Lemma errorRecord_same (s s' : Session) :
  cancelCount (trace s') = cancelCount (trace s) ->
  promptError s' = promptError s ->
  errorRecord s -> errorRecord s'.
Proof. unfold errorRecord. intros -> ->. auto. Qed.

Lemma step_errorRecord (e : Event) (s : Session) :
  Inv s -> errorRecord s -> errorRecord (step input e s).
Proof.
  intros V P. destruct e as [raw now atMs|r|i response atMs|i err|i|x| |rej|rej']; simpl.
  - unfold onChunk. destruct (sanitizeBinaryOutput raw) as [|c chunk]; auto.
    fold (absorbChunk input (c :: chunk) s).
    assert (Pa : errorRecord (absorbChunk input (c :: chunk) s)).
    { destruct (absorbChunk_fields input (c :: chunk) s) as (_ & F2 & F3).
      unfold errorRecord. rewrite F2, absorbChunk_cancelCount. exact P. }
    destruct (maybeHandlePrompt_cases input now atMs
                (absorbChunk input (c :: chunk) s))
      as [E|(p & _ & _ & _ & E)]; rewrite E; auto.
    apply startPromptHandling_errorRecord.
    unfold errorRecord in *. simpl. auto.
  - unfold spawnResolved. destruct (control s) eqn:C; auto.
  - unfold responderResolved.
    destruct (taskState i (tasks s)) as [[p| |]|] eqn:T; auto.
    unfold errorRecord in *. destruct P as (P1 & P2). unfold_ops.
    break_simpl; trace_simpl; auto.
  - unfold responderRejected.
    destruct (taskState i (tasks s)) as [[p| |]|] eqn:T; auto.
    unfold errorRecord in *. destruct P as (P1 & P2). unfold_ops.
    break_simpl; trace_simpl; auto.
  - unfold reaction.
    destruct (taskState i (tasks s)) as [[p|err|]|] eqn:T; auto.
    + destruct (Inv_task i V T) as (Ts & _ & _ & Ca).
      assert (N : promptError s = None).
      { destruct (promptError s) as [e|] eqn:E; auto.
        destruct (inv_error V E) as (_ & A).
        assert (F : Rejected err = Completing)
          by (apply (A i); rewrite Ts; simpl; auto).
        discriminate. }
      unfold errorRecord in *. destruct P as (P1 & P2). unfold_ops.
      simpl. rewrite Ca. trace_simpl. rewrite P1, N. repeat split; auto.
      intros e E. inversion E. apply asError_is_error.
    + assert (Q : errorRecord
                    (set_tasks (removeTask i (tasks (set_promptHandling None s)))
                       (set_promptHandling None s))) by exact P.
      simpl. destruct (control s) as [|?|r x awaited|?] eqn:C; auto.
      destruct (Nat.eqb awaited i); auto.
      unfold errorRecord in *. destruct P as (P1 & P2). unfold_ops.
      trace_simpl. repeat split; auto.
  - unfold waitResolved. destruct (control s) eqn:C; auto.
    unfold errorRecord in *. destruct P as (P1 & P2). unfold_ops.
    destruct (promptHandling s); simpl; trace_simpl; repeat split; auto.
  - unfold pollTick. destruct (control s) eqn:C; auto;
      unfold errorRecord in *; destruct P as (P1 & P2);
      unfold_ops; simpl; trace_simpl; repeat split; auto.
  - unfold startRejected. destruct (control s); exact P.
  - unfold startRejected. destruct (control s); exact P.
Qed.

Lemma run_errorRecord (events : list Event) : forall s,
  Inv s -> errorRecord s -> errorRecord (run input events s).
Proof.
  induction events as [|e events IH]; intros s V P; simpl; auto.
  apply IH; [apply step_Inv | apply step_errorRecord]; auto.
Qed.

(** *** Automatic answers follow the policy *)

Lemma permitted_auto (mode : CodexRunAutoAnswerMode)
    (rawTail : jsstring)
    (prompt : PromptMatch.t) (response : jsstring) (atMs : Z) :
  detectInteractivePrompt rawTail = Some prompt ->
  resolveAutoResponse mode prompt = Some response ->
  permittedAnswer mode (promptEventOf prompt Auto response atMs) = true.
Proof.
  intros D R. apply detect_safeAutoResponse in D.
  unfold permittedAnswer, promptEventOf. simpl.
  unfold resolveAutoResponse in R. rewrite D in R.
  destruct mode, (PromptMatch.kind prompt); try discriminate;
    try (inversion R; subst; reflexivity).
  destruct (test HIGH_RISK_CONFIRM_PATTERN (PromptMatch.text prompt));
    inversion R; reflexivity.
Qed.

Lemma startPromptHandling_permitted (rawTail : jsstring)
    (prompt : PromptMatch.t) (atMs : Z) (s : Session) :
  detectInteractivePrompt rawTail = Some prompt ->
  Forall (fun ev => permittedAnswer (autoAnswer input) ev = true)
    (promptEvents s) ->
  Forall (fun ev => permittedAnswer (autoAnswer input) ev = true)
    (promptEvents (startPromptHandling input prompt atMs s)).
Proof.
  intros D F. unfold_ops.
  destruct (resolveAutoResponse (autoAnswer input) prompt) eqn:R;
    [|destruct (promptResponder input)]; simpl; auto.
  destruct (runStdin s); simpl; apply Forall_app; split; auto;
    constructor; auto; eapply permitted_auto; eauto.
Qed.

Lemma absorbChunk_promptEvents (chunk : jsstring) (s : Session) :
  promptEvents (absorbChunk input chunk s) = promptEvents s.
Proof. unfold absorbChunk. unfold_ops. break_simpl; auto. Qed.

Lemma step_permitted (e : Event) (s : Session) :
  Forall (fun ev => permittedAnswer (autoAnswer input) ev = true)
    (promptEvents s) ->
  Forall (fun ev => permittedAnswer (autoAnswer input) ev = true)
    (promptEvents (step input e s)).
Proof.
  intros P. destruct e as [raw now atMs|r|i response atMs|i err|i|x| |rej|rej']; simpl.
  - unfold onChunk. destruct (sanitizeBinaryOutput raw) as [|c chunk]; auto.
    fold (absorbChunk input (c :: chunk) s).
    destruct (maybeHandlePrompt_cases input now atMs
                (absorbChunk input (c :: chunk) s))
      as [E|(p & _ & D & _ & E)]; rewrite E.
    + rewrite absorbChunk_promptEvents. exact P.
    + eapply startPromptHandling_permitted; [exact D|].
      simpl. rewrite absorbChunk_promptEvents. exact P.
  - unfold spawnResolved. destruct (control s); auto.
  - unfold responderResolved.
    destruct (taskState i (tasks s)) as [[p| |]|] eqn:T; auto.
    unfold_ops. break_simpl; apply Forall_app; split; auto.
  - unfold responderRejected.
    destruct (taskState i (tasks s)) as [[p| |]|] eqn:T; auto.
    unfold_ops. break_simpl; auto.
  - unfold reaction. unfold_ops. break_simpl; auto.
  - unfold waitResolved. unfold_ops. break_simpl; auto.
  - unfold pollTick. unfold_ops. break_simpl; auto.
  - unfold startRejected. destruct (control s); exact P.
  - unfold startRejected. destruct (control s); exact P.
Qed.

(** *** The responder ledger *)

Lemma manualCount_app (a b : list PromptEvent.t) :
  manualCount (a ++ b) = manualCount a + manualCount b.
Proof. unfold manualCount. rewrite filter_app, length_app. reflexivity. Qed.

Lemma manualCount_one (ev : PromptEvent.t) :
  manualCount [ev] = if isManual ev then 1 else 0.
Proof. unfold manualCount. simpl. destruct (isManual ev); reflexivity. Qed.

Lemma absorbChunk_ledger_fields (chunk : jsstring) (s : Session) :
  responderCalls (trace (absorbChunk input chunk s))
  = responderCalls (trace s)
  /\ unanswered (absorbChunk input chunk s) = unanswered s.
Proof.
  unfold unanswered.
  destruct (absorbChunk_fields input chunk s) as (F1 & F2 & _).
  rewrite F1, F2. split; auto.
  unfold absorbChunk. unfold_ops. break_simpl; trace_simpl; auto.
Qed.

Lemma absorbChunk_ledger (chunk : jsstring) (s : Session) :
  responderLedger s -> responderLedger (absorbChunk input chunk s).
Proof.
  unfold responderLedger.
  destruct (absorbChunk_fields input chunk s) as (F1 & _ & _).
  destruct (absorbChunk_ledger_fields chunk s) as (F2 & F3).
  rewrite F1, F2, F3, absorbChunk_promptEvents. auto.
Qed.

Lemma startPromptHandling_ledger (prompt : PromptMatch.t) (atMs : Z)
    (s : Session) :
  tasks s = [] -> promptError s = None ->
  responderLedger s -> responderLedger (startPromptHandling input prompt atMs s).
Proof.
  unfold responderLedger, unanswered. intros Ts Pe L.
  cbv zeta in *. rewrite Ts in L.
  destruct L as [L|(_ & L)]; [|rewrite Pe in L; discriminate].
  unfold_ops.
  destruct (resolveAutoResponse (autoAnswer input) prompt);
    [|destruct (promptResponder input)]; simpl; rewrite ?Ts; simpl.
  - destruct (runStdin s); simpl; rewrite Ts; simpl; left; trace_simpl;
      rewrite manualCount_app, manualCount_one; simpl; lia.
  - trace_simpl. rewrite length_app. simpl. lia.
  - left. exact L.
Qed.

Lemma responderResolved_fields (i : nat) (response : jsstring) (atMs : Z)
    (p : PromptMatch.t) (s : Session) :
  taskState i (tasks s) = Some (AwaitingResponder p) ->
  let s' := responderResolved input i response atMs s in
  tasks s' = setTask i Completing (tasks s)
  /\ promptEvents s'
     = promptEvents s ++ [promptEventOf p Manual response atMs]
  /\ promptError s' = promptError s
  /\ responderCalls (trace s') = responderCalls (trace s).
Proof.
  intros T. unfold responderResolved. rewrite T. unfold_ops.
  break_simpl; trace_simpl; auto.
Qed.

Lemma responderRejected_fields (i : nat) (err : JsValue)
    (p : PromptMatch.t) (s : Session) :
  taskState i (tasks s) = Some (AwaitingResponder p) ->
  let s' := responderRejected input i err s in
  tasks s' = setTask i (Rejected err) (tasks s)
  /\ promptEvents s' = promptEvents s
  /\ promptError s' = promptError s
  /\ responderCalls (trace s') = responderCalls (trace s).
Proof.
  intros T. unfold responderRejected. rewrite T. unfold_ops.
  break_simpl; trace_simpl; auto.
Qed.

Lemma Inv_no_error (s : Session) (id : nat) (st : TaskState) :
  Inv s -> tasks s = [(id, st)] -> st <> Completing -> promptError s = None.
Proof.
  intros V Ts N. destruct (promptError s) as [e|] eqn:E; auto.
  destruct (inv_error V E) as (_ & A).
  exfalso. apply N, (A id). rewrite Ts. simpl. auto.
Qed.

Lemma step_ledger (e : Event) (s : Session) :
  Inv s -> responderLedger s -> responderLedger (step input e s).
Proof.
  intros V P. destruct e as [raw now atMs|r|i response atMs|i err|i|x| |rej|rej']; simpl.
  - unfold onChunk. destruct (sanitizeBinaryOutput raw) as [|c chunk]; auto.
    fold (absorbChunk input (c :: chunk) s).
    apply (absorbChunk_ledger (c :: chunk)) in P.
    destruct (maybeHandlePrompt_cases input now atMs
                (absorbChunk input (c :: chunk) s))
      as [E|(p & (Ph & Pe & _) & _ & _ & E)]; rewrite E; auto.
    rewrite absorbChunk_promptHandling in Ph.
    destruct (Inv_idle V Ph) as (Ts & _).
    destruct (absorbChunk_fields input (c :: chunk) s) as (F1 & _ & _).
    apply startPromptHandling_ledger; simpl; auto. congruence.
  - unfold spawnResolved. destruct (control s); auto.
  - destruct (taskState i (tasks s)) as [[p| |]|] eqn:T;
      try (unfold responderResolved; rewrite T; exact P).
    destruct (Inv_task i V T) as (Ts & _ & R & _).
    destruct (responderResolved_fields i response atMs s T) as (F1 & F2 & F3 & F4).
    unfold responderLedger, unanswered in *. cbv zeta in *.
    rewrite F1, F2, F4, Ts. rewrite Ts in P. simpl. rewrite eqb_refl_nat.
    rewrite manualCount_app, manualCount_one. simpl. left. lia.
  - destruct (taskState i (tasks s)) as [[p| |]|] eqn:T;
      try (unfold responderRejected; rewrite T; exact P).
    destruct (Inv_task i V T) as (Ts & _ & R & _).
    assert (Pe : promptError s = None)
      by (apply (Inv_no_error V Ts); discriminate).
    destruct (responderRejected_fields i err s T) as (F1 & F2 & F3 & F4).
    unfold responderLedger, unanswered in *. cbv zeta in *.
    rewrite F1, F2, F3, F4, Ts, Pe. rewrite Ts in P. simpl.
    rewrite eqb_refl_nat. right. auto.
  - unfold reaction.
    destruct (taskState i (tasks s)) as [[p|err|]|] eqn:T; auto.
    + destruct (Inv_task i V T) as (Ts & _ & R & Ca).
      assert (Pe : promptError s = None)
        by (apply (Inv_no_error V Ts); discriminate).
      unfold responderLedger, unanswered in *. cbv zeta in *.
      rewrite Ts, Pe in P. unfold_ops. simpl. rewrite Ca. simpl. rewrite Ts. simpl.
      rewrite eqb_refl_nat. trace_simpl.
      destruct P as [P|(P & _)]; auto.
    + destruct (Inv_task i V T) as (Ts & _ & R & Ca).
      assert (Q : responderLedger
                    (set_tasks (removeTask i (tasks (set_promptHandling None s)))
                       (set_promptHandling None s))).
      { unfold responderLedger, unanswered in *. cbv zeta in *.
        rewrite Ts in P. simpl. rewrite Ts. simpl. rewrite eqb_refl_nat.
        simpl. destruct (promptError s); auto. }
      simpl. simpl in Q. destruct (control s) as [|?|r x awaited|?]; auto.
      destruct (Nat.eqb awaited i); auto.
      unfold responderLedger, unanswered in *. cbv zeta in *. unfold_ops.
      simpl in *. trace_simpl. exact Q.
  - unfold waitResolved. destruct (control s) eqn:C; auto.
    unfold responderLedger, unanswered in *. cbv zeta in *. unfold_ops.
    destruct (promptHandling s); simpl; trace_simpl; auto.
  - unfold pollTick. destruct (control s) eqn:C; auto;
      unfold responderLedger, unanswered in *; cbv zeta in *;
      unfold_ops; simpl; trace_simpl; auto.
  - unfold startRejected. destruct (control s); exact P.
  - unfold startRejected. destruct (control s); exact P.
Qed.

Lemma run_ledger (events : list Event) : forall s,
  Inv s -> responderLedger s -> responderLedger (run input events s).
Proof.
  induction events as [|e events IH]; intros s V P; simpl; auto.
  apply IH; [apply step_Inv | apply step_ledger]; auto.
Qed.

(** *** Where an outcome comes from *)

Lemma provenance_grows (events : list Event) (e : Event) (s : Session) :
  provenance input events s -> provenance input (events ++ [e]) s.
Proof.
  unfold provenance, finishedWith, rejectedAtStart. destruct (control s).
  - auto.
  - intros (A & B & C). auto with datatypes.
  - intros (A & B & C & D). auto 6 with datatypes.
  - intros [(A & B & (r & x & C1 & C2 & C3) & D)
           |(A & B & C & err & D & [E|E])].
    + left. repeat split; auto. exists r, x. auto with datatypes.
    + right. repeat split; auto. exists err. auto with datatypes.
    + right. repeat split; auto. exists err. auto with datatypes.
Qed.

Lemma provenance_same (events : list Event) (s s' : Session) :
  control s' = control s -> cancelRun s' = cancelRun s ->
  promptError s' = promptError s ->
  streamEndCount (trace s') = streamEndCount (trace s) ->
  provenance input events s -> provenance input events s'.
Proof. unfold provenance. intros -> -> -> ->. auto. Qed.

Lemma startPromptHandling_core (prompt : PromptMatch.t) (atMs : Z)
    (s : Session) :
  let s' := startPromptHandling input prompt atMs s in
  control s' = control s /\ cancelRun s' = cancelRun s
  /\ promptError s' = promptError s
  /\ streamEndCount (trace s') = streamEndCount (trace s).
Proof.
  unfold_ops.
  destruct (resolveAutoResponse (autoAnswer input) prompt);
    [|destruct (promptResponder input)]; simpl;
    [destruct (runStdin s)| |]; trace_simpl; auto.
Qed.

Lemma onChunk_core (raw : jsstring) (now atMs : Z) (s : Session) :
  let s' := onChunk input raw now atMs s in
  control s' = control s /\ cancelRun s' = cancelRun s
  /\ promptError s' = promptError s
  /\ streamEndCount (trace s') = streamEndCount (trace s).
Proof.
  unfold onChunk. destruct (sanitizeBinaryOutput raw) as [|c chunk]; auto.
  fold (absorbChunk input (c :: chunk) s).
  assert (A : control (absorbChunk input (c :: chunk) s) = control s
              /\ cancelRun (absorbChunk input (c :: chunk) s) = cancelRun s
              /\ promptError (absorbChunk input (c :: chunk) s) = promptError s
              /\ streamEndCount (trace (absorbChunk input (c :: chunk) s))
                 = streamEndCount (trace s)).
  { unfold absorbChunk. unfold_ops. break_simpl; trace_simpl; auto. }
  destruct A as (A1 & A2 & A3 & A4).
  destruct (maybeHandlePrompt_cases input now atMs
              (absorbChunk input (c :: chunk) s))
    as [E|(p & _ & _ & _ & E)]; rewrite E; auto.
  destruct (startPromptHandling_core p atMs
              (set_lastPromptAtMs now
                 (set_lastPromptSignature (promptSignature p)
                    (absorbChunk input (c :: chunk) s))))
    as (B1 & B2 & B3 & B4).
  rewrite B1, B2, B3, B4. simpl. auto.
Qed.

Lemma finish_provenance (events : list Event) (r : ManagedRun) (x : RunExit)
    (s : Session) :
  cancelRun s = true -> streamEndCount (trace s) = 0 ->
  In (SpawnResolved r) events -> In (WaitResolved x) events ->
  provenance input events (finish input r x s).
Proof.
  intros A B C D. unfold provenance, finish, finishedWith. unfold_ops. simpl.
  left. trace_simpl. rewrite B. repeat split; auto.
  - exists r, x. repeat split; auto.
    destruct (promptError s); simpl; auto.
  - intros err. destruct (promptError s); intros E; inversion E; auto.
Qed.

Lemma step_provenance (events : list Event) (e : Event) (s : Session) :
  Inv s -> provenance input events s ->
  provenance input (events ++ [e]) (step input e s).
Proof.
  intros V P.
  assert (G := provenance_grows events e s P).
  assert (Here : In e (events ++ [e])) by auto with datatypes.
  destruct e as [raw now atMs|r|i response atMs|i err|i|x| |rej|rej'].
  - destruct (onChunk_core raw now atMs s) as (A & B & C & D).
    simpl. eapply provenance_same; eauto.
  - simpl. unfold spawnResolved. destruct (control s) eqn:C; auto.
    unfold provenance in *. rewrite C in G. unfold_ops. simpl.
    destruct G as (_ & _ & G). auto.
  - simpl. unfold responderResolved.
    destruct (taskState i (tasks s)) as [[p| |]|] eqn:T; auto.
    eapply provenance_same; [| | | |exact G];
      unfold_ops; break_simpl; trace_simpl; auto.
  - simpl. unfold responderRejected.
    destruct (taskState i (tasks s)) as [[p| |]|] eqn:T; auto.
    eapply provenance_same; [| | | |exact G];
      unfold_ops; break_simpl; trace_simpl; auto.
  - simpl. unfold reaction.
    destruct (taskState i (tasks s)) as [[p|err|]|] eqn:T; auto.
    + destruct (Inv_task i V T) as (Ts & _ & Rs & Ca).
      assert (Pe : promptError s = None)
        by (apply (Inv_no_error V Ts); discriminate).
      unfold provenance in *. unfold_ops. simpl. rewrite Ca. simpl.
      trace_simpl.
      destruct (control s) as [|?|? ? ?|o] eqn:C.
      * destruct G as (G & _). congruence.
      * exact G.
      * exact G.
      * destruct G as [(G1 & G2 & G3 & G4)|(G1 & _)]; [|congruence].
        left. repeat split; auto.
        intros e E. rewrite (G4 e E) in Pe. discriminate.
    + simpl. destruct (control s) as [|?|r x awaited|?] eqn:C;
        try (unfold provenance in *; simpl; rewrite C; rewrite C in G;
             exact G).
      destruct (Nat.eqb awaited i);
        [|unfold provenance in *; simpl; rewrite C; rewrite C in G; exact G].
      unfold provenance in G. rewrite C in G. destruct G as (A & B & G1 & G2).
      apply finish_provenance; auto.
  - simpl. unfold waitResolved. destruct (control s) as [|r|?|?] eqn:C;
      try exact G.
    unfold provenance in G. rewrite C in G. destruct G as (A & B & G).
    destruct (promptHandling s).
    + unfold provenance. unfold_ops. simpl. auto.
    + apply finish_provenance; auto.
  - simpl. unfold pollTick.
    destruct (control s) eqn:C; try exact G;
      (eapply provenance_same; [| | | |exact G];
       unfold_ops; simpl; trace_simpl; auto).
  - simpl. unfold startRejected. destruct (control s) eqn:C; try exact G.
    unfold provenance in *. rewrite C in G. unfold_ops. simpl.
    destruct G as (A & B & D). right. repeat split; auto.
    exists rej. split; auto. left. exact Here.
  - simpl. unfold startRejected. destruct (control s) eqn:C; try exact G.
    unfold provenance in *. rewrite C in G. unfold_ops. simpl.
    destruct G as (A & B & D). right. repeat split; auto.
    exists rej'. split; auto. right. exact Here.
Qed.

Lemma run_provenance (events : list Event) :
  provenance input events (run input events initialSession).
Proof.
  induction events as [|e events IH] using rev_ind.
  - unfold provenance. simpl. auto.
  - rewrite run_snoc. apply step_provenance; [apply reachable_Inv | exact IH].
Qed.

(** *** A run without an input stream *)

Lemma step_untouched (e : Event) (s : Session) :
  (forall r, e = SpawnResolved r -> managedStdin r = false) ->
  runStdin s = false /\ untouched s ->
  runStdin (step input e s) = false /\ untouched (step input e s).
Proof.
  intros N (R & U).
  destruct e as [raw now atMs|r|i response atMs|i err|i|x| |rej|rej']; simpl.
  - unfold onChunk. destruct (sanitizeBinaryOutput raw) as [|c chunk]; auto.
    fold (absorbChunk input (c :: chunk) s).
    assert (Ra : runStdin (absorbChunk input (c :: chunk) s) = false).
    { unfold absorbChunk. unfold_ops. break_simpl; auto. }
    rewrite maybeHandlePrompt_busy; auto. split; auto.
    unfold untouched in *.
    destruct (absorbChunk_fields input (c :: chunk) s) as (F1 & F2 & _).
    destruct (absorbChunk_ledger_fields (c :: chunk) s) as (F3 & _).
    rewrite F1, F2, F3, absorbChunk_promptEvents, absorbChunk_cancelCount.
    destruct U as (U1 & U2 & U3 & U4 & U5 & U6). repeat split; auto.
    unfold absorbChunk. unfold_ops. break_simpl; trace_simpl; auto.
  - unfold spawnResolved. destruct (control s); auto.
    simpl. split; auto.
  - unfold responderResolved. assert (T := proj1 (proj2 U)). rewrite T.
    simpl. auto.
  - unfold responderRejected. assert (T := proj1 (proj2 U)). rewrite T.
    simpl. auto.
  - unfold reaction. assert (T := proj1 (proj2 U)). rewrite T.
    simpl. auto.
  - unfold waitResolved. unfold untouched in *. unfold_ops.
    destruct (control s); auto. destruct (promptHandling s); simpl; auto.
    trace_simpl. auto.
  - unfold pollTick. unfold untouched in *. unfold_ops.
    destruct (control s); simpl; trace_simpl; auto.
  - unfold startRejected. destruct (control s); auto.
  - unfold startRejected. destruct (control s); auto.
Qed.

End AccountingFacts.

(** X4.  Whatever the events: the data written to the input of the child
    are exactly the responses of the recorded prompt events, each with its
    trailing line feed, in the order of the events; and the events pushed
    are the events recorded.  Nothing else is ever written to the child. *)
Theorem X4_answers_are_recorded `{Imports} (input : PtyCodexRunInput)
    (events : list Event) :
  let s := run input events initialSession in
  stdinWrites (trace s)
  = map (fun ev => ensureTrailingNewline (PromptEvent.response ev))
      (promptEvents s)
  /\ pushedEvents (trace s) = promptEvents s.
Proof.
  apply run_paired; [apply Inv_initial | split; reflexivity].
Qed.

(** X5.  The log stream is ended by the [finally] block and nowhere else.
    While the session awaits [spawn], [wait] or the prompt task,
    [stream.end] has not been called.  Once the [finally] block has run,
    it has been called exactly once, whether the session returns a result
    or throws the recorded prompt error.  When [mkdir] or [spawn] was
    rejected, the session throws what that rejection gave and [stream.end]
    is never called. *)
Theorem X5_stream_ends_at_settlement `{Imports} (input : PtyCodexRunInput)
    (events : list Event) :
  let s := run input events initialSession in
  match control s with
  | AwaitSpawn | AwaitExit _ | AwaitPromptHandling _ _ _ =>
      streamEndCount (trace s) = 0
  | Settled (Returned _) => streamEndCount (trace s) = 1
  | Settled (Threw err) =>
      (streamEndCount (trace s) = 1 /\ promptError s = Some err)
      \/ (streamEndCount (trace s) = 0 /\ rejectedAtStart events err)
  end.
Proof.
  intros s. assert (P := run_provenance input events).
  unfold provenance in *. fold s in P.
  destruct (control s) as [| | |[r|err]].
  - tauto.
  - tauto.
  - tauto.
  - destruct P as [P|(_ & _ & _ & e & E & _)]; [tauto | discriminate].
  - destruct P as [(_ & P1 & _ & P2)|(_ & P1 & _ & e & E & P2)].
    + left. auto.
    + right. inversion E. auto.
Qed.

(** X6.  The run is cancelled at most once, and exactly when a prompt error
    has been recorded.  A session that throws either throws the recorded
    prompt error, which is an [Error] object, after it has cancelled the
    run once; or [mkdir] or [spawn] was rejected with what it throws, and
    then it has cancelled nothing. *)
Theorem X6_cancel_once_on_error `{Imports} (input : PtyCodexRunInput)
    (events : list Event) :
  let s := run input events initialSession in
  cancelCount (trace s) = match promptError s with Some _ => 1 | None => 0 end
  /\ match runPtyCodexSession input events with
     | Some (Threw err) =>
         (promptError s = Some err /\ cancelCount (trace s) = 1
          /\ exists message, err = ErrorObject message)
         \/ (rejectedAtStart events err /\ cancelCount (trace s) = 0)
     | _ => True
     end.
Proof.
  intros s.
  destruct (run_errorRecord input events (s := initialSession))
    as (P1 & P2).
  { apply Inv_initial. }
  { split; simpl; auto; discriminate. }
  fold s in P1, P2. split; [exact P1|].
  assert (P := run_provenance input events).
  unfold provenance, runPtyCodexSession in *. fold s in P. fold s.
  destruct (control s) as [| | |[r|err]]; auto.
  destruct P as [(_ & _ & _ & P3)|(_ & _ & P3 & e & E & P4)].
  - left. specialize (P3 err eq_refl). rewrite P3 in P1.
    repeat split; auto.
  - right. inversion E. rewrite P3 in P1. auto.
Qed.

(** X7.  Every automatic answer in [promptEvents] is one the policy of the
    configured mode gives: none in mode off; the empty response to a
    press-enter prompt in the other modes; "y" to a confirm prompt in mode
    balanced only when the prompt text does not match the high-risk pattern,
    and in mode yolo; "1" to a choice prompt only in mode yolo. *)
Theorem X7_automatic_answers_follow_policy `{Imports}
    (input : PtyCodexRunInput) (events : list Event) :
  Forall (fun ev => permittedAnswer (autoAnswer input) ev = true)
    (promptEvents (run input events initialSession)).
Proof.
  induction events as [|e events IH] using rev_ind.
  - constructor.
  - rewrite run_snoc. apply step_permitted, IH.
Qed.

(** X8.  The responder is called once for every manual answer recorded, and
    at most once more: for the call that is pending, or for the one call
    that was rejected, after which the prompt stays unanswered. *)
Theorem X8_responder_ledger `{Imports} (input : PtyCodexRunInput)
    (events : list Event) :
  let s := run input events initialSession in
  let calls := length (responderCalls (trace s)) in
  let manual := manualCount (promptEvents s) in
  manual <= calls <= S manual
  /\ (calls = S manual -> unanswered s = 1).
Proof.
  intros s calls manual.
  assert (V : Inv s) by apply reachable_Inv.
  assert (L : responderLedger s).
  { apply run_ledger; [apply Inv_initial | left; reflexivity]. }
  unfold responderLedger in L. fold calls manual in L.
  destruct (tasks s) as [|[i [p|err|]] [|t ts]] eqn:Ts;
    try (destruct L as [L|(L & U)]; split; auto; lia).
  split; [lia|]. intros _.
  assert (Pe : promptError s = None)
    by (apply (Inv_no_error V Ts); discriminate).
  unfold unanswered. rewrite Pe, Ts. reflexivity.
Qed.

(** X9.  A session that returns does so after [spawn] and [wait] have
    resolved: the result carries the run id and the pid of the run that
    [spawn] resolved with, the exit that [wait] resolved with, and the log
    file path of the input.  A session that throws does so after [spawn] and
    [wait] have resolved, or because [mkdir] or [spawn] was rejected, and
    then with what that rejection gave. *)
Theorem X9_result_provenance `{Imports} (input : PtyCodexRunInput)
    (events : list Event) (o : Outcome) :
  runPtyCodexSession input events = Some o ->
  match o with
  | Returned r =>
      exists run exit,
        In (SpawnResolved run) events /\ In (WaitResolved exit) events
        /\ PtyCodexRunResult.runId r = managedRunId run
        /\ PtyCodexRunResult.pid r = managedPid run
        /\ PtyCodexRunResult.exit r = exit
        /\ PtyCodexRunResult.logFilePath r = logFilePath input
  | Threw err =>
      (exists run exit,
         In (SpawnResolved run) events /\ In (WaitResolved exit) events)
      \/ rejectedAtStart events err
  end.
Proof.
  unfold runPtyCodexSession. intros R.
  assert (P := run_provenance input events).
  unfold provenance, finishedWith in P.
  destruct (control (run input events initialSession)); try discriminate.
  inversion R; subst.
  destruct P as [(_ & _ & (r & x & P1 & P2 & P3) & _)|(_ & _ & _ & e & E & P)].
  - destruct o as [res|err]; simpl in P3.
    + exists r, x. tauto.
    + left. exists r, x. tauto.
  - subst o. right. exact P.
Qed.

(** A run prints a line and exits: the session returns what [spawn] and
    [wait] gave. *)
Lemma X9_result_provenance_witness :
  exists run exit,
    In (SpawnResolved run)
      [SpawnResolved exampleRun; Output (lit "done") 10 10;
       WaitResolved cleanExit]
    /\ In (WaitResolved exit)
         [SpawnResolved exampleRun; Output (lit "done") 10 10;
          WaitResolved cleanExit]
    /\ lit "run-1" = managedRunId run
    /\ Some 4242%Z = managedPid run
    /\ cleanExit = exit
    /\ lit "run.log" = logFilePath (exampleInput Safe false).
Proof.
  assert (R : @runPtyCodexSession plainImports (exampleInput Safe false)
                [SpawnResolved exampleRun; Output (lit "done") 10 10;
                 WaitResolved cleanExit]
              = Some (Returned
                        {| PtyCodexRunResult.runId := lit "run-1";
                           PtyCodexRunResult.pid := Some 4242%Z;
                           PtyCodexRunResult.exit := cleanExit;
                           PtyCodexRunResult.promptEvents := [];
                           PtyCodexRunResult.transcript := lit "done";
                           PtyCodexRunResult.pollSamples := 0;
                           PtyCodexRunResult.logFilePath := lit "run.log" |}))
    by (vm_compute; reflexivity).
  exact (@X9_result_provenance plainImports _ _ _ R).
Defined.

(** X10.  When the run that [spawn] resolves with has no input stream,
    prompts are never handled: no event is recorded, nothing is written to
    the child, the responder is never called, the run is never cancelled,
    and the session does not throw, unless [mkdir] or [spawn] was rejected:
    then it throws what that rejection gave. *)
Theorem X10_no_input_stream `{Imports} (input : PtyCodexRunInput)
    (events : list Event) :
  (forall run, In (SpawnResolved run) events -> managedStdin run = false) ->
  let s := run input events initialSession in
  untouched s
  /\ match runPtyCodexSession input events with
     | Some (Threw err) => rejectedAtStart events err
     | _ => True
     end.
Proof.
  intros N s.
  assert (U : runStdin s = false /\ untouched s).
  { subst s. induction events as [|e events IH] using rev_ind.
    - repeat split.
    - rewrite run_snoc. apply step_untouched.
      + intros r ->. apply N. auto with datatypes.
      + apply IH. intros r Hr. apply N. auto with datatypes. }
  destruct U as (_ & U). split; [exact U|].
  assert (P := run_provenance input events).
  unfold provenance, runPtyCodexSession in *. fold s in P. fold s.
  destruct (control s) as [| | |[r|err]] eqn:C; auto.
  destruct P as [(_ & _ & _ & P)|(_ & _ & _ & e & E & P)].
  - specialize (P err eq_refl).
    destruct U as (_ & _ & Pe & _). congruence.
  - inversion E. exact P.
Qed.

(** A run without input stream prints a confirm prompt in mode off, without
    a responder: the prompt is not handled and the session returns. *)
Lemma X10_no_input_stream_witness :
  let events :=
    [SpawnResolved {| managedRunId := lit "run-2"; managedPid := None;
                      managedStdin := false |};
     Output (lit "Proceed? (y/N) ") 1000 1000;
     WaitResolved cleanExit] in
  let s := @run plainImports (exampleInput Off false) events initialSession in
  untouched s
  /\ match @runPtyCodexSession plainImports (exampleInput Off false) events
     with
     | Some (Threw err) => rejectedAtStart events err
     | _ => True
     end.
Proof.
  intros events.
  assert (N : forall run,
            In (SpawnResolved run) events -> managedStdin run = false).
  { intros run [E|[E|[E|[]]]]; inversion E; reflexivity. }
  exact (@X10_no_input_stream plainImports (exampleInput Off false) events N).
Defined.

(** X11.  The detection tail never holds a carriage return: every chunk is
    normalized before it is appended. *)
Theorem X11_tail_has_no_carriage_return `{Imports} (input : PtyCodexRunInput)
    (events : list Event) :
  Forall (fun c => c <> 13%N)
    (detectTail (run input events initialSession)).
Proof.
  destruct (detectTail_run input events) as ((before & E) & _).
  assert (F : Forall (fun c => c <> 13%N) (receivedNormalized events)).
  { unfold receivedNormalized. apply Forall_concat, Forall_map.
    apply Forall_forall. intros chunk _.
    unfold normalizeForPromptDetection, replaceCR. apply Forall_map.
    apply Forall_forall. intros c _.
    destruct (N.eqb_spec c 13); [discriminate | assumption]. }
  rewrite E in F. apply Forall_app in F. apply F.
Qed.

Section YoloFacts.
Context `{Imports}.
Variable input : PtyCodexRunInput.
Hypothesis yolo : autoAnswer input = Yolo.

Lemma taskState_In (id : nat) (st : TaskState) (ts : list (nat * TaskState)) :
  taskState id ts = Some st -> In (id, st) ts.
Proof.
  induction ts as [|[i t] ts IH]; simpl; [discriminate|].
  destruct (Nat.eqb_spec i id) as [->|Ne]; intros E.
  - inversion E. auto.
  - auto.
Qed.

Lemma unattended_task (s : Session) (id : nat) (st : TaskState) :
  unattended s -> taskState id (tasks s) = Some st -> st = Completing.
Proof.
  intros (_ & _ & _ & _ & F) T. apply taskState_In in T.
  rewrite Forall_forall in F. apply (F _ T).
Qed.

Lemma absorbChunk_unattended (chunk : jsstring) (s : Session) :
  unattended s -> unattended (absorbChunk input chunk s).
Proof.
  unfold unattended.
  destruct (absorbChunk_fields input chunk s) as (F1 & F2 & _).
  destruct (absorbChunk_ledger_fields input chunk s) as (F3 & _).
  rewrite F1, F2, F3, (absorbChunk_promptEvents input),
    (absorbChunk_cancelCount input).
  auto.
Qed.

Lemma startPromptHandling_unattended (prompt : PromptMatch.t) (atMs : Z)
    (s : Session) :
  unattended s -> unattended (startPromptHandling input prompt atMs s).
Proof.
  unfold unattended. intros (U1 & U2 & U3 & U4 & U5).
  assert (R : exists r, resolveAutoResponse (autoAnswer input) prompt = Some r).
  { rewrite yolo. unfold resolveAutoResponse.
    destruct (PromptMatch.kind prompt); eauto. }
  destruct R as (r & R). unfold_ops. rewrite R.
  destruct (runStdin s); simpl;
    rewrite ?responderCalls_app, ?cancelCount_app; simpl;
    rewrite ?app_nil_r, ?Nat.add_0_r;
    (repeat split; auto; apply Forall_app; split; auto).
Qed.

Lemma step_unattended (e : Event) (s : Session) :
  unattended s -> unattended (step input e s).
Proof.
  intros U. destruct e as [raw now atMs|r|i response atMs|i err|i|x| |rej|rej']; simpl.
  - unfold onChunk. destruct (sanitizeBinaryOutput raw) as [|c chunk]; auto.
    fold (absorbChunk input (c :: chunk) s).
    apply (absorbChunk_unattended (c :: chunk)) in U.
    destruct (maybeHandlePrompt_cases input now atMs
                (absorbChunk input (c :: chunk) s))
      as [E|(p & _ & _ & _ & E)]; rewrite E; auto.
    apply startPromptHandling_unattended. exact U.
  - unfold spawnResolved. destruct (control s); auto.
  - unfold responderResolved.
    destruct (taskState i (tasks s)) as [[p| |]|] eqn:T; auto.
    apply (unattended_task _ U) in T. discriminate.
  - unfold responderRejected.
    destruct (taskState i (tasks s)) as [[p| |]|] eqn:T; auto.
    apply (unattended_task _ U) in T. discriminate.
  - unfold reaction.
    destruct (taskState i (tasks s)) as [[p|err|]|] eqn:T; auto.
    + apply (unattended_task _ U) in T. discriminate.
    + assert (Q : unattended
                    (set_tasks (removeTask i (tasks (set_promptHandling None s)))
                       (set_promptHandling None s))).
      { unfold unattended in *. destruct U as (U1 & U2 & U3 & U4 & U5).
        simpl. repeat split; auto.
        unfold removeTask. apply Forall_forall. intros t It.
        apply filter_In in It. rewrite Forall_forall in U5. apply U5, It. }
      simpl. simpl in Q. destruct (control s) as [|?|r x awaited|?]; auto.
      destruct (Nat.eqb awaited i); auto.
      unfold unattended in *. unfold_ops. simpl in *.
      rewrite responderCalls_app, cancelCount_app. simpl.
      rewrite app_nil_r, Nat.add_0_r. exact Q.
  - unfold waitResolved. destruct (control s); auto.
    destruct (promptHandling s); auto.
    unfold unattended in *. unfold_ops. simpl.
    rewrite responderCalls_app, cancelCount_app. simpl.
    rewrite app_nil_r, Nat.add_0_r. exact U.
  - unfold pollTick. destruct (control s); auto;
      unfold unattended in *; unfold_ops; simpl;
      rewrite responderCalls_app, cancelCount_app; simpl;
      rewrite app_nil_r, Nat.add_0_r; exact U.
  - unfold startRejected. destruct (control s); exact U.
  - unfold startRejected. destruct (control s); exact U.
Qed.

Lemma run_unattended (events : list Event) : forall s,
  unattended s -> unattended (run input events s).
Proof.
  induction events as [|e events IH]; intros s U; simpl; auto.
  apply IH, step_unattended, U.
Qed.

End YoloFacts.

(** X27.  In mode yolo the session involves nobody: whatever the output,
    the responder is never called, every recorded answer is automatic, no
    prompt error is recorded and the run is never cancelled.  The session
    throws only when [mkdir] or [spawn] was rejected, and then what that
    rejection gave. *)
Theorem X27_yolo_is_unattended `{Imports} (input : PtyCodexRunInput)
    (events : list Event) :
  autoAnswer input = Yolo ->
  let s := run input events initialSession in
  unattended s
  /\ forall err,
       runPtyCodexSession input events = Some (Threw err) ->
       rejectedAtStart events err.
Proof.
  intros Y s.
  assert (U : unattended s).
  { apply run_unattended; [exact Y|]. repeat split; constructor. }
  split; [exact U|].
  assert (P := run_provenance input events).
  unfold provenance, runPtyCodexSession in *. fold s in P. fold s.
  intros err R.
  destruct (control s) as [| | |o] eqn:C; try discriminate.
  inversion R; subst o.
  destruct P as [(_ & _ & _ & P)|(_ & _ & _ & e & E & P)].
  - specialize (P err eq_refl).
    destruct U as (_ & Pe & _). congruence.
  - inversion E. exact P.
Qed.

(** Three prompts, the second of them about the deletion of a database, are
    answered in mode yolo without a responder, and the session returns. *)
Lemma X27_yolo_is_unattended_witness :
  let events :=
    [SpawnResolved exampleRun;
     Output (lit "Press Enter to continue") 1000 1000; Reaction 0;
     Output (lit "Proceed to delete the database? (y/N) ") 4000 4000;
     Reaction 1;
     Output (lit "Enter choice: ") 8000 8000; Reaction 2;
     WaitResolved cleanExit] in
  let s := @run plainImports (exampleInput Yolo false) events initialSession in
  (unattended s
   /\ forall err,
        @runPtyCodexSession plainImports (exampleInput Yolo false) events
        = Some (Threw err) ->
        rejectedAtStart events err)
  /\ map PromptEvent.response (promptEvents s) = [[]; lit "y"; lit "1"]
  /\ map PromptEvent.kind (promptEvents s) = [PressEnter; Confirm; Choice]
  /\ (exists r,
        @runPtyCodexSession plainImports (exampleInput Yolo false) events
        = Some (Returned r)).
Proof.
  intros events s.
  assert (Y : autoAnswer (exampleInput Yolo false) = Yolo) by reflexivity.
  split;
    [exact (@X27_yolo_is_unattended plainImports (exampleInput Yolo false)
              events Y)|].
  split; [vm_compute; reflexivity|].
  split; [vm_compute; reflexivity|].
  eexists. vm_compute. reflexivity.
Defined.

Section PollFacts.
Context `{Imports}.
Variable input : PtyCodexRunInput.

Lemma getRecordCount_app (a b : list Effect) :
  getRecordCount (a ++ b) = getRecordCount a + getRecordCount b.
Proof. unfold getRecordCount. rewrite filter_app, length_app. reflexivity. Qed.

Ltac poll_simpl :=
  simpl; rewrite ?getRecordCount_app; unfold getRecordCount; simpl;
  rewrite ?Nat.add_0_r; auto.

Lemma absorbChunk_poll (chunk : jsstring) (s : Session) :
  pollSamples (absorbChunk input chunk s) = pollSamples s
  /\ getRecordCount (trace (absorbChunk input chunk s))
     = getRecordCount (trace s).
Proof.
  unfold absorbChunk. unfold_ops. simpl.
  destruct (suppressUserOutput s); [|destruct (onOutput input)]; poll_simpl.
Qed.

Lemma startPromptHandling_poll (prompt : PromptMatch.t) (atMs : Z)
    (s : Session) :
  pollSamples (startPromptHandling input prompt atMs s) = pollSamples s
  /\ getRecordCount (trace (startPromptHandling input prompt atMs s))
     = getRecordCount (trace s).
Proof.
  unfold_ops.
  destruct (resolveAutoResponse (autoAnswer input) prompt);
    [destruct (runStdin s)|destruct (promptResponder input)]; simpl;
    poll_simpl.
Qed.

Lemma pollRecord_same (s s' : Session) :
  pollSamples s' = pollSamples s ->
  getRecordCount (trace s') = getRecordCount (trace s) ->
  control s' = control s ->
  pollRecord s -> pollRecord s'.
Proof. unfold pollRecord. intros -> -> ->. auto. Qed.

Lemma finish_poll (r : ManagedRun) (x : RunExit) (s : Session) :
  pollSamples s = N.of_nat (getRecordCount (trace s)) ->
  pollRecord (finish input r x s).
Proof.
  unfold pollRecord. intros P. unfold_ops. simpl.
  rewrite getRecordCount_app.
  change (getRecordCount [StreamEnd]) with 0. rewrite Nat.add_0_r.
  split; [exact P|].
  intros r0 E. destruct (promptError s); inversion E. reflexivity.
Qed.

Lemma step_pollRecord (e : Event) (s : Session) :
  pollRecord s -> pollRecord (step input e s).
Proof.
  intros P. destruct e as [raw now atMs|r|i response atMs|i err|i|x| |rej|rej']; simpl.
  - unfold onChunk. destruct (sanitizeBinaryOutput raw) as [|c chunk]; auto.
    fold (absorbChunk input (c :: chunk) s).
    destruct (absorbChunk_poll (c :: chunk) s) as (A1 & A2).
    destruct (absorbChunk_fields input (c :: chunk) s) as (_ & _ & A3).
    assert (Pa : pollRecord (absorbChunk input (c :: chunk) s))
      by (apply (@pollRecord_same s); [exact A1 | exact A2 | exact A3 | exact P]).
    destruct (maybeHandlePrompt_cases input now atMs
                (absorbChunk input (c :: chunk) s))
      as [E|(p & _ & _ & _ & E)]; rewrite E; auto.
    set (s1 := set_lastPromptAtMs now
                 (set_lastPromptSignature (promptSignature p)
                    (absorbChunk input (c :: chunk) s))).
    destruct (startPromptHandling_poll p atMs s1) as (B1 & B2).
    apply (@pollRecord_same s1); [exact B1 | exact B2 | | exact Pa].
    apply (startPromptHandling_control input).
  - unfold spawnResolved. destruct (control s) eqn:C; auto.
    unfold pollRecord in *. simpl. split; [apply P | discriminate].
  - unfold responderResolved.
    destruct (taskState i (tasks s)) as [[p| |]|] eqn:T; auto.
    (apply (@pollRecord_same s); [ | | | exact P]); unfold_ops;
      destruct (runStdin s); simpl;
      destruct (suppressedOutput s); simpl; try reflexivity;
      try (destruct (onOutput input); simpl);
      poll_simpl.
  - unfold responderRejected.
    destruct (taskState i (tasks s)) as [[p| |]|] eqn:T; auto.
    (apply (@pollRecord_same s); [ | | | exact P]); unfold_ops; simpl;
      destruct (suppressedOutput s); simpl; try reflexivity;
      try (destruct (onOutput input); simpl);
      poll_simpl.
  - unfold reaction.
    destruct (taskState i (tasks s)) as [[p|err|]|] eqn:T; auto.
    + (apply (@pollRecord_same s); [ | | | exact P]); unfold_ops; simpl;
        destruct (cancelRun s); simpl;
        poll_simpl.
    + simpl.
      assert (Q : pollRecord
                    (set_tasks (removeTask i (tasks s))
                       (set_promptHandling None s))) by exact P.
      destruct (control s) as [|?|r x awaited|?] eqn:C; auto.
      destruct (Nat.eqb awaited i); auto.
      apply finish_poll. simpl. apply P.
  - unfold waitResolved. destruct (control s) eqn:C; auto.
    destruct (promptHandling s).
    + unfold pollRecord in *. simpl. split; [apply P | discriminate].
    + apply finish_poll, P.
  - unfold pollTick. destruct (control s) eqn:C; auto;
      unfold pollRecord in *; unfold_ops; simpl;
      rewrite getRecordCount_app;
      change (getRecordCount [GetRecord]) with 1;
      (split; [destruct P as (-> & _); lia
              | intros r0 E; rewrite C in E; discriminate]).
  - unfold startRejected. destruct (control s) eqn:C; auto.
    unfold pollRecord in *. simpl. split; [apply P | discriminate].
  - unfold startRejected. destruct (control s) eqn:C; auto.
    unfold pollRecord in *. simpl. split; [apply P | discriminate].
Qed.

Lemma run_pollRecord (events : list Event) : forall s,
  pollRecord s -> pollRecord (run input events s).
Proof.
  induction events as [|e events IH]; intros s P; simpl; auto.
  apply IH, step_pollRecord, P.
Qed.

End PollFacts.

(** X28.  The [pollSamples] of a returned result is the number of calls of
    [supervisor.getRecord] made in the whole session: the poll timer runs
    only between the resolution of [spawn] and the settlement, and every
    tick of it counts. *)
Theorem X28_poll_samples `{Imports} (input : PtyCodexRunInput)
    (events : list Event) (result : PtyCodexRunResult.t) :
  runPtyCodexSession input events = Some (Returned result) ->
  PtyCodexRunResult.pollSamples result
  = N.of_nat (getRecordCount (trace (run input events initialSession))).
Proof.
  unfold runPtyCodexSession. intros R.
  destruct (run_pollRecord input events (s := initialSession)) as (P1 & P2).
  { split; [reflexivity | discriminate]. }
  destruct (control (run input events initialSession)) eqn:C;
    try discriminate.
  inversion R; subst. rewrite (P2 result eq_refl). exact P1.
Qed.

(** Two ticks between spawn and exit are counted; the ticks before the spawn
    and after the exit are not. *)
Lemma X28_poll_samples_witness :
  2%N
  = N.of_nat
      (getRecordCount
         (trace
            (@run plainImports (exampleInput Safe false)
               [Poll; SpawnResolved exampleRun; Poll;
                Output (lit "done") 10 10; Poll; WaitResolved cleanExit; Poll]
               initialSession))).
Proof.
  assert (R : @runPtyCodexSession plainImports (exampleInput Safe false)
                [Poll; SpawnResolved exampleRun; Poll;
                 Output (lit "done") 10 10; Poll; WaitResolved cleanExit; Poll]
              = Some (Returned
                        {| PtyCodexRunResult.runId := lit "run-1";
                           PtyCodexRunResult.pid := Some 4242%Z;
                           PtyCodexRunResult.exit := cleanExit;
                           PtyCodexRunResult.promptEvents := [];
                           PtyCodexRunResult.transcript := lit "done";
                           PtyCodexRunResult.pollSamples := 2;
                           PtyCodexRunResult.logFilePath := lit "run.log" |}))
    by (vm_compute; reflexivity).
  exact (@X28_poll_samples plainImports _ _ _ R).
Defined.

(** ** The policy and the classifier, further *)

(** X12.  The modes are ordered off, safe, balanced, yolo: a prompt that a
    mode answers by itself is answered by every more permissive mode, with
    the same response. *)
Theorem X12_modes_are_ordered (lower higher : CodexRunAutoAnswerMode)
    (prompt : PromptMatch.t) (response : jsstring) :
  modeRank lower <= modeRank higher ->
  resolveAutoResponse lower prompt = Some response ->
  resolveAutoResponse higher prompt = Some response.
Proof.
  unfold resolveAutoResponse.
  destruct lower, higher, (PromptMatch.kind prompt); simpl; intros Le R;
    try discriminate; try lia; auto;
    destruct (test HIGH_RISK_CONFIRM_PATTERN (PromptMatch.text prompt));
    try discriminate; auto.
Qed.

Lemma X12_modes_are_ordered_witness :
  resolveAutoResponse Yolo
    {| PromptMatch.kind := Confirm; PromptMatch.text := lit "Proceed? (y/N)";
       PromptMatch.safeAutoResponse := None |}
  = Some (lit "y").
Proof.
  assert (Le : modeRank Balanced <= modeRank Yolo) by (simpl; lia).
  assert (R : resolveAutoResponse Balanced
                {| PromptMatch.kind := Confirm;
                   PromptMatch.text := lit "Proceed? (y/N)";
                   PromptMatch.safeAutoResponse := None |}
              = Some (lit "y")) by (vm_compute; reflexivity).
  exact (@X12_modes_are_ordered Balanced Yolo _ _ Le R).
Defined.

(** X13.  [ensureTrailingNewline] returns a string that ends with a line
    feed, adds at most that one line feed to its input, and changes nothing
    when applied again. *)
Theorem X13_trailing_newline (input : jsstring) :
  endsWithNewline (ensureTrailingNewline input) = true
  /\ (ensureTrailingNewline input = input
      \/ ensureTrailingNewline input = input ++ [10%N])
  /\ ensureTrailingNewline (ensureTrailingNewline input)
     = ensureTrailingNewline input.
Proof.
  assert (E : endsWithNewline (ensureTrailingNewline input) = true).
  { unfold ensureTrailingNewline.
    destruct (endsWithNewline input) eqn:N; auto.
    unfold endsWithNewline. rewrite rev_app_distr. reflexivity. }
  split; [exact E|]. split.
  - unfold ensureTrailingNewline. destruct (endsWithNewline input); auto.
  - unfold ensureTrailingNewline at 1. rewrite E. reflexivity.
Qed.

(** *** Facts about the string methods *)

Lemma dropWhile_suffix (p : N -> bool) (s : jsstring) :
  isSuffixOf (dropWhile p s) s.
Proof.
  induction s as [|a s IH]; simpl.
  - exists []. reflexivity.
  - destruct (p a).
    + destruct IH as (b & E). exists (a :: b). simpl. f_equal. exact E.
    + exists []. reflexivity.
Qed.

Lemma dropWhile_head (p : N -> bool) (s : jsstring) :
  match dropWhile p s with a :: _ => p a = false | [] => True end.
Proof.
  induction s as [|a s IH]; simpl; auto.
  destruct (p a) eqn:E; auto.
Qed.

Lemma dropWhile_fixed (p : N -> bool) (s : jsstring) :
  match s with a :: _ => p a = false | [] => True end -> dropWhile p s = s.
Proof. destruct s as [|a s]; simpl; auto. intros ->. reflexivity. Qed.

Lemma dropWhile_idem (p : N -> bool) (s : jsstring) :
  dropWhile p (dropWhile p s) = dropWhile p s.
Proof. apply dropWhile_fixed, dropWhile_head. Qed.

Lemma dropWhile_app_stop (p : N -> bool) (l r : jsstring) (a : N) :
  p a = false -> dropWhile p (l ++ a :: r) = dropWhile p l ++ a :: r.
Proof.
  intros E. induction l as [|b l IH]; simpl.
  - rewrite E. reflexivity.
  - destruct (p b); auto.
Qed.

Lemma trimEnd_prefix (s : jsstring) : exists ws, s = trimEnd s ++ ws.
Proof.
  unfold trimEnd.
  destruct (dropWhile_suffix isWhiteSpace (rev s)) as (b & E).
  exists (rev b). rewrite <- rev_app_distr, <- E. symmetry. apply rev_involutive.
Qed.

Lemma trimEnd_idem (s : jsstring) : trimEnd (trimEnd s) = trimEnd s.
Proof. unfold trimEnd. rewrite rev_involutive, dropWhile_idem. reflexivity. Qed.

Lemma trimEnd_keeps_head (a : N) (s : jsstring) :
  isWhiteSpace a = false -> exists s', trimEnd (a :: s) = a :: s'.
Proof.
  intros E. unfold trimEnd. simpl.
  rewrite dropWhile_app_stop by exact E.
  rewrite rev_app_distr. simpl. eauto.
Qed.

Lemma trim_idem (s : jsstring) : trim (trim s) = trim s.
Proof.
  unfold trim, trimStart.
  assert (Hd := dropWhile_head isWhiteSpace s).
  destruct (dropWhile isWhiteSpace s) as [|a s'] eqn:D.
  - reflexivity.
  - destruct (@trimEnd_keeps_head a s' Hd) as (t & E).
    rewrite E. simpl. rewrite Hd. rewrite <- E. apply trimEnd_idem.
Qed.

Lemma trim_infix (s : jsstring) : exists b a, s = b ++ trim s ++ a.
Proof.
  unfold trim, trimStart.
  destruct (dropWhile_suffix isWhiteSpace s) as (b & E).
  destruct (trimEnd_prefix (dropWhile isWhiteSpace s)) as (a & F).
  exists b, a. rewrite <- F. exact E.
Qed.

Lemma trim_In (c : N) (s : jsstring) : In c (trim s) -> In c s.
Proof.
  intros I. destruct (trim_infix s) as (b & a & E). rewrite E.
  apply in_or_app. right. apply in_or_app. left. exact I.
Qed.

Lemma split_no_sep (sep : N) (s : jsstring) :
  Forall (fun piece => ~ In sep piece) (split sep s).
Proof.
  induction s as [|a s IH]; simpl.
  - constructor; auto.
  - destruct (N.eqb_spec a sep) as [->|Ne].
    + constructor; auto.
    + destruct (split sep s) as [|l ls]; inversion IH; subst;
        constructor; auto; simpl; intros [F|F]; auto.
Qed.

Lemma sliceLast_In {A} (n : N) (x : A) (xs : list A) :
  In x (sliceLast n xs) -> In x xs.
Proof.
  destruct (sliceLast_suffix n xs) as (b & E). intros I.
  rewrite E. apply in_or_app. auto.
Qed.

Lemma join_last (sep : jsstring) (xs : list jsstring) (x : jsstring) :
  isSuffixOf x (join sep (xs ++ [x])).
Proof.
  induction xs as [|y xs IH]; simpl.
  - exists []. reflexivity.
  - destruct IH as (b & E).
    destruct (xs ++ [x]) as [|z zs] eqn:Z.
    + destruct xs; discriminate.
    + exists (y ++ sep ++ b). rewrite E, <- !app_assoc. reflexivity.
Qed.

Section ClassifierFacts.
Context `{Imports}.

(** A line of the detection window: not empty, trimmed, without line feed. *)
Lemma recentLines_line (rawTail line : jsstring) :
  In line (recentLines rawTail) ->
  line <> [] /\ trim line = line /\ ~ In 10%N line.
Proof.
  unfold recentLines. intros I. apply sliceLast_In in I.
  apply filter_In in I. destruct I as (I & Ne).
  apply in_map_iff in I. destruct I as (raw & <- & I).
  split; [destruct (trim raw); [discriminate | congruence]|].
  split; [apply trim_idem|].
  intros F. apply trim_In in F.
  assert (S := split_no_sep 10 (normalizeForPromptDetection rawTail)).
  rewrite Forall_forall in S. exact (S raw I F).
Qed.

Lemma lastLineOr_last (recent : list jsstring) (tail : jsstring) :
  recent <> [] ->
  exists before, recent = before ++ [lastLineOr recent tail].
Proof.
  intros Ne. unfold lastLineOr.
  destruct (rev recent) as [|line rest] eqn:R.
  - destruct recent; [congruence|].
    apply (f_equal (@length _)) in R. simpl in R.
    rewrite length_app in R. simpl in R. lia.
  - exists (rev rest). rewrite <- (rev_involutive recent), R. reflexivity.
Qed.

End ClassifierFacts.

(** X14.  The text of a detected prompt is the last line of the detection
    window, that is the last of the recent lines the window is joined from:
    it is not empty, has no white space at either end, holds no line feed,
    and the window ends with it.  A safe automatic response (the empty
    string) is attached exactly to press-enter prompts. *)
Theorem X14_prompt_text `{Imports} (rawTail : jsstring)
    (prompt : PromptMatch.t) :
  detectInteractivePrompt rawTail = Some prompt ->
  (exists before,
     recentLines rawTail = before ++ [PromptMatch.text prompt])
  /\ PromptMatch.text prompt <> []
  /\ trim (PromptMatch.text prompt) = PromptMatch.text prompt
  /\ ~ In 10%N (PromptMatch.text prompt)
  /\ isSuffixOf (PromptMatch.text prompt) (detectionWindow rawTail)
  /\ PromptMatch.safeAutoResponse prompt
     = match PromptMatch.kind prompt with
       | PressEnter => Some []
       | _ => None
       end.
Proof.
  unfold detectInteractivePrompt, detectionWindow. intros D.
  destruct (recentLines rawTail) as [|l ls] eqn:R; [discriminate|].
  set (recent := l :: ls) in *. set (w := join (lit " ") recent) in *.
  assert (Ne : recent <> []) by discriminate.
  destruct (lastLineOr_last w Ne) as (before & E).
  assert (T : PromptMatch.text prompt = lastLineOr recent w
              /\ PromptMatch.safeAutoResponse prompt
                 = match PromptMatch.kind prompt with
                   | PressEnter => Some []
                   | _ => None
                   end).
  { destruct (test pressEnterPattern w);
      [|destruct (test confirmIndicatorPattern w
                  || test confirmTrailingPattern w);
        [|destruct (test choicePattern w)]];
      inversion D; subst; simpl; auto. }
  destruct T as (-> & S).
  assert (I : In (lastLineOr recent w) (recentLines rawTail)).
  { rewrite R. fold recent. rewrite E at 2. apply in_or_app. simpl. auto. }
  destruct (recentLines_line _ _ I) as (L1 & L2 & L3).
  split; [exists before; exact E|].
  repeat split; auto.
  assert (J := join_last (lit " ") before (lastLineOr recent w)).
  rewrite <- E in J. exact J.
Qed.

(** The tail holds the lines Build done and Proceed? (y/N): the text of the
    prompt is the second of them, not the window of both. *)
Lemma X14_prompt_text_witness :
  let rawTail := lit "Build done" ++ 10%N :: lit "Proceed? (y/N) " in
  let prompt := {| PromptMatch.kind := Confirm;
                   PromptMatch.text := lit "Proceed? (y/N)";
                   PromptMatch.safeAutoResponse := None |} in
  (exists before,
     @recentLines plainImports rawTail = before ++ [PromptMatch.text prompt])
  /\ PromptMatch.text prompt <> []
  /\ trim (PromptMatch.text prompt) = PromptMatch.text prompt
  /\ ~ In 10%N (PromptMatch.text prompt)
  /\ isSuffixOf (PromptMatch.text prompt)
       (@detectionWindow plainImports rawTail)
  /\ PromptMatch.safeAutoResponse prompt
     = match PromptMatch.kind prompt with
       | PressEnter => Some []
       | _ => None
       end.
Proof.
  intros rawTail prompt.
  assert (D : @detectInteractivePrompt plainImports rawTail = Some prompt)
    by (vm_compute; reflexivity).
  exact (@X14_prompt_text plainImports _ _ D).
Defined.

(** *** The signature of a prompt *)

Lemma collapseFrom_true_head (s : jsstring) :
  match collapseFrom true s with
  | b :: _ => isWhiteSpace b = false
  | [] => True
  end.
Proof.
  induction s as [|a s IH]; simpl; auto.
  destruct (isWhiteSpace a) eqn:E; simpl; auto.
Qed.

Lemma collapseFrom_singleSpaced (s : jsstring) : forall inRun,
  singleSpaced (collapseFrom inRun s) = true.
Proof.
  induction s as [|a s IH]; intros inRun; simpl; auto.
  destruct (isWhiteSpace a) eqn:E.
  - destruct inRun; [apply IH|].
    simpl. rewrite (IH true).
    assert (Hd := collapseFrom_true_head s).
    destruct (collapseFrom true s); simpl; auto.
    rewrite Hd. reflexivity.
  - simpl. rewrite E. apply IH.
Qed.

Lemma singleSpaced_tail (a : N) (s : jsstring) :
  singleSpaced (a :: s) = true -> singleSpaced s = true.
Proof. simpl. intros S. apply andb_true_iff in S. apply S. Qed.

Lemma singleSpaced_suffix (b s : jsstring) :
  singleSpaced (b ++ s) = true -> singleSpaced s = true.
Proof.
  induction b as [|a b IH]; auto.
  intros S. apply IH. exact (singleSpaced_tail _ _ S).
Qed.

Lemma singleSpaced_prefix (s t : jsstring) :
  singleSpaced (s ++ t) = true -> singleSpaced s = true.
Proof.
  induction s as [|a s IH]; auto.
  simpl. intros S. apply andb_true_iff in S. destruct S as (S1 & S2).
  rewrite (IH S2), andb_true_r.
  destruct (isWhiteSpace a); auto.
  apply andb_true_iff in S1. destruct S1 as (S1 & S3). rewrite S1. simpl.
  destruct s; simpl in *; auto.
Qed.

Lemma singleSpaced_collapse (s : jsstring) :
  singleSpaced s = true ->
  collapseFrom false s = s
  /\ (match s with b :: _ => isWhiteSpace b = false | [] => True end ->
      collapseFrom true s = s).
Proof.
  induction s as [|a s IH]; simpl; auto.
  intros S. apply andb_true_iff in S. destruct S as (S1 & S2).
  destruct (IH S2) as (IH1 & IH2).
  destruct (isWhiteSpace a) eqn:E.
  - apply andb_true_iff in S1. destruct S1 as (S1 & S3).
    apply N.eqb_eq in S1. subst a. split; [|discriminate].
    f_equal. apply IH2. destruct s; auto.
    apply negb_true_iff in S3. exact S3.
  - split; intros; f_equal; exact IH1.
Qed.

(** X15.  A prompt signature is normalized for white space, whatever
    [toLowerCase] does: trimming it and collapsing its white space change
    nothing, every white-space code unit in it is a single space between two
    other code units. *)
Theorem X15_signature_is_normalized `{Imports} (text : jsstring) :
  let signature := normalizePromptSignature text in
  trim signature = signature
  /\ collapseWhiteSpace signature = signature
  /\ singleSpaced signature = true.
Proof.
  intros signature. unfold signature, normalizePromptSignature.
  set (c := collapseWhiteSpace (toLowerCase text)).
  assert (S : singleSpaced (trim c) = true).
  { destruct (trim_infix c) as (b & a & E).
    assert (Sc : singleSpaced c = true)
      by apply collapseFrom_singleSpaced.
    rewrite E in Sc. apply singleSpaced_suffix in Sc.
    apply singleSpaced_prefix in Sc. exact Sc. }
  split; [apply trim_idem|]. split; [|exact S].
  apply singleSpaced_collapse, S.
Qed.

(** *** The choice pattern *)

Lemma eqIgnoreCase_app (a b x y : jsstring) :
  eqIgnoreCase a x -> eqIgnoreCase b y -> eqIgnoreCase (a ++ b) (x ++ y).
Proof. unfold eqIgnoreCase. intros E F. rewrite !map_app, E, F. reflexivity. Qed.

Lemma eqIgnoreCase_split (m x y : jsstring) :
  eqIgnoreCase m (x ++ y) ->
  exists a b, m = a ++ b /\ eqIgnoreCase a x /\ eqIgnoreCase b y.
Proof.
  unfold eqIgnoreCase. rewrite map_app. intros E.
  apply map_eq_app in E. destruct E as (a & b & -> & Ea & Eb). eauto.
Qed.

Lemma eqIgnoreCase_nil (m : jsstring) : eqIgnoreCase m [] -> m = [].
Proof. unfold eqIgnoreCase. destruct m; [auto | discriminate]. Qed.

(** verb( an?)? option *)
Lemma article_option (verb m : jsstring) :
  (exists m0 m3,
     m = m0 ++ m3 /\ eqIgnoreCase m0 verb
     /\ exists m4 m5,
          m3 = m4 ++ m5
          /\ ((exists m6 m7,
                 m4 = m6 ++ m7 /\ eqIgnoreCase m6 (lit " a")
                 /\ (eqIgnoreCase m7 (lit "n") \/ m7 = []))
              \/ m4 = [])
          /\ eqIgnoreCase m5 (lit " option"))
  <-> (eqIgnoreCase m (verb ++ lit " option")
       \/ eqIgnoreCase m (verb ++ lit " a" ++ lit " option")
       \/ eqIgnoreCase m (verb ++ (lit " a" ++ lit "n") ++ lit " option")).
Proof.
  split.
  - intros (m0 & m3 & -> & V & m4 & m5 & -> & A & O).
    destruct A as [(m6 & m7 & -> & A & [Nn| ->])| ->].
    + right. right. repeat apply eqIgnoreCase_app; auto.
    + right. left. rewrite app_nil_r. repeat apply eqIgnoreCase_app; auto.
    + left. simpl. apply eqIgnoreCase_app; auto.
  - intros [E|[E|E]]; apply eqIgnoreCase_split in E;
      destruct E as (m0 & m3 & -> & V & E); exists m0, m3;
      (split; [reflexivity|]); (split; [exact V|]).
    + exists [], m3. simpl. auto.
    + apply eqIgnoreCase_split in E. destruct E as (a & o & -> & A & O).
      exists a, o. split; [reflexivity|]. split; [|exact O].
      left. exists a, []. rewrite app_nil_r. auto.
    + apply eqIgnoreCase_split in E. destruct E as (a & o & -> & A & O).
      exists a, o. split; [reflexivity|]. split; [|exact O].
      apply eqIgnoreCase_split in A. destruct A as (a1 & a2 & -> & A1 & A2).
      left. exists a1, a2. auto.
Qed.

Lemma choice_iff (window : jsstring) :
  Matches choicePattern window <-> choiceCue window.
Proof.
  unfold Matches, choiceCue, isChoicePhrase, choicePhrases, optSpaces.
  split.
  - intros (pre & m & post & -> & D).
    unfold choicePattern, star, L in D. cbn [den] in D.
    destruct D as (phrase & r & -> & P & ws & e & -> & (F & _ & _) & -> & ->).
    exists pre, phrase, ws. rewrite !app_nil_r.
    split; [reflexivity|]. split; [|exact F].
    destruct P as [P|[P|[P|P]]].
    + left. exists "enter choice"%string. simpl. auto.
    + apply article_option in P. left.
      destruct P as [P|[P|P]];
        [exists "select option"%string | exists "select a option"%string
        | exists "select an option"%string]; simpl; auto 10.
    + apply article_option in P. left.
      destruct P as [P|[P|P]];
        [exists "choose option"%string | exists "choose a option"%string
        | exists "choose an option"%string]; simpl; auto 10.
    + right. destruct P as (w & r & -> & W & sp & c & -> & (Fs & _ & _)
                            & a & -> & C).
      exists w, sp, a. auto.
  - intros (pre & phrase & ws & -> & P & F).
    exists pre, (phrase ++ ws), [].
    split; [rewrite app_nil_r; reflexivity|].
    unfold choicePattern, star, L. cbn [den].
    exists phrase, ws. split; [reflexivity|]. split.
    + destruct P as [(p & I & E)|(w & sp & c & -> & W & Fs & C)].
      * simpl in I.
        destruct I as [<-|[<-|[<-|[<-|[<-|[<-|[<-|[]]]]]]]].
        -- left. exact E.
        -- right. left. apply article_option. left. exact E.
        -- right. left. apply article_option. right. left. exact E.
        -- right. left. apply article_option. right. right. exact E.
        -- right. right. left. apply article_option. left. exact E.
        -- right. right. left. apply article_option. right. left. exact E.
        -- right. right. left. apply article_option. right. right. exact E.
      * right. right. right. exists w, (sp ++ [c]).
        split; [reflexivity|]. split; [exact W|].
        exists sp, [c]. split; [reflexivity|].
        split; [simpl; repeat split; auto; lia|]. eauto.
    + exists ws, []. rewrite app_nil_r. split; [reflexivity|].
      split; [simpl; repeat split; auto; lia | auto].
Qed.

(** X16.  The classifier returns kind choice exactly when the detection
    window is not empty, holds neither the press-enter phrase nor a confirm
    cue, and ends, up to white space, with one of the phrases enter choice,
    select option, select a option, select an option, choose option, choose
    a option, choose an option (in any letter case), or with the word choice,
    optional white space and a colon or a greater-than sign. *)
Theorem X16_choice_exactly `{Imports} (rawTail : jsstring) :
  returnsKind rawTail Choice <->
  recentLines rawTail <> []
  /\ ~ containsPressEnterPhrase (detectionWindow rawTail)
  /\ ~ confirmIndicatorCue (detectionWindow rawTail)
  /\ ~ confirmTrailingCue (detectionWindow rawTail)
  /\ choiceCue (detectionWindow rawTail).
Proof.
  unfold returnsKind, detectInteractivePrompt, detectionWindow.
  rewrite <- pressEnter_iff, <- confirmIndicator_iff, <- confirmTrailing_iff,
    <- choice_iff.
  rewrite <- !test_false_iff, <- test_spec.
  destruct (recentLines rawTail) as [|l ls].
  { split; [intros (p & D & _); discriminate | intros (N0 & _); congruence]. }
  set (w := join (lit " ") (l :: ls)).
  destruct (test pressEnterPattern w).
  { split; [intros (p & D & K); inversion D; subst; discriminate|].
    intros (_ & N0 & _). discriminate. }
  destruct (test confirmIndicatorPattern w); simpl.
  { split; [intros (p & D & K); inversion D; subst; discriminate|].
    intros (_ & _ & N0 & _). discriminate. }
  destruct (test confirmTrailingPattern w).
  { split; [intros (p & D & K); inversion D; subst; discriminate|].
    intros (_ & _ & _ & N0 & _). discriminate. }
  destruct (test choicePattern w).
  - split; [|eauto]. intros _. repeat split; auto. discriminate.
  - split; [intros (p & D & _); discriminate|].
    intros (_ & _ & _ & _ & F). discriminate.
Qed.

(** X17.  The classifier finds no prompt exactly when the detection window
    is empty or holds none of the cues: not the press-enter phrase, no
    confirm cue, no choice cue. *)
Theorem X17_no_prompt_exactly `{Imports} (rawTail : jsstring) :
  detectInteractivePrompt rawTail = None <->
  recentLines rawTail = []
  \/ (~ containsPressEnterPhrase (detectionWindow rawTail)
      /\ ~ confirmIndicatorCue (detectionWindow rawTail)
      /\ ~ confirmTrailingCue (detectionWindow rawTail)
      /\ ~ choiceCue (detectionWindow rawTail)).
Proof.
  unfold detectInteractivePrompt, detectionWindow.
  rewrite <- pressEnter_iff, <- confirmIndicator_iff, <- confirmTrailing_iff,
    <- choice_iff.
  rewrite <- !test_false_iff.
  destruct (recentLines rawTail) as [|l ls]; [tauto|].
  set (w := join (lit " ") (l :: ls)).
  destruct (test pressEnterPattern w), (test confirmIndicatorPattern w),
    (test confirmTrailingPattern w), (test choicePattern w); simpl;
    split; auto; try discriminate;
    intros [F|(A & B & C & D)]; discriminate.
Qed.

(** * Properties of the command *)

(** ** The shell command of the session *)

Lemma shFields_quoted_body (value rest : jsstring) : forall word,
  shFieldsFrom ShSingle (Some word)
    (flat_map (fun c => if (c =? 39)%N then [39; 34; 39; 34; 39]%N else [c])
       value ++ 39%N :: rest)
  = shFieldsFrom ShPlain (Some (rev value ++ word)) rest.
Proof.
  induction value as [|c value IH]; intros word.
  - reflexivity.
  - simpl flat_map. destruct (N.eqb_spec c 39) as [->|Ne].
    + change (shFieldsFrom ShSingle (Some (39%N :: word))
                (flat_map
                   (fun c => if (c =? 39)%N then [39; 34; 39; 34; 39]%N
                             else [c]) value ++ 39%N :: rest)
              = shFieldsFrom ShPlain (Some (rev (39%N :: value) ++ word)) rest).
      rewrite IH. simpl. rewrite <- app_assoc. reflexivity.
    + simpl. destruct (N.eqb_spec c 39) as [E|_]; [contradiction|].
      unfold shPush. rewrite IH. simpl. rewrite <- app_assoc. reflexivity.
Qed.

Lemma shFields_quoted (value rest : jsstring) (word : option jsstring) :
  shFieldsFrom ShPlain word (shellQuoteSingleArg value ++ rest)
  = shFieldsFrom ShPlain
      (Some (rev value ++ match word with Some w => w | None => [] end)) rest.
Proof.
  unfold shellQuoteSingleArg. simpl. rewrite <- app_assoc. simpl.
  apply shFields_quoted_body.
Qed.

(** X18.  The command line that [buildShellCommand] makes of an argument
    vector is read back by sh as exactly that vector: every argument is one
    field, whatever code units it holds (quotes, blanks, line feeds, dollar
    signs), and an empty argument stays an empty field. *)
Theorem X18_shell_command_round_trip (argv : list jsstring) :
  shFields (buildShellCommand argv) = Some argv.
Proof.
  unfold shFields, buildShellCommand.
  induction argv as [|arg argv IH]; [reflexivity|].
  destruct argv as [|arg' argv].
  - cbn [map join]. rewrite <- (app_nil_r (shellQuoteSingleArg arg)).
    rewrite shFields_quoted. cbn [shFieldsFrom].
    rewrite app_nil_r, rev_involutive. reflexivity.
  - change (join (lit " ") (map shellQuoteSingleArg (arg :: arg' :: argv)))
      with (shellQuoteSingleArg arg ++ lit " "
            ++ join (lit " ") (map shellQuoteSingleArg (arg' :: argv))).
    rewrite shFields_quoted.
    change (lit " " ++ ?x) with (32%N :: x).
    cbn [shFieldsFrom N.eqb Pos.eqb orb].
    rewrite IH. simpl. rewrite app_nil_r, rev_involutive. reflexivity.
Qed.

(** ** Branch names and commit messages *)

Lemma dropEnd_prefix (p : N -> bool) (s : jsstring) :
  exists tail, s = rev (dropWhile p (rev s)) ++ tail.
Proof.
  destruct (dropWhile_suffix p (rev s)) as (b & E).
  exists (rev b). rewrite <- rev_app_distr, <- E. symmetry. apply rev_involutive.
Qed.

Lemma dropEnd_keeps_head (p : N -> bool) (a : N) (s : jsstring) :
  p a = false -> exists s', rev (dropWhile p (rev (a :: s))) = a :: s'.
Proof.
  intros E. simpl. rewrite dropWhile_app_stop by exact E.
  rewrite rev_app_distr. simpl. eauto.
Qed.

Lemma slugChar_not_dash (a : N) : isSlugChar a = true -> isDash a = false.
Proof.
  unfold isSlugChar, isDash. intros S.
  destruct (N.eqb_spec a 45) as [->|]; [discriminate | reflexivity].
Qed.

Lemma dashRunsFrom_chars (s : jsstring) : forall inRun,
  Forall (fun c => isSlugChar c || isDash c = true) (dashRunsFrom inRun s).
Proof.
  induction s as [|a s IH]; intros inRun; simpl; [constructor|].
  destruct (isSlugChar a) eqn:E.
  - constructor; [rewrite E; reflexivity | apply IH].
  - destruct inRun; [apply IH|]. constructor; [reflexivity | apply IH].
Qed.

Lemma dashRunsFrom_true_head (s : jsstring) :
  match dashRunsFrom true s with
  | b :: _ => isDash b = false
  | [] => True
  end.
Proof.
  induction s as [|a s IH]; simpl; auto.
  destruct (isSlugChar a) eqn:E; [apply slugChar_not_dash, E | exact IH].
Qed.

Lemma dashRunsFrom_singleDashed (s : jsstring) : forall inRun,
  singleDashed (dashRunsFrom inRun s) = true.
Proof.
  induction s as [|a s IH]; intros inRun; simpl; auto.
  destruct (isSlugChar a) eqn:E.
  - simpl. rewrite (slugChar_not_dash _ E). apply IH.
  - destruct inRun; [apply IH|].
    simpl. rewrite (IH true).
    assert (Hd := dashRunsFrom_true_head s).
    destruct (dashRunsFrom true s); simpl; auto.
    rewrite Hd. reflexivity.
Qed.

Lemma singleDashed_suffix (b s : jsstring) :
  singleDashed (b ++ s) = true -> singleDashed s = true.
Proof.
  induction b as [|a b IH]; auto.
  simpl. intros S. apply andb_true_iff in S. apply IH, S.
Qed.

Lemma singleDashed_prefix (s t : jsstring) :
  singleDashed (s ++ t) = true -> singleDashed s = true.
Proof.
  induction s as [|a s IH]; auto.
  simpl. intros S. apply andb_true_iff in S. destruct S as (S1 & S2).
  rewrite (IH S2), andb_true_r.
  destruct (isDash a); auto. destruct s; simpl in *; auto.
Qed.

Lemma stripDashes_infix (s : jsstring) :
  exists b a, s = b ++ stripDashes s ++ a.
Proof.
  unfold stripDashes.
  destruct (dropWhile_suffix isDash s) as (b & E).
  destruct (dropEnd_prefix isDash (dropWhile isDash s)) as (a & F).
  exists b, a. rewrite <- F. exact E.
Qed.

Lemma stripDashes_head (s : jsstring) :
  match stripDashes s with b :: _ => isDash b = false | [] => True end.
Proof.
  unfold stripDashes.
  assert (Hd := dropWhile_head isDash s).
  destruct (dropWhile isDash s) as [|a s'] eqn:D; [exact I|].
  destruct (@dropEnd_keeps_head isDash a s' Hd) as (t & E).
  rewrite E. exact Hd.
Qed.

(** X19.  A slug is never empty, consists of lower-case ASCII letters,
    digits and dashes only (whatever [toLowerCase] returns), does not begin
    with a dash, holds no two dashes in a row, and has at most [max] code
    units unless it is the fallback "task". *)
Theorem X19_slug_shape `{Imports} (input : jsstring) (max : nat) :
  let slug := toSlug input max in
  slug <> []
  /\ Forall (fun c => isSlugChar c || isDash c = true) slug
  /\ match slug with b :: _ => isDash b = false | [] => True end
  /\ singleDashed slug = true
  /\ (length slug <= max \/ slug = lit "task").
Proof.
  unfold toSlug.
  set (runs := dashRunsFrom false (toLowerCase input)).
  destruct (stripDashes_infix runs) as (b & a & E).
  assert (Hd := stripDashes_head runs).
  assert (Fc : Forall (fun c => isSlugChar c || isDash c = true)
                 (stripDashes runs)).
  { assert (F := dashRunsFrom_chars (toLowerCase input) false).
    fold runs in F. rewrite E in F.
    apply Forall_app in F. destruct F as (_ & F).
    apply Forall_app in F. apply F. }
  assert (Sd : singleDashed (stripDashes runs) = true).
  { assert (S := dashRunsFrom_singleDashed (toLowerCase input) false).
    fold runs in S. rewrite E in S.
    apply singleDashed_suffix in S. apply singleDashed_prefix in S. exact S. }
  set (stripped := stripDashes runs) in *.
  assert (L := firstn_le_length max stripped).
  assert (P := firstn_skipn max stripped).
  destruct (firstn max stripped) as [|c slug] eqn:Fn.
  - simpl. repeat split; auto; try discriminate.
    repeat constructor.
  - cbv zeta. split; [discriminate|].
    split; [rewrite <- P in Fc; apply Forall_app in Fc; apply Fc|].
    split.
    { destruct stripped as [|c' st]; [destruct max; discriminate|].
      destruct max; [discriminate|]. simpl in Fn. inversion Fn; subst.
      exact Hd. }
    split; [rewrite <- P in Sd; apply singleDashed_prefix in Sd; exact Sd|].
    left. rewrite <- Fn. rewrite length_firstn. lia.
Qed.

Lemma singleSpaced_app (a b : jsstring) :
  singleSpaced a = true -> singleSpaced b = true ->
  match b with c :: _ => isWhiteSpace c = false | [] => True end ->
  singleSpaced (a ++ b) = true.
Proof.
  intros Sa Sb Hb. induction a as [|x a IH]; [exact Sb|].
  simpl in *. apply andb_true_iff in Sa. destruct Sa as (S1 & S2).
  rewrite (IH S2), andb_true_r.
  destruct (isWhiteSpace x); auto.
  apply andb_true_iff in S1. destruct S1 as (S1 & S3). rewrite S1. simpl.
  destruct a as [|y a]; simpl; auto.
  destruct b; auto. rewrite Hb. reflexivity.
Qed.

Lemma collapse_trimmed (s : jsstring) :
  let compact := trim (collapseWhiteSpace s) in
  singleSpaced compact = true
  /\ match compact with c :: _ => isWhiteSpace c = false | [] => True end.
Proof.
  cbv zeta. split.
  - destruct (trim_infix (collapseWhiteSpace s)) as (b & a & E).
    assert (Sc : singleSpaced (collapseWhiteSpace s) = true)
      by apply collapseFrom_singleSpaced.
    rewrite E in Sc. apply singleSpaced_suffix in Sc.
    apply singleSpaced_prefix in Sc. exact Sc.
  - unfold trim, trimStart.
    assert (Hd := dropWhile_head isWhiteSpace (collapseWhiteSpace s)).
    destruct (dropWhile isWhiteSpace (collapseWhiteSpace s)) as [|a s'];
      [exact I|].
    destruct (@trimEnd_keeps_head a s' Hd) as (t & E). rewrite E. exact Hd.
Qed.

(** X20.  A commit message is the prefix chore(codex-run): and a subject
    that is not empty; it has at most 77 code units, and its white space is
    single spaces only, so that it is one line. *)
Theorem X20_commit_message_shape (task : jsstring) :
  let message := buildCommitMessage task in
  (exists subject,
     message = lit "chore(codex-run): " ++ subject /\ subject <> [])
  /\ length message <= 77
  /\ singleSpaced message = true.
Proof.
  unfold buildCommitMessage.
  destruct (collapse_trimmed task) as (Sc & Hc). cbv zeta in Sc, Hc.
  set (compact := trim (collapseWhiteSpace task)) in *.
  set (base := match compact with
               | [] => lit "codex-run update"
               | _ :: _ => compact
               end).
  assert (B : singleSpaced base = true
              /\ exists a base', base = a :: base' /\ isWhiteSpace a = false).
  { unfold base. destruct compact as [|a c]; [|eauto].
    split; [reflexivity|]. eexists _, _. split; reflexivity. }
  destruct B as (Sb & a & base' & Eb & Ha).
  set (clipped := if 56 <? length base
                  then trimEnd (firstn 56 base) ++ lit "..."
                  else base).
  assert (C : singleSpaced clipped = true
              /\ (exists clipped', clipped = a :: clipped')
              /\ length clipped <= 59).
  { unfold clipped. destruct (Nat.ltb_spec 56 (length base)) as [Lt|Le].
    - rewrite Eb. rewrite (firstn_cons 55 a base').
      destruct (@trimEnd_keeps_head a (firstn 55 base') Ha) as (t & E).
      destruct (trimEnd_prefix (a :: firstn 55 base')) as (ws & W).
      split; [|split].
      + apply singleSpaced_app; [|reflexivity|reflexivity].
        assert (S : singleSpaced (firstn 56 base) = true).
        { rewrite <- (firstn_skipn 56 base) in Sb.
          apply singleSpaced_prefix in Sb. exact Sb. }
        rewrite Eb, (firstn_cons 55 a base'), W in S.
        apply singleSpaced_prefix in S. exact S.
      + rewrite E. simpl. eauto.
      + apply (f_equal (@length _)) in W. rewrite length_app in W.
        cbn [length] in W. rewrite length_app.
        assert (F := firstn_le_length 55 base').
        change (length (lit "...")) with 3. lia.
    - split; [exact Sb|]. split; [eauto | lia]. }
  destruct C as (S1 & (clipped' & Ec) & Lc).
  split; [exists clipped; split; [reflexivity | rewrite Ec; discriminate]|].
  split.
  - rewrite length_app. simpl. lia.
  - apply singleSpaced_app; [reflexivity | exact S1 | rewrite Ec; exact Ha].
Qed.

(** ** Output tails, primary binaries, default arguments *)

(** X21.  The tail of an output is a suffix of the trimmed output, the
    trimmed output itself when that has at most [maxChars] code units, and
    never longer than [maxChars] when [maxChars] is positive.  (For
    [maxChars] zero the whole trimmed output is returned.) *)
Theorem X21_output_tail (value : jsstring) (maxChars : N) :
  (0 < maxChars)%N ->
  let tail := trimOutputTail value maxChars in
  (N.of_nat (length tail) <= maxChars)%N
  /\ isSuffixOf tail (trim value)
  /\ ((N.of_nat (length (trim value)) <= maxChars)%N -> tail = trim value).
Proof.
  intros Pos. unfold trimOutputTail.
  destruct value as [|c value].
  - cbv zeta. split; [simpl; lia|]. split; [exists []; reflexivity|].
    reflexivity.
  - cbv zeta. set (trimmed := trim (c :: value)).
    destruct (N.leb_spec (N.of_nat (length trimmed)) maxChars) as [Le|Gt].
    + split; [exact Le|]. split; [exists []; reflexivity | reflexivity].
    + destruct (N.eqb_spec maxChars 0) as [Z|_]; [lia|].
      split; [apply sliceLast_length|].
      split; [apply sliceLast_suffix | lia].
Qed.

Lemma X21_output_tail_witness :
  let tail := trimOutputTail (lit "  one two three  ") 5 in
  (N.of_nat (length tail) <= 5)%N
  /\ isSuffixOf tail (trim (lit "  one two three  "))
  /\ ((N.of_nat (length (trim (lit "  one two three  "))) <= 5)%N ->
      tail = trim (lit "  one two three  ")).
Proof.
  assert (Pos : (0 < 5)%N) by reflexivity.
  exact (@X21_output_tail (lit "  one two three  ") 5 Pos).
Defined.

Lemma splitWhiteSpace_first (s : jsstring) :
  exists first pieces rest,
    splitWhiteSpaceFrom false s = first :: pieces
    /\ Forall (fun x => isWhiteSpace x = false) first
    /\ s = first ++ rest
    /\ match rest with x :: _ => isWhiteSpace x = true | [] => True end.
Proof.
  induction s as [|a s IH]; simpl.
  - exists [], [], []. repeat split; auto.
  - destruct (isWhiteSpace a) eqn:E.
    + exists [], (splitWhiteSpaceFrom true s), (a :: s). repeat split; auto.
    + destruct IH as (first & pieces & rest & -> & F & -> & R).
      exists (a :: first), pieces, rest. repeat split; auto.
Qed.

Lemma trimStart_no_space (s : jsstring) :
  Forall (fun x => isWhiteSpace x = false) s -> dropWhile isWhiteSpace s = s.
Proof. intros F. destruct F as [|a s Ha F]; simpl; auto. rewrite Ha. auto. Qed.

Lemma trim_no_space (s : jsstring) :
  Forall (fun x => isWhiteSpace x = false) s -> trim s = s.
Proof.
  intros F. unfold trim, trimStart, trimEnd.
  rewrite (trimStart_no_space F), trimStart_no_space.
  - apply rev_involutive.
  - apply Forall_rev, F.
Qed.

(** X22.  [extractPrimaryBin] returns nothing exactly for a blank command;
    otherwise it returns the first word of the command: not empty, free of
    white space, standing at the beginning of the trimmed command and
    followed there by white space or by nothing. *)
Theorem X22_primary_bin (command : jsstring) :
  (extractPrimaryBin command = None <-> trim command = [])
  /\ forall token,
       extractPrimaryBin command = Some token ->
       token <> []
       /\ Forall (fun x => isWhiteSpace x = false) token
       /\ exists rest,
            trim command = token ++ rest
            /\ match rest with
               | x :: _ => isWhiteSpace x = true
               | [] => True
               end.
Proof.
  unfold extractPrimaryBin, splitWhiteSpace.
  assert (Hd : match trim command with
               | a :: _ => isWhiteSpace a = false
               | [] => True
               end).
  { unfold trim, trimStart.
    assert (Hd := dropWhile_head isWhiteSpace command).
    destruct (dropWhile isWhiteSpace command) as [|a s']; [exact I|].
    destruct (@trimEnd_keeps_head a s' Hd) as (t & E). rewrite E. exact Hd. }
  destruct (trim command) as [|a trimmed] eqn:T.
  - split; [tauto|]. discriminate.
  - destruct (splitWhiteSpace_first (a :: trimmed))
      as (first & pieces & rest & -> & F & E & R).
    rewrite (trim_no_space F).
    destruct first as [|b first].
    + simpl in E. subst rest. congruence.
    + split; [split; discriminate|].
      intros token Q. inversion Q; subst token.
      split; [discriminate|]. split; [exact F|].
      exists rest. auto.
Qed.

(** X23.  [withDefaultCodexArgs] returns arguments that hold
    --no-alt-screen: the given arguments as they are when they hold it
    already, and the given arguments with --no-alt-screen put before them
    when they do not.  Applied again it changes nothing. *)
Theorem X23_default_codex_args (codexArgs : list jsstring) :
  let next := withDefaultCodexArgs codexArgs in
  In (lit "--no-alt-screen") next
  /\ (In (lit "--no-alt-screen") codexArgs -> next = codexArgs)
  /\ (~ In (lit "--no-alt-screen") codexArgs ->
      next = lit "--no-alt-screen" :: codexArgs)
  /\ withDefaultCodexArgs next = next.
Proof.
  assert (B : existsb (Js.eqb (lit "--no-alt-screen")) codexArgs = true
              <-> In (lit "--no-alt-screen") codexArgs).
  { rewrite existsb_exists. split.
    - intros (x & I & E). apply eqb_eq in E. subst x. exact I.
    - intros I. exists (lit "--no-alt-screen").
      split; [exact I | apply eqb_eq; reflexivity]. }
  assert (In (lit "--no-alt-screen") (withDefaultCodexArgs codexArgs)) as I.
  { unfold withDefaultCodexArgs.
    destruct (existsb (Js.eqb (lit "--no-alt-screen")) codexArgs) eqn:E.
    - apply B. reflexivity.
    - left. reflexivity. }
  cbv zeta. split; [exact I|]. split; [|split].
  - intros Held. apply B in Held. unfold withDefaultCodexArgs.
    rewrite Held. reflexivity.
  - intros Missing. unfold withDefaultCodexArgs.
    destruct (existsb (Js.eqb (lit "--no-alt-screen")) codexArgs) eqn:E;
      [|reflexivity].
    exfalso. apply Missing, B. reflexivity.
  - unfold withDefaultCodexArgs at 1.
    replace (existsb (Js.eqb (lit "--no-alt-screen"))
               (withDefaultCodexArgs codexArgs)) with true; auto.
    symmetry. apply existsb_exists. exists (lit "--no-alt-screen").
    split; [exact I | apply eqb_eq; reflexivity].
Qed.

(** The flag is put before [exec]; after [exec --no-alt-screen] nothing is
    added. *)
Lemma X23_default_codex_args_witness :
  withDefaultCodexArgs [lit "exec"] = [lit "--no-alt-screen"; lit "exec"]
  /\ withDefaultCodexArgs [lit "exec"; lit "--no-alt-screen"]
     = [lit "exec"; lit "--no-alt-screen"].
Proof.
  split.
  - assert (Missing : ~ In (lit "--no-alt-screen") [lit "exec"]).
    { intros [E|[]]. vm_compute in E. discriminate. }
    exact (proj1 (proj2 (proj2 (X23_default_codex_args [lit "exec"])))
             Missing).
  - assert (Held : In (lit "--no-alt-screen")
                     [lit "exec"; lit "--no-alt-screen"]).
    { right. left. reflexivity. }
    exact (proj1 (proj2 (X23_default_codex_args
                           [lit "exec"; lit "--no-alt-screen"])) Held).
Defined.

(** ** The report of changed files *)

Lemma split_nonempty (sep : N) (s : jsstring) : split sep s <> [].
Proof.
  destruct s as [|a s]; simpl; [discriminate|].
  destruct (a =? sep)%N; [discriminate|].
  destruct (split sep s); discriminate.
Qed.

Lemma split_app (sep : N) (a b : jsstring) :
  split sep (a ++ sep :: b) = split sep a ++ split sep b.
Proof.
  induction a as [|x a IH]; simpl.
  - rewrite N.eqb_refl. reflexivity.
  - destruct (x =? sep)%N; [rewrite IH; reflexivity|].
    rewrite IH. assert (Ne := split_nonempty sep a).
    destruct (split sep a) as [|l ls]; [congruence | reflexivity].
Qed.

Lemma statusSummary_known (code : jsstring) :
  In (statusSummary code) (map lit porcelainSummaries).
Proof.
  unfold statusSummary.
  repeat match goal with
         | |- context [if ?b then _ else _] => destruct b
         end; simpl; auto 10.
Qed.

Lemma parsePorcelainLine_entries (line : jsstring) :
  Forall (fun entry =>
            In (summary entry) (map lit porcelainSummaries)
            /\ trim (file entry) = file entry)
    (parsePorcelainLine line)
  /\ length (parsePorcelainLine line) <= 1.
Proof.
  unfold parsePorcelainLine.
  destruct (startsWith (lit "?? ") line).
  - split; [|simpl; lia]. constructor; [|constructor]. cbn [file summary].
    split; [simpl; auto | apply trim_idem].
  - destruct (length line <? 4); [split; [constructor | simpl; lia]|].
    split; [|simpl; lia]. constructor; [|constructor]. cbn [file summary].
    split; [apply statusSummary_known|].
    destruct (includes (lit " -> ") (trim (skipn 3 line))); apply trim_idem.
Qed.

(** X24.  The report of changed files is made line by line: the report of
    two outputs joined by a line feed is the report of the first followed by
    the report of the second.  It has at most one entry per line; every
    entry has one of the eight summaries, and a file name without white
    space at either end. *)
Theorem X24_porcelain_report (first second : jsstring) :
  parseGitPorcelain (first ++ 10%N :: second)
  = parseGitPorcelain first ++ parseGitPorcelain second
  /\ Forall (fun entry =>
               In (summary entry) (map lit porcelainSummaries)
               /\ trim (file entry) = file entry)
       (parseGitPorcelain first)
  /\ length (parseGitPorcelain first) <= length (split 10 first).
Proof.
  unfold parseGitPorcelain. split; [|split].
  - rewrite split_app, map_app, filter_app, flat_map_app. reflexivity.
  - apply Forall_flat_map, Forall_forall. intros line _.
    apply parsePorcelainLine_entries.
  - rewrite <- (length_map trimEnd (split 10 first)).
    generalize (map trimEnd (split 10 first)). intros lines.
    induction lines as [|l lines IH]; simpl; [lia|].
    destruct (nonEmpty l); simpl; [|lia].
    rewrite length_app.
    destruct (parsePorcelainLine_entries l) as (_ & L). lia.
Qed.

(** ** The branch of the run *)

Lemma firstFreeBranch_spec (localBranchExists : jsstring -> bool)
    (baseName : jsstring) (rounds : nat) : forall i,
  match firstFreeBranch localBranchExists baseName i rounds with
  | Some candidate =>
      localBranchExists candidate = false
      /\ exists k,
           i <= k < i + rounds /\ candidate = branchCandidate baseName k
           /\ forall j, i <= j < k ->
                localBranchExists (branchCandidate baseName j) = true
  | None =>
      forall j, i <= j < i + rounds ->
        localBranchExists (branchCandidate baseName j) = true
  end.
Proof.
  induction rounds as [|rounds IH]; intros i; simpl.
  - intros j Hj. lia.
  - destruct (localBranchExists (branchCandidate baseName i)) eqn:E; simpl.
    + specialize (IH (S i)).
      destruct (firstFreeBranch localBranchExists baseName (S i) rounds)
        as [candidate|].
      * destruct IH as (F & k & Hk & Ek & Before). split; [exact F|].
        exists k. split; [lia|]. split; [exact Ek|].
        intros j Hj. destruct (Nat.eq_dec j i) as [->|Ne]; [exact E|].
        apply Before. lia.
      * intros j Hj. destruct (Nat.eq_dec j i) as [->|Ne]; [exact E|].
        apply IH. lia.
    + split; [exact E|]. exists i. split; [lia|]. split; [reflexivity|].
      intros j Hj. lia.
Qed.

(** X25.  [ensureUniqueBranchName] returns the first of the candidates
    base, base-2, base-3, ..., base-200 that is not a local branch, and
    throws exactly when all two hundred are. *)
Theorem X25_unique_branch_name (localBranchExists : jsstring -> bool)
    (baseName : jsstring) :
  match ensureUniqueBranchName localBranchExists baseName with
  | inl candidate =>
      localBranchExists candidate = false
      /\ exists k,
           k < 200 /\ candidate = branchCandidate baseName k
           /\ forall j, j < k ->
                localBranchExists (branchCandidate baseName j) = true
  | inr _ =>
      forall j, j < 200 ->
        localBranchExists (branchCandidate baseName j) = true
  end.
Proof.
  unfold ensureUniqueBranchName.
  assert (Q := firstFreeBranch_spec localBranchExists baseName 200 0).
  destruct (firstFreeBranch localBranchExists baseName 0 200)
    as [candidate|].
  - destruct Q as (F & k & Hk & Ek & Before). split; [exact F|].
    exists k. split; [lia|]. split; [exact Ek|].
    intros j Hj. apply Before. lia.
  - intros j Hj. apply Q. lia.
Qed.

(** ** The verification commands *)

Lemma inferVerificationCommands_known (repo : RepoLayout) :
  Forall (fun command => In command (map lit inferableCommands))
    (inferVerificationCommands repo)
  /\ length (inferVerificationCommands repo) <= 1.
Proof.
  unfold inferVerificationCommands.
  repeat match goal with
         | |- context [if ?b then _ else _] => destruct b
         end;
    (split;
     [repeat (apply Forall_cons; [simpl; tauto|]); apply Forall_nil
     | simpl; lia]).
Qed.

Lemma inferable_trimmed (command : jsstring) :
  In command (map lit inferableCommands) ->
  command <> [] /\ trim command = command.
Proof.
  simpl. intros I.
  repeat (destruct I as [<-|I]; [split; [discriminate | reflexivity]|]).
  destruct I.
Qed.

Lemma explicit_trimmed (verifyCmds : list jsstring) :
  Forall (fun command => command <> [] /\ trim command = command)
    (filter nonEmpty (map trim verifyCmds)).
Proof.
  apply Forall_forall. intros command I.
  apply filter_In in I. destruct I as (I & Ne).
  apply in_map_iff in I. destruct I as (raw & <- & _).
  split; [destruct (trim raw); [discriminate | congruence] | apply trim_idem].
Qed.

(** X26.  [resolveVerificationCommands] never returns an empty list or a
    blank command: it returns the explicit commands that are not blank,
    trimmed, when there are any; otherwise the inferred command when there
    is one; otherwise, in an interactive terminal, the command the user
    enters when it is not blank.  It throws exactly when none of these
    gives a command. *)
Theorem X26_verification_is_required (verifyCmds : list jsstring)
    (repo : RepoLayout) (interactive : bool) (entered : jsstring) :
  let explicit := filter nonEmpty (map trim verifyCmds) in
  let inferred := inferVerificationCommands repo in
  match resolveVerificationCommands verifyCmds repo interactive entered with
  | inl commands =>
      commands <> []
      /\ Forall (fun command => command <> [] /\ trim command = command)
           commands
      /\ (commands = explicit
          \/ (explicit = [] /\ commands = inferred)
          \/ (explicit = [] /\ inferred = [] /\ interactive = true
              /\ commands = [trim entered]))
  | inr _ =>
      explicit = [] /\ inferred = []
      /\ (interactive = false \/ trim entered = [])
  end.
Proof.
  cbv zeta. unfold resolveVerificationCommands.
  assert (Fe := explicit_trimmed verifyCmds).
  destruct (filter nonEmpty (map trim verifyCmds)) as [|e es].
  - destruct (inferVerificationCommands_known repo) as (Fi & _).
    destruct (inferVerificationCommands repo) as [|c cs].
    + destruct interactive; simpl; [|auto].
      destruct (trim entered) as [|a t] eqn:T; [auto|].
      split; [discriminate|]. split.
      * constructor; [|constructor]. split; [discriminate|].
        rewrite <- T. apply trim_idem.
      * right. right. auto.
    + split; [discriminate|]. split; [|auto].
      eapply Forall_impl; [|exact Fi]. intros a. apply inferable_trimmed.
  - split; [discriminate|]. split; [exact Fe | auto].
Qed.
